(** * SEP lifecycle automation (tools/sep-automation)

    A shallow embedding of the TypeScript sources of the SEP lifecycle bot:
    the rules table, the repository client, the maintainer resolver, the
    staleness analyzer, the detector, the transition and ping handlers and
    the per-item processor, followed by the properties proved about them.

    Conventions of the embedding.
    - A JavaScript [Date] is the integer number of milliseconds since the
      epoch ([Z]); the ISO strings of the remote API ([created_at],
      [updated_at]) are taken as already parsed, so [new Date(s)] is the
      identity.  Day counts and thresholds are integers ([Z]).
    - An [async] function is a computation in the monad [M] below: it
      threads the state of the process (client, resolver cache, requests
      issued so far, and for the processor the summary objects) and either
      returns or throws.
      [await f(...)] is monadic bind.  The one call of the sources that is
      not awaited is modelled by a suspended task, see [Processor].
    - Logger calls have no effect on any value and are left out. *)

From Stdlib Require Import ZArith Lia Sorted.
From stdpp Require Import base strings list gmap pretty.

Open Scope string_scope.
Open Scope Z_scope.
Open Scope list_scope.

(** ** JavaScript helpers *)

Module Js.

(** [s.includes(needle)] *)
Fixpoint includes (needle s : string) : bool :=
  String.prefix needle s ||
  match s with
  | EmptyString => false
  | String _ s' => includes needle s'
  end.

(** Truthiness of a [string | null | undefined] value: the empty string is
    falsy as well. *)
Definition truthy (o : option string) : bool :=
  match o with
  | Some s => negb (String.eqb s "")
  | None => false
  end.

(** [xs.join(sep)] *)
Fixpoint join (sep : string) (xs : list string) : string :=
  match xs with
  | [] => ""
  | [x] => x
  | x :: rest => x +:+ sep +:+ join sep rest
  end.

(** Template interpolation of an integer number. *)
Definition num (z : Z) : string := pretty z.

End Js.

(** ** types.ts *)

Module Types.

Inductive SEPState := proposal | draft | in_review | accepted | final | dormant.

#[global] Instance SEPState_eq_dec : EqDecision SEPState.
Proof. solve_decision. Defined.

(** The label string of a state. *)
Definition label (s : SEPState) : string :=
  match s with
  | proposal => "proposal"
  | draft => "draft"
  | in_review => "in-review"
  | accepted => "accepted"
  | final => "final"
  | dormant => "dormant"
  end.

Inductive SEPItemType := type_pr | type_issue.

Record SEPItem := {
  sep_id : Z;
  sep_number : Z;
  sep_title : string;
  sep_type : SEPItemType;
  sep_state : option SEPState;
  sep_labels : list string;
  sep_author : string;
  sep_assignees : list string;
  sep_createdAt : Z;
  sep_updatedAt : Z;
  sep_url : string;
  sep_isClosed : bool
}.

Inductive PingTarget := target_author | target_sponsor | target_maintainer.

Record StaleAnalysis := {
  sa_item : SEPItem;
  sa_daysSinceActivity : Z;
  sa_shouldPing : bool;
  sa_shouldMarkDormant : bool;
  sa_shouldClose : bool;
  sa_pingTarget : option PingTarget;
  sa_reason : option string
}.

Inductive ActionType :=
  | Transition | PingAuthor | PingSponsor | PingMaintainer
  | NeedsSponsor | MarkDormant | Close.

Record SEPAction := {
  act_type : ActionType;
  act_item : SEPItem;
  act_targetUser : option string;
  act_fromState : option SEPState;
  act_toState : option SEPState;
  act_reason : string;
  act_dryRun : bool
}.

Record ActionResult := {
  res_action : SEPAction;
  res_success : bool;
  res_error : option string;
  res_commentUrl : option string
}.

Definition BOT_COMMENT_MARKER : string := "<!-- sep-automation-bot -->".

End Types.
Export Types.

(** ** rules.ts *)

Module Rules.

Definition STATE_TRANSITIONS (s : SEPState) : list SEPState :=
  match s with
  | proposal => [draft; dormant]
  | draft => [in_review; dormant]
  | in_review => [accepted; draft; dormant]
  | accepted => [final; dormant]
  | final => []
  | dormant => [proposal; draft]
  end.

Definition STATE_LABELS : list SEPState :=
  [proposal; draft; in_review; accepted; final; dormant].

Record StalenessRule := {
  rule_state : SEPState;
  pingAfterDays : Z;
  dormantAfterDays : option Z;
  rule_pingTarget : PingTarget;
  closeOnDormant : option bool
}.

Definition STALENESS_RULES : list StalenessRule :=
  [ {| rule_state := proposal; pingAfterDays := 90; dormantAfterDays := Some 180;
       rule_pingTarget := target_author; closeOnDormant := Some true |};
    {| rule_state := draft; pingAfterDays := 90; dormantAfterDays := None;
       rule_pingTarget := target_sponsor; closeOnDormant := None |};
    {| rule_state := accepted; pingAfterDays := 30; dormantAfterDays := None;
       rule_pingTarget := target_author; closeOnDormant := None |} ].

Definition MAINTAINER_INACTIVITY_DAYS : Z := 14.
Definition PING_COOLDOWN_DAYS : Z := 14.

(** [STATE_LABELS.includes(x)] for a state [x]. *)
Definition includes_state (xs : list SEPState) (x : SEPState) : bool :=
  existsb (fun y => bool_decide (y = x)) xs.

(** [isStateLabel(label)]: the state whose label the string is, if any
    (the type guard of the source, with the narrowed value). *)
Definition isStateLabel (l : string) : option SEPState :=
  List.find (fun s => String.eqb (label s) l) STATE_LABELS.

Fixpoint extractState (labels : list string) : option SEPState :=
  match labels with
  | [] => None
  | l :: rest =>
      match isStateLabel l with
      | Some s => Some s
      | None => extractState rest
      end
  end.

Definition isValidTransition (fromState : option SEPState) (toState : SEPState) : bool :=
  match fromState with
  | None => true
  | Some s => includes_state (STATE_TRANSITIONS s) toState
  end.

Definition getStalenessRule (s : SEPState) : option StalenessRule :=
  List.find (fun r => bool_decide (rule_state r = s)) STALENESS_RULES.

End Rules.
Export Rules.

(** ** utils/dates.ts *)

Module Dates.

Definition MS_PER_DAY : Z := 24 * 60 * 60 * 1000.

(** [Math.floor((date2.getTime() - date1.getTime()) / MS_PER_DAY)] in
    exact arithmetic; [Z.div] rounds towards minus infinity for a positive
    divisor.  This is the value the runtime computes for two times that
    lie at most [2 ^ 53] milliseconds (some 285 000 years) apart; on the
    numbers of the runtime the function is [daysBetweenDouble] below,
    which differs beyond that distance. *)
Definition daysBetween (date1 date2 : Z) : Z := (date2 - date1) / MS_PER_DAY.

(** *** The arithmetic of the runtime

    The numbers of the runtime are IEEE 754 doubles: [getTime()] gives an
    integer, the difference and the quotient are each rounded to the
    nearest double, to the even one of two, and [Math.floor] is exact.  A
    double that is not zero is [m * 2 ^ e] for an integer [m] with
    [2 ^ 52 <= |m| <= 2 ^ 53]; zero is [(0, 0)].  The exponents that can
    occur here are far from both ends of the range of a double, so that
    overflow and subnormal numbers are left out. *)
Definition Double : Type := Z * Z.

(** The double as a fraction with a positive denominator. *)
Definition toFraction (x : Double) : Z * Z :=
  let (m, e) := x in
  if 0 <=? e then (m * 2 ^ e, 1) else (m, 2 ^ (- e)).

(** The integer nearest to [n / d], the even one of two, for [0 < d]. *)
Definition nearestEven (n d : Z) : Z :=
  let q := n / d in
  let r := n mod d in
  if 2 * r <? d then q
  else if d <? 2 * r then q + 1
  else if Z.even q then q else q + 1.

(** The [k] with [2 ^ k <= n / d < 2 ^ (k + 1)], for [0 < n] and [0 < d]. *)
Definition binade (n d : Z) : Z :=
  if d <=? n then Z.log2 (n / d) else - Z.log2_up ((d + n - 1) / n).

(** The double nearest to [n / d], for [0 < d]. *)
Definition roundToDouble (n d : Z) : Double :=
  if n =? 0 then (0, 0)
  else
    let e := binade (Z.abs n) d - 52 in
    (if 0 <=? e then nearestEven n (d * 2 ^ e) else nearestEven (n * 2 ^ (- e)) d, e).

(** [a - b] on two integers that are doubles. *)
Definition doubleSub (a b : Z) : Double := roundToDouble (a - b) 1.

(** [x / d] for a positive integer [d] that is a double. *)
Definition doubleDiv (x : Double) (d : Z) : Double :=
  let (n, c) := toFraction x in roundToDouble n (c * d).

(** [Math.floor(x)] *)
Definition doubleFloor (x : Double) : Z :=
  let (n, c) := toFraction x in n / c.

Definition daysBetweenDouble (date1 date2 : Z) : Z :=
  doubleFloor (doubleDiv (doubleSub date2 date1) MS_PER_DAY).

End Dates.
Export Dates.

(** ** utils/errors.ts *)

Module Errors.

(** What a [catch] clause can receive. *)
Inductive JsError :=
  | RequestError (status : Z) (message : string)  (* an Error carrying an HTTP status *)
  | PlainError (message : string)                 (* new Error(message) *)
  | NonError (shown : string).                    (* a thrown value that is no Error *)

Definition getErrorMessage (e : JsError) : string :=
  match e with
  | RequestError _ m => m
  | PlainError m => m
  | NonError _ => "Unknown error"
  end.

Definition isHttpError (e : JsError) (status : Z) : bool :=
  match e with
  | RequestError st _ => st =? status
  | PlainError _ => false
  | NonError _ => false
  end.

End Errors.
Export Errors.

(** ** config.ts *)

Module Config.

Record Config := {
  githubToken : option string;
  appId : option string;
  appPrivateKey : option string;
  targetOwner : string;
  targetRepo : string;
  maintainersTeam : string;
  proposalPingDays : Z;
  proposalDormantDays : Z;
  draftPingDays : Z;
  acceptedPingDays : Z;
  maintainerInactivityDays : Z;
  pingCooldownDays : Z;
  dryRun : bool;
  discordWebhookUrl : option string
}.

Definition proposalRule := getStalenessRule proposal.
Definition draftRule := getStalenessRule draft.
Definition acceptedRule := getStalenessRule accepted.

(** The record [loadConfig()] returns in an environment that sets the
    authentication variables and [DRY_RUN] only: every threshold takes its
    default from the rules table. *)
Definition fromEnv (token app key : option string) (dry : bool) : Config :=
  {| githubToken := token;
     appId := app;
     appPrivateKey := key;
     targetOwner := "modelcontextprotocol";
     targetRepo := "modelcontextprotocol";
     maintainersTeam := "core-maintainers";
     proposalPingDays := default 90 (pingAfterDays <$> proposalRule);
     proposalDormantDays := default 180 (proposalRule ≫= dormantAfterDays);
     draftPingDays := default 90 (pingAfterDays <$> draftRule);
     acceptedPingDays := default 30 (pingAfterDays <$> acceptedRule);
     maintainerInactivityDays := MAINTAINER_INACTIVITY_DAYS;
     pingCooldownDays := PING_COOLDOWN_DAYS;
     dryRun := dry;
     discordWebhookUrl := None |}.

(** [loadConfig()]: [None] stands for the error thrown when neither a
    token nor both application credentials are set. *)
Definition loadConfig (token app key : option string) (dry : bool) : option Config :=
  if negb (Js.truthy token) && (negb (Js.truthy app) || negb (Js.truthy key))
  then None
  else Some (fromEnv token app key dry).

End Config.
Export Config.

(** ** github/types.ts *)

Module GitHubTypes.

Record GitHubIssue := {
  gi_id : Z;
  gi_number : Z;
  gi_title : string;
  gi_closed : bool;                    (* state === 'closed' *)
  gi_labels : list string;             (* the names of the labels *)
  gi_user : option string;             (* user?.login *)
  gi_assignees : list string;          (* the logins of the assignees *)
  gi_created_at : Z;
  gi_updated_at : Z;
  gi_html_url : string;
  gi_pull_request : option string
}.

Record GitHubComment := {
  gc_id : Z;
  gc_body : string;
  gc_user : option string;
  gc_created_at : Z;
  gc_updated_at : Z
}.

Record GitHubEvent := {
  ge_id : Z;
  ge_event : string;
  ge_actor : option string;
  ge_created_at : Z;
  ge_assignee : option string
}.

Inductive MembershipState := active | pending.
Inductive MembershipRole := role_member | role_maintainer.

Record GitHubTeamMembership := {
  gm_state : MembershipState;
  gm_role : MembershipRole
}.

End GitHubTypes.
Export GitHubTypes.

(** ** processor.ts: the summary rows *)

Module Summary.

Record TransitionRow := {
  tr_item : SEPItem;
  tr_fromState : option SEPState;
  tr_toState : SEPState;
  tr_sponsor : string
}.

Record PingRow := {
  pg_item : SEPItem;
  pg_pingTarget : PingTarget;
  pg_targetUser : string;
  pg_daysSinceActivity : Z
}.

Record NeedsSponsorRow := {
  ns_item : SEPItem;
  ns_daysSinceActivity : Z
}.

Record DormantRow := {
  dm_item : SEPItem;
  dm_daysSinceActivity : Z;
  dm_wasClosed : bool
}.

Record SummaryData := {
  transitions : list TransitionRow;
  pings : list PingRow;
  needsSponsor : list NeedsSponsorRow;
  dormantRows : list DormantRow          (* the field [dormant] *)
}.

Definition emptySummary : SummaryData :=
  {| transitions := []; pings := []; needsSponsor := []; dormantRows := [] |}.

Definition push_transition (r : TransitionRow) (s : SummaryData) : SummaryData :=
  {| transitions := transitions s ++ [r]; pings := pings s;
     needsSponsor := needsSponsor s; dormantRows := dormantRows s |}.

Definition push_ping (r : PingRow) (s : SummaryData) : SummaryData :=
  {| transitions := transitions s; pings := pings s ++ [r];
     needsSponsor := needsSponsor s; dormantRows := dormantRows s |}.

Definition push_needsSponsor (r : NeedsSponsorRow) (s : SummaryData) : SummaryData :=
  {| transitions := transitions s; pings := pings s;
     needsSponsor := needsSponsor s ++ [r]; dormantRows := dormantRows s |}.

Definition push_dormant (r : DormantRow) (s : SummaryData) : SummaryData :=
  {| transitions := transitions s; pings := pings s;
     needsSponsor := needsSponsor s; dormantRows := dormantRows s ++ [r] |}.

(** The number of rows of a summary object. *)
Definition rows (s : SummaryData) : nat :=
  (length (transitions s) + length (pings s) +
   length (needsSponsor s) + length (dormantRows s))%nat.

End Summary.
Export Summary.

(** ** The state of the process and the monad of asynchronous functions *)

Module Runtime.

(** A request sent to the remote API.  A paginated listing is one request. *)
Inductive Call :=
  | GetRepoInstallation
  | SearchIssues (q : string)
  | ListForRepo (lbl : string)
  | ListComments (issue_number : Z)
  | ListEvents (issue_number : Z)
  | CreateComment (issue_number : Z) (body : string)
  | AddLabels (issue_number : Z) (lbls : list string)
  | RemoveLabel (issue_number : Z) (name : string)
  | CloseIssue (issue_number : Z)               (* issues.update, state: 'closed' *)
  | GetMembership (org team_slug username : string)
  | ListMembers (org team_slug : string)
  | GetIssue (issue_number : Z).

(** The requests that change the remote repository. *)
Definition isMutation (c : Call) : bool :=
  match c with
  | CreateComment _ _ | AddLabels _ _ | RemoveLabel _ _ | CloseIssue _ => true
  | _ => false
  end.

Inductive Result (A : Type) :=
  | Ok (a : A)
  | Throw (e : JsError).
Arguments Ok {A} a.
Arguments Throw {A} e.

(** The remote API and the wall clock, as the process observes them: what
    a request returns, or the error it raises, may depend on everything
    requested before (the first argument, oldest request first). *)
Record Remote := {
  on_getRepoInstallation : list Call -> Result Z;
  on_searchIssues : list Call -> string -> Result (list GitHubIssue);
  on_listForRepo : list Call -> string -> Result (list GitHubIssue);
  on_listComments : list Call -> Z -> Result (list GitHubComment);
  on_listEvents : list Call -> Z -> Result (list GitHubEvent);
  on_createComment : list Call -> Z -> string -> Result string;
  on_addLabels : list Call -> Z -> list string -> Result unit;
  on_removeLabel : list Call -> Z -> string -> Result unit;
  on_closeIssue : list Call -> Z -> Result unit;
  on_getMembership : list Call -> string -> string -> string -> Result GitHubTeamMembership;
  on_listMembers : list Call -> string -> string -> Result (list string);
  on_getIssue : list Call -> Z -> Result GitHubIssue;
  clock : list Call -> Z                    (* new Date() *)
}.

(** A reference to a [SummaryData] object of the heap. *)
Definition Ref := nat.

(** The rest of a call that was started and not awaited: what remains of
    [updateSummaryFromStaleness(result, sep, summary)] after its first
    [await], with the value of [now] its call of [analyze] had read. *)
Inductive Task :=
  | UpdateSummary (result : ActionResult) (sep : SEPItem) (summary : Ref) (now : Z).

Record World := {
  remote : Remote;
  calls : list Call;                      (* requests issued, oldest first *)
  initialized : bool;                     (* GitHubClient.initialized *)
  maintainerSet : option (gset string);   (* MaintainerResolver.maintainerSet *)
  loadAttempted : bool                    (* MaintainerResolver.loadAttempted *)
}.

(** What the processor has on top: the summary objects it created and the
    promises nobody awaits.  When such a promise settles is a matter of
    timing between the process and the remote: [turns] says, for each
    point at which the main flow waits, whether the event loop gets to the
    pending promises there.  A promise nobody awaits that is rejected is
    an unhandled rejection, for which the program installs no handler:
    the runtime (Node.js from version 15 on) ends the process, and
    [unhandled] holds the error. *)
Record Run := {
  world : World;
  heap : list SummaryData;
  floating : list Task;
  turns : list bool;
  unhandled : option JsError
}.

(** An asynchronous function over a state [S]. *)
Definition ST (S A : Type) : Type := S -> Result A * S.

(** The client, the resolver, the analyzer and the handlers. *)
Definition M (A : Type) : Type := ST World A.

(** The processor. *)
Definition Proc (A : Type) : Type := ST Run A.

Definition ret {S A} (a : A) : ST S A := fun w => (Ok a, w).

Definition throw {S A} (e : JsError) : ST S A := fun w => (Throw e, w).

Definition bind {S A B} (m : ST S A) (k : A -> ST S B) : ST S B :=
  fun w =>
    match m w with
    | (Ok a, w') => k a w'
    | (Throw e, w') => (Throw e, w')
    end.

(** [try { m } catch (error) { h(error) }]: the effects of [m] up to the
    throw stay. *)
Definition try_catch {S A} (m : ST S A) (h : JsError -> ST S A) : ST S A :=
  fun w =>
    match m w with
    | (Ok a, w') => (Ok a, w')
    | (Throw e, w') => h e w'
    end.

(** [try { m } catch (error) { h(error) }] around code that may be ended
    by an unhandled rejection: once the runtime has ended the process, no
    handler runs any more. *)
Definition try_running {A} (m : Proc A) (h : JsError -> Proc A) : Proc A :=
  fun st =>
    match m st with
    | (Ok a, st') => (Ok a, st')
    | (Throw e, st') =>
        match unhandled st' with
        | Some _ => (Throw e, st')
        | None => h e st'
        end
    end.

Notation "x <- m ;; k" := (bind m (fun x => k))
  (at level 100, m at next level, right associativity).
Notation "m ;;; k" := (bind m (fun _ => k))
  (at level 100, right associativity).

Definition gets {S A} (f : S -> A) : ST S A := fun w => (Ok (f w), w).
Definition modify {S} (f : S -> S) : ST S unit := fun w => (Ok tt, f w).

(** A call from the processor into one of its components. *)
Definition lift {A} (m : M A) : Proc A :=
  fun st =>
    let (r, w') := m (world st) in
    (r, {| world := w'; heap := heap st; floating := floating st;
           turns := turns st; unhandled := unhandled st |}).

Definition set_calls (cs : list Call) (w : World) : World :=
  {| remote := remote w; calls := cs; initialized := initialized w;
     maintainerSet := maintainerSet w; loadAttempted := loadAttempted w |}.

Definition set_initialized (b : bool) (w : World) : World :=
  {| remote := remote w; calls := calls w; initialized := b;
     maintainerSet := maintainerSet w; loadAttempted := loadAttempted w |}.

Definition set_maintainerSet (s : option (gset string)) (w : World) : World :=
  {| remote := remote w; calls := calls w; initialized := initialized w;
     maintainerSet := s; loadAttempted := loadAttempted w |}.

Definition set_loadAttempted (b : bool) (w : World) : World :=
  {| remote := remote w; calls := calls w; initialized := initialized w;
     maintainerSet := maintainerSet w; loadAttempted := b |}.

Definition set_heap (h : list SummaryData) (st : Run) : Run :=
  {| world := world st; heap := h; floating := floating st;
     turns := turns st; unhandled := unhandled st |}.

Definition set_floating (ts : list Task) (st : Run) : Run :=
  {| world := world st; heap := heap st; floating := ts;
     turns := turns st; unhandled := unhandled st |}.

Definition set_turns (ts : list bool) (st : Run) : Run :=
  {| world := world st; heap := heap st; floating := floating st;
     turns := ts; unhandled := unhandled st |}.

Definition set_unhandled (e : option JsError) (st : Run) : Run :=
  {| world := world st; heap := heap st; floating := floating st;
     turns := turns st; unhandled := e |}.

(** The state after request [c] has been sent. *)
Definition sent (c : Call) (w : World) : World := set_calls (calls w ++ [c]) w.

(** Send request [c]; the remote answers from the history before it. *)
Definition request {A} (c : Call) (reply : Remote -> list Call -> Result A) : M A :=
  fun w => (reply (remote w) (calls w), sent c w).

(** [new Date()] *)
Definition now : M Z := fun w => (Ok (clock (remote w) (calls w)), w).

(** [{ transitions: [], pings: [], needsSponsor: [], dormant: [] }]: a new
    object. *)
Definition newSummary : Proc Ref :=
  fun st => (Ok (length (heap st)), set_heap (heap st ++ [emptySummary]) st).

(** [summary.<field>.push(row)] on the object behind a reference. *)
Definition updateSummary (r : Ref) (f : SummaryData -> SummaryData) : Proc unit :=
  modify (fun st => set_heap (alter f r (heap st)) st).

(** The object behind a reference, as a reader sees it in state [st]. *)
Definition deref (st : Run) (r : Ref) : SummaryData :=
  default emptySummary (heap st !! r).

(** The requests sent between two states. *)
Definition issued (before after : World) : list Call :=
  drop (length (calls before)) (calls after).

End Runtime.
Export Runtime.

(** ** github/client.ts *)

Module GitHubClient.
Section Client.

Variable config : Config.

(** The field initialiser and the constructor: a token authenticates at
    once, application credentials on first use. *)
Definition constructed : bool := Js.truthy (githubToken config).

Definition ensureInitialized : M unit :=
  init <- gets initialized ;;
  if init then ret tt
  else if Js.truthy (appId config) && Js.truthy (appPrivateKey config) then
    (_ <- request GetRepoInstallation on_getRepoInstallation ;;
     modify (set_initialized true))
  else throw (PlainError "No authentication configured").

Definition searchIssues (query : string) : M (list GitHubIssue) :=
  ensureInitialized ;;;
  let fullQuery := "repo:" +:+ targetOwner config +:+ "/" +:+ targetRepo config
                   +:+ " " +:+ query in
  request (SearchIssues fullQuery) (fun r h => on_searchIssues r h fullQuery).

Definition getIssuesWithLabel (lbl : string) : M (list GitHubIssue) :=
  ensureInitialized ;;;
  request (ListForRepo lbl) (fun r h => on_listForRepo r h lbl).

Definition getComments (issueNumber : Z) : M (list GitHubComment) :=
  ensureInitialized ;;;
  request (ListComments issueNumber) (fun r h => on_listComments r h issueNumber).

Definition getEvents (issueNumber : Z) : M (list GitHubEvent) :=
  ensureInitialized ;;;
  request (ListEvents issueNumber) (fun r h => on_listEvents r h issueNumber).

(** Returns the [url] of the comment created. *)
Definition addComment (issueNumber : Z) (body : string) : M string :=
  ensureInitialized ;;;
  request (CreateComment issueNumber body) (fun r h => on_createComment r h issueNumber body).

Definition addLabels (issueNumber : Z) (lbls : list string) : M unit :=
  ensureInitialized ;;;
  request (AddLabels issueNumber lbls) (fun r h => on_addLabels r h issueNumber lbls).

Definition removeLabel (issueNumber : Z) (lbl : string) : M unit :=
  ensureInitialized ;;;
  try_catch
    (request (RemoveLabel issueNumber lbl) (fun r h => on_removeLabel r h issueNumber lbl))
    (fun error =>
       (* Ignore if label doesn't exist *)
       if isHttpError error 404 then ret tt else throw error).

Definition closeIssue (issueNumber : Z) : M unit :=
  ensureInitialized ;;;
  request (CloseIssue issueNumber) (fun r h => on_closeIssue r h issueNumber).

Definition isTeamMember (org teamSlug username : string) : M bool :=
  ensureInitialized ;;;
  try_catch
    (membership <- request (GetMembership org teamSlug username)
                     (fun r h => on_getMembership r h org teamSlug username) ;;
     ret (match gm_state membership with active => true | pending => false end))
    (fun error =>
       (* 404 means not a member *)
       if isHttpError error 404 then ret false else throw error).

Definition getTeamMembers (org teamSlug : string) : M (list string) :=
  ensureInitialized ;;;
  request (ListMembers org teamSlug) (fun r h => on_listMembers r h org teamSlug).

Definition getIssue (issueNumber : Z) : M GitHubIssue :=
  ensureInitialized ;;;
  request (GetIssue issueNumber) (fun r h => on_getIssue r h issueNumber).

End Client.
End GitHubClient.
Export GitHubClient.

(** ** maintainers/resolver.ts *)

Module MaintainerResolver.

Definition SPONSOR_TEAMS : list string :=
  [ "core-maintainers"; "moderators"; "working-groups"; "interest-groups";
    "sdk-maintainers"; "inspector-maintainers"; "mcpb-maintainers";
    "docs-maintainers"; "lead-maintainers" ].

Definition FALLBACK_SPONSORS : gset string := list_to_set
  [ "jspahrsummers"; "pcarleton"; "CaitieM20"; "pwwpche"; "kurtisvg";
    "localden"; "nickcoai"; "000-000-000-000-000"; "dsp-ant"; "bhosmer-ant";
    "jonathanhefner"; "cliffhall"; "evalstate"; "tadasant"; "maheshmurag";
    "olaservo"; "jerome3o-anthropic";
    "toby"; "aaronpk"; "felixweinberger"; "domdomegg"; "rdimitrov";
    "an-dustin"; "LucaButBoring"; "D-McAdams"; "jenn-newton"; "og-ant"; "petery-ant";
    "sambhav"; "PederHP";
    "mattt"; "koic"; "michaelneale"; "fabpot"; "atesgoral"; "halter73";
    "nicolas-grekas"; "markpollack"; "ochafik"; "stallent"; "ignatov";
    "alexhancock"; "KKonstantinov"; "ansaba"; "pronskiy"; "Nyholm";
    "tzolov"; "kpavlov"; "topherbullock"; "movetz"; "chemicL"; "stephentoub";
    "eiriktsarpalis"; "chr-hertel"; "maciej-kisiel"; "e5l"; "jamadeo";
    "felixrieseberg"; "MarshallOfSound"; "asklar"; "joan-anthropic";
    "ihrpr"; "a-akimov" ].

Section Resolver.

Variable config : Config.

(** The loop over the sponsor teams: a team that cannot be listed is
    skipped. *)
Fixpoint loadTeams (teams : list string) (allMembers : gset string) : M (gset string) :=
  match teams with
  | [] => ret allMembers
  | team :: rest =>
      acc <- try_catch
               (members <- getTeamMembers config (targetOwner config) team ;;
                ret (allMembers ∪ list_to_set members))
               (fun _ => ret allMembers) ;;
      loadTeams rest acc
  end.

Definition ensureSponsorsLoaded : M (gset string) :=
  cached <- gets maintainerSet ;;
  match cached with
  | Some s => ret s
  | None =>
      attempted <- gets loadAttempted ;;
      if attempted then ret FALLBACK_SPONSORS
      else
        modify (set_loadAttempted true) ;;;
        try_catch
          (allMembers <- loadTeams SPONSOR_TEAMS ∅ ;;
           if bool_decide (0 < size allMembers)%nat then
             (modify (set_maintainerSet (Some allMembers)) ;;; ret allMembers)
           else throw (PlainError "No team members loaded from any team"))
          (fun _ =>
             modify (set_maintainerSet (Some FALLBACK_SPONSORS)) ;;;
             ret FALLBACK_SPONSORS)
  end.

Definition canSponsor (username : string) : M bool :=
  sponsors <- ensureSponsorsLoaded ;;
  ret (bool_decide (username ∈ sponsors)).

Definition isCoreMaintainer (username : string) : M bool := canSponsor username.

Fixpoint getSponsor (assignees : list string) : M (option string) :=
  match assignees with
  | [] => ret None
  | assignee :: rest =>
      ok <- canSponsor assignee ;;
      if ok then ret (Some assignee) else getSponsor rest
  end.

Definition clearCache : M unit :=
  modify (set_maintainerSet None) ;;; modify (set_loadAttempted false).

End Resolver.
End MaintainerResolver.
Export MaintainerResolver.

(** ** actions/comment.ts *)

Module Comment.

(** A [SEPStateOrNone] interpolated in a template. *)
Definition stateOrNone (s : option SEPState) : string :=
  match s with
  | Some st => label st
  | None => "none"
  end.

Definition footer : string :=
"---
*This is an automated message from the SEP lifecycle bot.*".

Definition createTransitionComment (item : SEPItem) (fromState toState : option SEPState)
    (sponsor : string) : string :=
  BOT_COMMENT_MARKER +:+ "

## State Transition: " +:+ stateOrNone fromState +:+ " → " +:+ stateOrNone toState +:+ "

This SEP has been transitioned from **" +:+ stateOrNone fromState +:+ "** to **"
  +:+ stateOrNone toState +:+ "**.

" +:+ (if bool_decide (toState = Some draft)
       then "@" +:+ sponsor +:+ " has been assigned as the sponsor for this SEP."
       else "") +:+ "

" +:+ footer.

Definition createAuthorPingComment (item : SEPItem) (daysSinceActivity : Z) : string :=
  BOT_COMMENT_MARKER +:+ "

## Friendly Reminder

Hi @" +:+ sep_author item +:+ "!

This SEP proposal has been inactive for **" +:+ Js.num daysSinceActivity +:+ " days**.

We wanted to check in:
- Are you still working on this proposal?
- Is there anything blocking progress?
- Do you need help finding a sponsor?

If this proposal is no longer being pursued, please let us know and we can close it. Otherwise, any update on the current status would be appreciated!

" +:+ footer.

Definition createSponsorPingComment (item : SEPItem) (sponsor : string)
    (daysSinceActivity : Z) : string :=
  BOT_COMMENT_MARKER +:+ "

## Sponsor Check-in

Hi @" +:+ sponsor +:+ "!

This SEP draft has been inactive for **" +:+ Js.num daysSinceActivity +:+ " days**.

As the sponsor for this SEP, we wanted to check:
- Is there ongoing work on this draft?
- Are there any blockers we can help with?
- Should this SEP be moved to a different state?

Please provide an update when you have a chance.

" +:+ footer.

Definition createMaintainerPingComment (item : SEPItem) (maintainer : string)
    (daysSinceActivity : Z) : string :=
  BOT_COMMENT_MARKER +:+ "

## Maintainer Activity Check

Hi @" +:+ maintainer +:+ "!

You're assigned to this SEP but there hasn't been any activity from you in **"
  +:+ Js.num daysSinceActivity +:+ " days**.

Please provide an update on:
- Current status of your review/work
- Any blockers or concerns
- Expected timeline for next steps

If you're no longer able to sponsor this SEP, please let us know so we can find another maintainer.

" +:+ footer.

Definition createDormantComment (item : SEPItem) (daysSinceActivity : Z) : string :=
  BOT_COMMENT_MARKER +:+ "

## Marking as Dormant

This SEP proposal has been inactive for **" +:+ Js.num daysSinceActivity
  +:+ " days** and is being marked as **dormant**.

This SEP is being closed, but it can be reopened if work resumes. To reactivate:
1. Comment on this issue/PR with an update
2. A maintainer can remove the `dormant` label and reopen

Thank you for your contribution!

" +:+ footer.

Definition createNeedsSponsorComment (item : SEPItem) (daysSinceActivity : Z) : string :=
  BOT_COMMENT_MARKER +:+ "

## Core Maintainer Sponsor Needed

This SEP draft has been inactive for **" +:+ Js.num daysSinceActivity
  +:+ " days** and doesn't have a core maintainer sponsor assigned.

For a SEP to progress from draft, it needs a sponsor from the core maintainers team who can:
- Guide the proposal through the review process
- Help address feedback and blockers
- Champion the SEP in maintainer discussions

**Current assignees**: "
  +:+ (match sep_assignees item with
       | [] => "None"
       | _ => Js.join ", " (map (fun a => "@" +:+ a) (sep_assignees item))
       end) +:+ "

If you're a core maintainer interested in sponsoring this SEP, please assign yourself. If you're the author, consider reaching out to the maintainers team to find a sponsor.

" +:+ footer.

Definition createAcceptedReminderComment (item : SEPItem) (daysSinceActivity : Z) : string :=
  BOT_COMMENT_MARKER +:+ "

## Reference Implementation Reminder

Hi @" +:+ sep_author item +:+ "!

This SEP was accepted **" +:+ Js.num daysSinceActivity +:+ " days ago**.

A reminder that accepted SEPs should have a reference implementation to move to **final** status.

- Is there a reference implementation in progress?
- Do you need help or guidance with the implementation?

Let us know the current status!

" +:+ footer.

End Comment.
Export Comment.

(** ** sep/analyzer.ts *)

Module SEPAnalyzer.
Section Analyzer.

Variable config : Config.

Definition noAction (item : SEPItem) (daysSinceActivity : Z) (reason : option string)
    : StaleAnalysis :=
  {| sa_item := item; sa_daysSinceActivity := daysSinceActivity;
     sa_shouldPing := false; sa_shouldMarkDormant := false; sa_shouldClose := false;
     sa_pingTarget := None; sa_reason := reason |}.

Definition analyzeProposal (item : SEPItem) (daysSinceActivity : Z) : StaleAnalysis :=
  (* 180+ days: mark dormant and close *)
  if daysSinceActivity >=? proposalDormantDays config then
    {| sa_item := item; sa_daysSinceActivity := daysSinceActivity;
       sa_shouldPing := false; sa_shouldMarkDormant := true; sa_shouldClose := true;
       sa_pingTarget := None;
       sa_reason := Some ("Proposal inactive for " +:+ Js.num daysSinceActivity
                          +:+ " days (threshold: " +:+ Js.num (proposalDormantDays config)
                          +:+ ")") |}
  (* 90+ days: ping author *)
  else if daysSinceActivity >=? proposalPingDays config then
    {| sa_item := item; sa_daysSinceActivity := daysSinceActivity;
       sa_shouldPing := true; sa_shouldMarkDormant := false; sa_shouldClose := false;
       sa_pingTarget := Some target_author;
       sa_reason := Some ("Proposal inactive for " +:+ Js.num daysSinceActivity
                          +:+ " days (threshold: " +:+ Js.num (proposalPingDays config)
                          +:+ ")") |}
  else noAction item daysSinceActivity None.

Definition analyzeDraft (item : SEPItem) (daysSinceActivity : Z) : StaleAnalysis :=
  (* 90+ days: ping sponsor *)
  if daysSinceActivity >=? draftPingDays config then
    {| sa_item := item; sa_daysSinceActivity := daysSinceActivity;
       sa_shouldPing := true; sa_shouldMarkDormant := false; sa_shouldClose := false;
       sa_pingTarget := Some target_sponsor;
       sa_reason := Some ("Draft inactive for " +:+ Js.num daysSinceActivity
                          +:+ " days (threshold: " +:+ Js.num (draftPingDays config)
                          +:+ ")") |}
  else noAction item daysSinceActivity None.

Definition analyzeAccepted (item : SEPItem) (daysSinceActivity : Z) : StaleAnalysis :=
  (* 30+ days: ping for reference implementation *)
  if daysSinceActivity >=? acceptedPingDays config then
    {| sa_item := item; sa_daysSinceActivity := daysSinceActivity;
       sa_shouldPing := true; sa_shouldMarkDormant := false; sa_shouldClose := false;
       sa_pingTarget := Some target_author;
       sa_reason := Some ("Accepted SEP inactive for " +:+ Js.num daysSinceActivity
                          +:+ " days - awaiting reference implementation") |}
  else noAction item daysSinceActivity None.

(** The loop of [getLastBotPingDate], from the last comment down to the
    first: the creation date of the last comment of the list whose body
    includes the marker. *)
Definition lastBotPing (comments : list GitHubComment) : option Z :=
  gc_created_at <$>
    List.find (fun comment => Js.includes BOT_COMMENT_MARKER (gc_body comment))
              (rev comments).

Definition getLastBotPingDate (issueNumber : Z) : M (option Z) :=
  comments <- getComments config issueNumber ;;
  ret (lastBotPing comments).

(** The verdict of [analyze] once [now] and the last ping date are known. *)
Definition verdict (item : SEPItem) (now : Z) (lastPingDate : option Z) : StaleAnalysis :=
  let daysSinceActivity := daysBetween (sep_updatedAt item) now in
  let byState :=
    match sep_state item with
    | Some proposal => analyzeProposal item daysSinceActivity
    | Some draft => analyzeDraft item daysSinceActivity
    | Some accepted => analyzeAccepted item daysSinceActivity
    | _ => noAction item daysSinceActivity None
    end in
  match lastPingDate with
  | Some d =>
      let daysSincePing := daysBetween d now in
      if daysSincePing <? pingCooldownDays config then
        noAction item daysSinceActivity
          (Some ("Recently pinged " +:+ Js.num daysSincePing +:+ " days ago (cooldown: "
                 +:+ Js.num (pingCooldownDays config) +:+ " days)"))
      else byState
  | None => byState
  end.

(** [analyze] after it has read the clock. *)
Definition analyzeAt (nowDate : Z) (item : SEPItem) : M StaleAnalysis :=
  lastPingDate <- getLastBotPingDate (sep_number item) ;;
  ret (verdict item nowDate lastPingDate).

Definition analyze (item : SEPItem) : M StaleAnalysis :=
  nowDate <- now ;;
  analyzeAt nowDate item.

(** The two loops of [checkMaintainerActivity]: the latest date among the
    entries of the user, starting from [lastActivity]. *)
Definition latest (lastActivity : option Z) (dates : list Z) : option Z :=
  fold_left
    (fun acc d =>
       match acc with
       | None => Some d
       | Some l => if l <? d then Some d else Some l
       end)
    dates lastActivity.

Definition checkMaintainerActivity (item : SEPItem) (maintainerUsername : string)
    : M (Z * bool) :=
  events <- getEvents config (sep_number item) ;;
  comments <- getComments config (sep_number item) ;;
  let byUser (who : option string) := bool_decide (who = Some maintainerUsername) in
  let afterEvents :=
    latest None (map ge_created_at (List.filter (fun e => byUser (ge_actor e)) events)) in
  let afterComments :=
    latest afterEvents
      (map gc_created_at (List.filter (fun c => byUser (gc_user c)) comments)) in
  let lastActivity := default (sep_updatedAt item) afterComments in
  nowDate <- now ;;
  let daysSinceActivityValue := daysBetween lastActivity nowDate in
  ret (daysSinceActivityValue,
       daysSinceActivityValue >=? maintainerInactivityDays config).

End Analyzer.
End SEPAnalyzer.
Export SEPAnalyzer.

(** ** sep/detector.ts *)

Module SEPDetector.

Definition UNKNOWN_AUTHOR : string := "unknown".

(** A JavaScript [Map<number, V>]: the entries in insertion order. *)
Definition JsMap (V : Type) := list (Z * V).

(** [map.set(key, value)]: the value of a key already present is replaced
    where it stands, a new key goes last. *)
Fixpoint map_set {V} (key : Z) (value : V) (m : JsMap V) : JsMap V :=
  match m with
  | [] => [(key, value)]
  | (k, v) :: rest =>
      if k =? key then (k, value) :: rest else (k, v) :: map_set key value rest
  end.

(** [Array.from(map.values())] *)
Definition map_values {V} (m : JsMap V) : list V := map snd m.

Definition toSEPItem (item : GitHubIssue) : SEPItem :=
  let labels := gi_labels item in
  {| sep_id := gi_id item;
     sep_number := gi_number item;
     sep_title := gi_title item;
     sep_type := match gi_pull_request item with Some _ => type_pr | None => type_issue end;
     sep_state := extractState labels;
     sep_labels := labels;
     sep_author := default UNKNOWN_AUTHOR (gi_user item);
     sep_assignees := gi_assignees item;
     sep_createdAt := gi_created_at item;
     sep_updatedAt := gi_updated_at item;
     sep_url := gi_html_url item;
     sep_isClosed := gi_closed item |}.

(** The merge loop of [findAllSEPs]. *)
Definition mergeItems (items : list GitHubIssue) : JsMap GitHubIssue :=
  fold_left (fun allItems item => map_set (gi_number item) item allItems) items [].

Section Detector.

Variable config : Config.

Definition findAllSEPs : M (list SEPItem) :=
  (* Search for items with SEP label *)
  labeledItems <- searchIssues config "label:SEP is:open" ;;
  (* Search for items with SEP in title *)
  titledItems <- searchIssues config "SEP in:title is:open" ;;
  (* Merge and dedupe *)
  let allItems := mergeItems (labeledItems ++ titledItems) in
  ret (map toSEPItem (map_values allItems)).

End Detector.
End SEPDetector.
Export SEPDetector.

(** ** actions/transition.ts *)

Module TransitionHandler.

Definition invalidTransitionMessage (fromState toState : string)
    (validTargets : list SEPState) : string :=
  "Invalid transition: " +:+ fromState +:+ " â†’ " +:+ toState
  +:+ ". Valid targets: " +:+ Js.join ", " (map label validTargets).

Definition validateTransition (fromState : option SEPState) (toState : SEPState)
    : bool * string :=
  if isValidTransition fromState toState then
    (true, match fromState with
           | Some _ => "Valid transition"
           | None => "Initial state assignment"
           end)
  else
    let validTargets := match fromState with
                        | Some s => STATE_TRANSITIONS s
                        | None => []
                        end in
    (false, invalidTransitionMessage
              (match fromState with Some s => label s | None => "null" end)
              (label toState) validTargets).

Section Handler.

Variable config : Config.

Definition executeTransition (item : SEPItem) (toState : SEPState) (sponsor : string)
    (dryRun : bool) : M ActionResult :=
  let fromState := sep_state item in
  let action :=
    {| act_type := Transition; act_item := item;
       act_fromState := fromState; act_toState := Some toState;
       act_targetUser := Some sponsor;
       act_reason := "Transitioning from " +:+ stateOrNone fromState +:+ " to "
                     +:+ label toState;
       act_dryRun := dryRun |} in
  let failed (reason : string) :=
    {| res_action := action; res_success := false;
       res_error := Some reason; res_commentUrl := None |} in
  (* Validate the transition *)
  let validation := match fromState with
                    | Some _ => validateTransition fromState toState
                    | None => (true, "")
                    end in
  if negb (fst validation) then ret (failed (snd validation))
  else if dryRun then
    ret {| res_action := action; res_success := true;
           res_error := None; res_commentUrl := None |}
  else
    try_catch
      ((* Remove old state label if present *)
       match fromState with
       | Some s => removeLabel config (sep_number item) (label s)
       | None => ret tt
       end ;;;
       (* Add new state label *)
       addLabels config (sep_number item) [label toState] ;;;
       (* Post comment *)
       let comment := createTransitionComment item fromState (Some toState) sponsor in
       url <- addComment config (sep_number item) comment ;;
       ret {| res_action := action; res_success := true;
              res_error := None; res_commentUrl := Some url |})
      (fun error => ret (failed (getErrorMessage error))).

End Handler.
End TransitionHandler.
Export TransitionHandler.

(** ** actions/ping.ts *)

Module PingHandler.
Section Handler.

Variable config : Config.

Definition createAction (type : ActionType) (item : SEPItem) (dryRun : bool)
    (reason : string) (targetUser : option string) : SEPAction :=
  {| act_type := type; act_item := item; act_targetUser := targetUser;
     act_fromState := None; act_toState := None;
     act_reason := reason; act_dryRun := dryRun |}.

Definition succeeded (action : SEPAction) (commentUrl : option string) : ActionResult :=
  {| res_action := action; res_success := true;
     res_error := None; res_commentUrl := commentUrl |}.

Definition failed (action : SEPAction) (error : string) : ActionResult :=
  {| res_action := action; res_success := false;
     res_error := Some error; res_commentUrl := None |}.

(** The common tail of the ping functions: nothing in a dry run, else one
    comment, a failure of which is reported in the result. *)
Definition postComment (action : SEPAction) (item : SEPItem) (comment : string)
    (dryRun : bool) : M ActionResult :=
  if dryRun then ret (succeeded action None)
  else
    try_catch
      (url <- addComment config (sep_number item) comment ;;
       ret (succeeded action (Some url)))
      (fun error => ret (failed action (getErrorMessage error))).

Definition pingMaintainerDirectly (item : SEPItem) (maintainer : string)
    (daysSinceActivity : Z) (dryRun : bool) : M ActionResult :=
  let action := createAction PingMaintainer item dryRun
                  ("Maintainer ping after " +:+ Js.num daysSinceActivity
                   +:+ " days of inactivity")
                  (Some maintainer) in
  postComment action item (createMaintainerPingComment item maintainer daysSinceActivity)
    dryRun.

Definition pingAuthor (item : SEPItem) (daysSinceActivity : Z) (dryRun : bool)
    : M ActionResult :=
  let action := createAction PingAuthor item dryRun
                  ("Author ping after " +:+ Js.num daysSinceActivity
                   +:+ " days of inactivity")
                  (Some (sep_author item)) in
  postComment action item
    (if bool_decide (sep_state item = Some accepted)
     then createAcceptedReminderComment item daysSinceActivity
     else createAuthorPingComment item daysSinceActivity)
    dryRun.

Definition postNeedsSponsor (item : SEPItem) (daysSinceActivity : Z) (dryRun : bool)
    : M ActionResult :=
  let action := createAction NeedsSponsor item dryRun
                  ("Draft SEP needs core maintainer sponsor (" +:+ Js.num daysSinceActivity
                   +:+ " days inactive)")
                  None in
  postComment action item (createNeedsSponsorComment item daysSinceActivity) dryRun.

Definition pingSponsor (item : SEPItem) (daysSinceActivity : Z) (dryRun : bool)
    : M ActionResult :=
  found <- getSponsor config (sep_assignees item) ;;
  if negb (Js.truthy found) then
    (* No core maintainer sponsor - post a comment asking for one *)
    postNeedsSponsor item daysSinceActivity dryRun
  else
    let sponsor := default "" found in
    let action := createAction PingSponsor item dryRun
                    ("Sponsor ping after " +:+ Js.num daysSinceActivity
                     +:+ " days of inactivity")
                    (Some sponsor) in
    postComment action item (createSponsorPingComment item sponsor daysSinceActivity)
      dryRun.

Definition pingMaintainer (item : SEPItem) (daysSinceActivity : Z) (dryRun : bool)
    : M ActionResult :=
  found <- getSponsor config (sep_assignees item) ;;
  if negb (Js.truthy found) then
    ret (failed (createAction PingMaintainer item dryRun "No maintainer found" None)
                "No maintainer assigned")
  else pingMaintainerDirectly item (default "" found) daysSinceActivity dryRun.

Definition markDormant (item : SEPItem) (daysSinceActivity : Z) (shouldClose dryRun : bool)
    : M ActionResult :=
  let action := createAction MarkDormant item dryRun
                  ("Marking dormant after " +:+ Js.num daysSinceActivity
                   +:+ " days of inactivity")
                  None in
  (* Validate the transition is allowed *)
  let invalid :=
    match sep_state item with
    | Some s =>
        let validTargets := STATE_TRANSITIONS s in
        if negb (includes_state validTargets dormant)
        then Some (invalidTransitionMessage (label s) "dormant" validTargets)
        else None
    | None => None
    end in
  match invalid with
  | Some error => ret (failed action error)
  | None =>
      if dryRun then ret (succeeded action None)
      else
        try_catch
          ((* Remove current state label first *)
           match sep_state item with
           | Some s =>
               if bool_decide (s <> dormant)
               then removeLabel config (sep_number item) (label s)
               else ret tt
           | None => ret tt
           end ;;;
           (* Add dormant label *)
           addLabels config (sep_number item) ["dormant"] ;;;
           (* Post comment *)
           let comment := createDormantComment item daysSinceActivity in
           url <- addComment config (sep_number item) comment ;;
           (* Close if needed *)
           (if shouldClose then closeIssue config (sep_number item) else ret tt) ;;;
           ret (succeeded action (Some url)))
          (fun error => ret (failed action (getErrorMessage error)))
  end.

Definition executePing (analysis : StaleAnalysis) (dryRun : bool) : M ActionResult :=
  let item := sa_item analysis in
  let daysSinceActivity := sa_daysSinceActivity analysis in
  (* Handle dormant case first *)
  if sa_shouldMarkDormant analysis then
    markDormant item daysSinceActivity (sa_shouldClose analysis) dryRun
  else
    match sa_pingTarget analysis with
    | None =>
        ret (succeeded (createAction PingAuthor item dryRun "No ping target" None) None)
    | Some target_author => pingAuthor item daysSinceActivity dryRun
    | Some target_sponsor => pingSponsor item daysSinceActivity dryRun
    | Some target_maintainer => pingMaintainer item daysSinceActivity dryRun
    end.

End Handler.
End PingHandler.
Export PingHandler.

(** ** processor.ts *)

Module Processor.

Record ProcessResult := {
  results : list ActionResult;
  summaryData : Ref
}.

Section SEPProcessor.

Variable config : Config.

Definition checkAutoTransition (sep : SEPItem) : M (option ActionResult) :=
  if bool_decide (sep_state sep <> Some proposal)
     || bool_decide (length (sep_assignees sep) = 0%nat)
  then ret None
  else
    found <- getSponsor config (sep_assignees sep) ;;
    if negb (Js.truthy found) then ret None
    else
      result <- executeTransition config sep draft (default "" found) (dryRun config) ;;
      ret (Some result).

Definition checkStaleness (sep : SEPItem) : M (option ActionResult) :=
  analysis <- analyze config sep ;;
  if negb (sa_shouldPing analysis) && negb (sa_shouldMarkDormant analysis)
  then ret None
  else
    result <- executePing config analysis (dryRun config) ;;
    ret (Some result).

Fixpoint checkMaintainerAccountability_loop (sep : SEPItem) (assignees : list string)
    : M (list ActionResult) :=
  match assignees with
  | [] => ret []
  | assignee :: rest =>
      (* Only ping core maintainers, not regular assignees *)
      isMaintainer <- isCoreMaintainer config assignee ;;
      if negb isMaintainer then checkMaintainerAccountability_loop sep rest
      else
        activity <- checkMaintainerActivity config sep assignee ;;
        if snd activity then
          result <- pingMaintainerDirectly config sep assignee (fst activity)
                      (dryRun config) ;;
          others <- checkMaintainerAccountability_loop sep rest ;;
          ret (result :: others)
        else checkMaintainerAccountability_loop sep rest
  end.

Definition checkMaintainerAccountability (sep : SEPItem) : M (list ActionResult) :=
  checkMaintainerAccountability_loop sep (sep_assignees sep).

Definition getTargetUser (sep : SEPItem) (pingTarget : PingTarget) : M (option string) :=
  match pingTarget with
  | target_author => ret (Some (sep_author sep))
  | target_sponsor | target_maintainer => getSponsor config (sep_assignees sep)
  end.

(** [updateSummaryFromStaleness] from the point where its call of
    [analyze] has read the clock: all of it that lies behind its first
    [await]. *)
Definition updateSummaryFromStaleness_rest (result : ActionResult) (sep : SEPItem)
    (summary : Ref) (nowDate : Z) : Proc unit :=
  analysis <- lift (analyzeAt config nowDate sep) ;;
  match act_type (res_action result) with
  | NeedsSponsor =>
      updateSummary summary
        (push_needsSponsor {| ns_item := sep;
                              ns_daysSinceActivity := sa_daysSinceActivity analysis |})
  | MarkDormant =>
      updateSummary summary
        (push_dormant {| dm_item := sep;
                         dm_daysSinceActivity := sa_daysSinceActivity analysis;
                         dm_wasClosed := sa_shouldClose analysis |})
  | PingAuthor | PingSponsor | PingMaintainer =>
      match sa_pingTarget analysis with
      | Some pingTarget =>
          targetUser <- lift (getTargetUser sep pingTarget) ;;
          updateSummary summary
            (push_ping {| pg_item := sep;
                          pg_pingTarget := pingTarget;
                          pg_targetUser := default (sep_author sep) targetUser;
                          pg_daysSinceActivity := sa_daysSinceActivity analysis |})
      | None => ret tt
      end
  | Transition | Close => ret tt
  end.

(** The function run to its end, as a caller that awaits it observes it. *)
Definition updateSummaryFromStaleness (result : ActionResult) (sep : SEPItem)
    (summary : Ref) : Proc unit :=
  if negb (res_success result) then ret tt
  else
    nowDate <- lift now ;;
    updateSummaryFromStaleness_rest result sep summary nowDate.

(** The call [this.updateSummaryFromStaleness(...)] of [process], which is
    not awaited: the function runs to its first [await], which lies in
    [analyze] behind the reading of the clock and before any request (the
    client is initialised by then, [checkStaleness] has listed the comments
    already), and the promise is dropped.  What remains runs in a later
    turn of the event loop. *)
Definition updateSummaryFromStaleness_floating (result : ActionResult) (sep : SEPItem)
    (summary : Ref) : Proc unit :=
  if negb (res_success result) then ret tt
  else
    nowDate <- lift now ;;
    modify (fun st =>
              set_floating (floating st ++ [UpdateSummary result sep summary nowDate]) st).

(** One turn of the event loop on a pending task: what remains of the
    call runs to its end.  [Throw e] is the rejection of its promise. *)
Definition settle (t : Task) : Proc unit :=
  match t with
  | UpdateSummary result sep summary nowDate =>
      updateSummaryFromStaleness_rest result sep summary nowDate
  end.

(** The tasks in the order in which they were started, up to the first
    rejection. *)
Fixpoint settleTasks (ts : list Task) : Proc unit :=
  match ts with
  | [] => ret tt
  | t :: rest => settle t ;;; settleTasks rest
  end.

(** The event loop runs every pending task. *)
Definition settleAll : Proc unit :=
  fun st => settleTasks (floating st) (set_floating [] st).

(** A point at which the main flow waits for the remote.  [turns] says
    whether the event loop gets to the pending promises there.  If it does
    and one of them is rejected, nobody handles the rejection, and the
    process ends with that error. *)
Definition yield : Proc unit :=
  fun st =>
    match turns st with
    | [] => (Ok tt, st)
    | taken :: later =>
        let st1 := set_turns later st in
        if taken then
          match settleAll st1 with
          | (Ok _, st2) => (Ok tt, st2)
          | (Throw e, st2) => (Throw e, set_unhandled (Some e) st2)
          end
        else (Ok tt, st1)
    end.

(** [await m] for a call [m] into a component, made while promises may be
    pending.  If the call has sent a request, the main flow has waited for
    the remote, which is when a pending promise can settle; a call that
    sends nothing resumes at once.  The pending promises run as one step,
    placed behind the call. *)
Definition awaiting {A} (m : M A) : Proc A :=
  fun st =>
    let (r, st1) := lift m st in
    if (length (calls (world st1)) =? length (calls (world st)))%nat then (r, st1)
    else
      match yield st1 with
      | (Ok _, st2) => (r, st2)
      | (Throw e, st2) => (Throw e, st2)
      end.

(** The summary rows of the maintainer pings. *)
Fixpoint summarizeMaintainerPings (sep : SEPItem) (summary : Ref)
    (maintainerResults : list ActionResult) : Proc unit :=
  match maintainerResults with
  | [] => ret tt
  | result :: rest =>
      (if res_success result && Js.truthy (act_targetUser (res_action result)) then
         let targetUser := default "" (act_targetUser (res_action result)) in
         activity <- awaiting (checkMaintainerActivity config sep targetUser) ;;
         updateSummary summary
           (push_ping {| pg_item := sep;
                         pg_pingTarget := target_maintainer;
                         pg_targetUser := targetUser;
                         pg_daysSinceActivity := fst activity |})
       else ret tt) ;;;
      summarizeMaintainerPings sep summary rest
  end.

(** [process].  For an item that is neither a draft nor in review no
    [await] separates the call of [updateSummaryFromStaleness] from the
    [return]: its rest is pending when [process] returns.  For a draft or
    an item in review the accountability pass lies in between, and the
    rest may have run by the time of the [return] if that pass waits for
    the remote.  The promises that earlier calls of [process] have left
    pending are taken up between the items, see [sweep]. *)
Definition process (sep : SEPItem) : Proc ProcessResult :=
  summary <- newSummary ;;
  (* Skip closed SEPs *)
  if sep_isClosed sep then ret {| results := []; summaryData := summary |}
  else
    (* Check for auto-transition *)
    transitionResult <- lift (checkAutoTransition sep) ;;
    match transitionResult with
    | Some tr =>
        match res_success tr, act_toState (res_action tr) with
        | true, Some toState =>
            updateSummary summary
              (push_transition
                 {| tr_item := sep;
                    tr_fromState := sep_state sep;
                    tr_toState := toState;
                    tr_sponsor := default "unknown" (act_targetUser (res_action tr)) |})
        | _, _ => ret tt
        end ;;;
        (* Don't check staleness if we just transitioned *)
        ret {| results := [tr]; summaryData := summary |}
    | None =>
        (* Check staleness *)
        stalenessResult <- lift (checkStaleness sep) ;;
        match stalenessResult with
        | Some sr => updateSummaryFromStaleness_floating sr sep summary
        | None => ret tt
        end ;;;
        let results1 := match stalenessResult with Some sr => [sr] | None => [] end in
        (* Check maintainer accountability *)
        if bool_decide (sep_state sep = Some draft)
           || bool_decide (sep_state sep = Some in_review)
        then
          maintainerResults <- awaiting (checkMaintainerAccountability sep) ;;
          summarizeMaintainerPings sep summary maintainerResults ;;;
          ret {| results := results1 ++ maintainerResults; summaryData := summary |}
        else ret {| results := results1; summaryData := summary |}
    end.

End SEPProcessor.
End Processor.
Export Processor.

(** ** index.ts: the wiring of the components *)

Module Main.

(** The state after the constructors of [main] have run, for a run in
    which the event loop gets to no pending promise before the end. *)
Definition start (config : Config) (r : Remote) : Run :=
  {| world := {| remote := r; calls := []; initialized := GitHubClient.constructed config;
                 maintainerSet := None; loadAttempted := false |};
     heap := []; floating := []; turns := []; unhandled := None |}.

(** The same for a run with the turns [ts] of the event loop. *)
Definition startWith (ts : list bool) (config : Config) (r : Remote) : Run :=
  set_turns ts (start config r).

End Main.
Export Main.

(** ** Concrete runs: the mock objects of the unit tests *)

Module Scenario.

(** 2024-01-01T00:00:00Z *)
Definition jan1 : Z := 1704067200000.

(** [createMockConfig()], with the dry-run flag as a parameter. *)
Definition mockConfig (dry : bool) : Config :=
  {| githubToken := Some "test-token"; appId := None; appPrivateKey := None;
     targetOwner := "test-owner"; targetRepo := "test-repo";
     maintainersTeam := "core-maintainers";
     proposalPingDays := 90; proposalDormantDays := 180;
     draftPingDays := 90; acceptedPingDays := 30;
     maintainerInactivityDays := 14; pingCooldownDays := 14;
     dryRun := dry; discordWebhookUrl := None |}.

(** [createMockSEPItem({ state, assignees })] *)
Definition mockSEPItem (state : option SEPState) (assignees : list string) : SEPItem :=
  {| sep_id := 1; sep_number := 123; sep_title := "Test SEP"; sep_type := type_issue;
     sep_state := state; sep_labels := ["SEP"; "proposal"];
     sep_author := "test-author"; sep_assignees := assignees;
     sep_createdAt := jan1; sep_updatedAt := jan1;
     sep_url := "https://github.com/test/123"; sep_isClosed := false |}.

(** The comments the process itself has created on an issue, as a later
    listing returns them. *)
Definition posted (nowDate : Z) (issueNumber : Z) (history : list Call)
    : list GitHubComment :=
  omap (fun c =>
          match c with
          | CreateComment n body =>
              if n =? issueNumber
              then Some {| gc_id := 0; gc_body := body; gc_user := Some "sep-bot";
                           gc_created_at := nowDate; gc_updated_at := nowDate |}
              else None
          | _ => None
          end) history.

(** A remote that accepts every request, at a fixed time of day: an issue
    has the comments [comments] and those the process adds, every sponsor
    team has the members [members]. *)
Definition mockRemote (nowDate : Z) (comments : list GitHubComment) (members : list string)
    : Remote :=
  {| on_getRepoInstallation := fun _ => Ok 1;
     on_searchIssues := fun _ _ => Ok [];
     on_listForRepo := fun _ _ => Ok [];
     on_listComments := fun h n => Ok (comments ++ posted nowDate n h);
     on_listEvents := fun _ _ => Ok [];
     on_createComment := fun _ _ _ => Ok "https://github.com/comment/1";
     on_addLabels := fun _ _ _ => Ok tt;
     on_removeLabel := fun _ _ _ => Ok tt;
     on_closeIssue := fun _ _ => Ok tt;
     on_getMembership := fun _ _ _ _ => Ok {| gm_state := active; gm_role := role_member |};
     on_listMembers := fun _ _ _ => Ok members;
     on_getIssue := fun _ _ => Throw (RequestError 404 "Not Found");
     clock := fun _ => nowDate |}.

(** A remote on which the removal of a label and the membership lookup
    fail with HTTP status [status]. *)
Definition failingRemote (status : Z) : Remote :=
  {| on_getRepoInstallation := fun _ => Ok 1;
     on_searchIssues := fun _ _ => Ok [];
     on_listForRepo := fun _ _ => Ok [];
     on_listComments := fun _ _ => Ok [];
     on_listEvents := fun _ _ => Ok [];
     on_createComment := fun _ _ _ => Ok "https://github.com/comment/1";
     on_addLabels := fun _ _ _ => Ok tt;
     on_removeLabel := fun _ _ _ => Throw (RequestError status "request failed");
     on_closeIssue := fun _ _ => Ok tt;
     on_getMembership := fun _ _ _ _ => Throw (RequestError status "request failed");
     on_listMembers := fun _ _ _ => Ok [];
     on_getIssue := fun _ _ => Throw (RequestError 404 "Not Found");
     clock := fun _ => jan1 |}.

Definition mockIssue (number : Z) (title : string) (labels : list string) : GitHubIssue :=
  {| gi_id := number; gi_number := number; gi_title := title; gi_closed := false;
     gi_labels := labels; gi_user := Some "test-author"; gi_assignees := [];
     gi_created_at := jan1; gi_updated_at := jan1;
     gi_html_url := "https://github.com/test/issue"; gi_pull_request := None |}.

(** A remote whose two searches overlap in issue 2. *)
Definition searchRemote : Remote :=
  {| on_getRepoInstallation := fun _ => Ok 1;
     on_searchIssues := fun _ q =>
       if Js.includes "label:SEP" q
       then Ok [mockIssue 1 "Add hint" ["SEP"; "proposal"];
                mockIssue 2 "SEP: tasks" ["SEP"; "draft"]]
       else Ok [mockIssue 2 "SEP: tasks" ["SEP"; "draft"];
                mockIssue 3 "SEP: sampling" []];
     on_listForRepo := fun _ _ => Ok [];
     on_listComments := fun _ _ => Ok [];
     on_listEvents := fun _ _ => Ok [];
     on_createComment := fun _ _ _ => Ok "https://github.com/comment/1";
     on_addLabels := fun _ _ _ => Ok tt;
     on_removeLabel := fun _ _ _ => Ok tt;
     on_closeIssue := fun _ _ => Ok tt;
     on_getMembership := fun _ _ _ _ => Ok {| gm_state := active; gm_role := role_member |};
     on_listMembers := fun _ _ _ => Ok [];
     on_getIssue := fun _ _ => Throw (RequestError 404 "Not Found");
     clock := fun _ => jan1 |}.

(** A comment of [user] that quotes the marker of the bot. *)
Definition quotingComment (user : option string) (createdAt : Z) : GitHubComment :=
  {| gc_id := 7;
     gc_body := "> <!-- sep-automation-bot -->
What does this marker mean?";
     gc_user := user;
     gc_created_at := createdAt; gc_updated_at := createdAt |}.

(** The verdict that asks for a dormant marking of [item]. *)
Definition dormantVerdict (item : SEPItem) (daysSinceActivity : Z) (shouldClose : bool)
    : StaleAnalysis :=
  {| sa_item := item; sa_daysSinceActivity := daysSinceActivity;
     sa_shouldPing := false; sa_shouldMarkDormant := true; sa_shouldClose := shouldClose;
     sa_pingTarget := None; sa_reason := Some "Test" |}.

Definition days (n : Z) : Z := n * MS_PER_DAY.

End Scenario.
Export Scenario.

(** ** sep/detector.ts: the queries by state and by number *)

Module SEPDetectorQueries.

Definition SEP_LABEL : string := "SEP".

Section Queries.

Variable config : Config.

(** [String.prototype.toUpperCase], a function of the JavaScript runtime. *)
Variable toUpperCase : string -> string.

Definition isSEP (item : GitHubIssue) : bool :=
  (* Has SEP label *)
  if existsb (fun l => String.eqb (toUpperCase l) SEP_LABEL) (gi_labels item) then true
  (* Title contains SEP *)
  else if Js.includes SEP_LABEL (toUpperCase (gi_title item)) then true
  else false.

Definition findSEPsByState (state : string) : M (list SEPItem) :=
  items <- getIssuesWithLabel config state ;;
  (* Filter to only items that are also SEPs *)
  let seps := List.filter isSEP items in
  ret (map toSEPItem seps).

Definition getSEP (number : Z) : M (option SEPItem) :=
  try_catch
    (item <- getIssue config number ;;
     if negb (isSEP item) then ret None
     else ret (Some (toSEPItem item)))
    (fun _ => ret None).

End Queries.
End SEPDetectorQueries.
Export SEPDetectorQueries.

(** ** hooks/types.ts, hooks/registry.ts, hooks/discord.ts *)

Module Hooks.

Record SummaryEvent := {
  ev_timestamp : Z;
  ev_dryRun : bool;
  ev_transitions : list TransitionRow;
  ev_pings : list PingRow;
  ev_needsSponsor : list NeedsSponsorRow;
  ev_dormant : list DormantRow;
  ev_totalProcessed : Z;
  ev_failed : Z
}.

Inductive SEPHookEvent :=
  | TransitionEvent (item : SEPItem) (timestamp : Z) (fromState : option SEPState)
      (toState : SEPState) (sponsor : string)
  | PingEvent (item : SEPItem) (timestamp : Z) (pingTarget : PingTarget)
      (targetUser : string) (daysSinceActivity : Z)
  | DormantEvent (item : SEPItem) (timestamp : Z) (daysSinceActivity : Z) (wasClosed : bool)
  | CloseEvent (item : SEPItem) (timestamp : Z) (reason : string)
  | Summary (event : SummaryEvent).

(** The interface [SEPHook], for hooks that act on a state [S]. *)
Record SEPHook (S : Type) := {
  hook_name : string;
  hook_enabled : bool;
  onEvent : SEPHookEvent -> ActionResult -> ST S unit
}.
Arguments hook_name {S} _.
Arguments hook_enabled {S} _.
Arguments onEvent {S} _ _ _.

(** *** HookRegistry: the field [hooks] is the list. *)

Section Registry.
Context {S : Type}.

Definition register (hook : SEPHook S) (hooks : list (SEPHook S)) : list (SEPHook S) :=
  if hook_enabled hook then hooks ++ [hook] else hooks.

(** [dispatch]: the hooks are started in the order of registration, each
    within its own [try]; they are run here one after the other. *)
Fixpoint dispatch (hooks : list (SEPHook S)) (event : SEPHookEvent) (result : ActionResult)
    : ST S unit :=
  match hooks with
  | [] => ret tt
  | hook :: rest =>
      try_catch (onEvent hook event result) (fun _ => ret tt) ;;;
      dispatch rest event result
  end.

Definition getRegisteredHooks (hooks : list (SEPHook S)) : list string :=
  map hook_name hooks.

End Registry.

(** *** DiscordHook *)

(** An embed of the webhook payload.  [emb_timestamp] is the date whose
    ISO string is sent. *)
Record Embed := {
  emb_title : string;
  emb_color : Z;
  emb_description : string;
  emb_timestamp : option Z;
  emb_footer : option string
}.

(** What [fetch] does: a response, or a rejection (the abort after ten
    seconds included). *)
Inductive FetchOutcome :=
  | Responded (ok : bool) (status : Z)
  | Rejected (e : JsError).

(** The webhook endpoint: the requests sent to it so far, oldest first,
    and what the next [fetch] does. *)
Record Web := {
  posted_embeds : list (string * list Embed);
  on_fetch : list (string * list Embed) -> string -> list Embed -> FetchOutcome
}.

(** [[...rows].sort((a, b) => b.daysSinceActivity - a.daysSinceActivity)]:
    the sort of an array is stable, so that for this comparator its result
    is that of the insertion of the elements, one after the other, behind
    those that are at least as inactive. *)
Section SortByDays.
Context {A : Type} (daysOf : A -> Z).

Fixpoint insertByDays (x : A) (sorted : list A) : list A :=
  match sorted with
  | [] => [x]
  | y :: rest =>
      if daysOf y >=? daysOf x then y :: insertByDays x rest else x :: y :: rest
  end.

Definition sortByDays (rows : list A) : list A :=
  fold_left (fun sorted x => insertByDays x sorted) rows [].

End SortByDays.

(** [`${n} ...${n !== 1 ? 's' : ''}`] *)
Definition count (n : nat) : string := Js.num (Z.of_nat n).

Definition buildSummaryDescription (event : SummaryEvent) : string :=
  let nt := length (ev_transitions event) in
  let np := length (ev_pings event) in
  let nn := length (ev_needsSponsor event) in
  let nd := length (ev_dormant event) in
  let parts :=
    (if (0 <? nt)%nat
     then ["**" +:+ count nt +:+ "** transition" +:+ (if (nt =? 1)%nat then "" else "s")]
     else [])
    ++ (if (0 <? np)%nat
        then ["**" +:+ count np +:+ "** ping" +:+ (if (np =? 1)%nat then "" else "s")]
        else [])
    ++ (if (0 <? nn)%nat
        then ["**" +:+ count nn +:+ "** need" +:+ (if (nn =? 1)%nat then "s" else "")
              +:+ " sponsor"]
        else [])
    ++ (if (0 <? nd)%nat then ["**" +:+ count nd +:+ "** marked dormant"] else [])
    ++ (if 0 <? ev_failed event
        then ["**" +:+ Js.num (ev_failed event) +:+ "** failed"]
        else []) in
  let description :=
    Js.join " • " parts +:+ "

Processed " +:+ Js.num (ev_totalProcessed event) +:+ " SEPs" in
  if ev_dryRun event
  then description +:+ "

⚠️ **DRY RUN** - No comments were posted or labels changed"
  else description.

Definition itemLink (item : SEPItem) : string :=
  "[#" +:+ Js.num (sep_number item) +:+ "](" +:+ sep_url item +:+ ")".

Definition stateOrUnknown (item : SEPItem) : string :=
  match sep_state item with Some s => label s | None => "unknown" end.

Definition targetName (t : PingTarget) : string :=
  match t with
  | target_author => "author"
  | target_sponsor => "sponsor"
  | target_maintainer => "maintainer"
  end.

Definition transitionLine (t : TransitionRow) : string :=
  "• " +:+ itemLink (tr_item t) +:+ ": **" +:+ stateOrNone (tr_fromState t)
  +:+ "** → **" +:+ label (tr_toState t) +:+ "** (sponsor: @" +:+ tr_sponsor t +:+ ")".

Definition pingLine (p : PingRow) : string :=
  "• " +:+ itemLink (pg_item p) +:+ " `" +:+ stateOrUnknown (pg_item p) +:+ "`: pinged "
  +:+ targetName (pg_pingTarget p) +:+ " @" +:+ pg_targetUser p +:+ " (**"
  +:+ Js.num (pg_daysSinceActivity p) +:+ "d** inactive)".

Definition needsSponsorLine (n : NeedsSponsorRow) : string :=
  "• " +:+ itemLink (ns_item n) +:+ " `" +:+ stateOrUnknown (ns_item n)
  +:+ "`: needs core maintainer sponsor (**" +:+ Js.num (ns_daysSinceActivity n)
  +:+ "d** inactive)".

Definition dormantLine (d : DormantRow) : string :=
  "• " +:+ itemLink (dm_item d) +:+ " `" +:+ stateOrUnknown (dm_item d)
  +:+ "` → `dormant`: after **" +:+ Js.num (dm_daysSinceActivity d) +:+ "d**"
  +:+ (if dm_wasClosed d then " (closed)" else "").

Definition newline : string := "
".

Definition section (title : string) (lines : list string) (color : Z) : Embed :=
  {| emb_title := title; emb_color := color; emb_description := Js.join newline lines;
     emb_timestamp := None; emb_footer := None |}.

Definition createSummaryEmbeds (event : SummaryEvent) : list Embed :=
  let hasActivity :=
    (0 <? length (ev_transitions event))%nat || (0 <? length (ev_pings event))%nat
    || (0 <? length (ev_needsSponsor event))%nat || (0 <? length (ev_dormant event))%nat in
  if negb hasActivity then []
  else
    let summaryEmbed :=
      {| emb_title := if ev_dryRun event then "🧪 SEP Lifecycle Summary (DRY RUN)"
                      else "📋 SEP Lifecycle Summary";
         emb_color := if ev_dryRun event then 10181046      (* 0x9b59b6 *)
                      else if 0 <? ev_failed event then 16753920   (* 0xffa500 *)
                      else 65280;                                  (* 0x00ff00 *)
         emb_description := buildSummaryDescription event;
         emb_timestamp := Some (ev_timestamp event);
         emb_footer := Some (if ev_dryRun event
                             then "SEP Lifecycle Bot • No actions were taken"
                             else "SEP Lifecycle Bot") |} in
    [summaryEmbed]
    (* Transitions section (no inactivity to sort by) *)
    ++ (if (0 <? length (ev_transitions event))%nat
        then [section "🔄 State Transitions" (map transitionLine (ev_transitions event))
                3447003]                                           (* 0x3498db *)
        else [])
    (* Pings section - sorted by days inactive (longest first) *)
    ++ (if (0 <? length (ev_pings event))%nat
        then [section "🔔 Stale Pings"
                (map pingLine (sortByDays pg_daysSinceActivity (ev_pings event)))
                15965202]                                          (* 0xf39c12 *)
        else [])
    (* Needs sponsor section *)
    ++ (if (0 <? length (ev_needsSponsor event))%nat
        then [section "🆘 Needs Sponsor"
                (map needsSponsorLine
                     (sortByDays ns_daysSinceActivity (ev_needsSponsor event)))
                15158332]                                          (* 0xe74c3c *)
        else [])
    (* Dormant section *)
    ++ (if (0 <? length (ev_dormant event))%nat
        then [section "💤 Marked Dormant"
                (map dormantLine (sortByDays dm_daysSinceActivity (ev_dormant event)))
                9807270]                                           (* 0x95a5a6 *)
        else []).

(** [fetch(url, { method: 'POST', body: JSON.stringify({ embeds }) })] *)
Definition fetch (url : string) (embeds : list Embed) : ST Web FetchOutcome :=
  fun web =>
    let outcome := on_fetch web (posted_embeds web) url embeds in
    (match outcome with
     | Rejected e => Throw e
     | Responded _ _ => Ok outcome
     end,
     {| posted_embeds := posted_embeds web ++ [(url, embeds)]; on_fetch := on_fetch web |}).

Section Discord.

(** [DiscordConfig.webhookUrl] *)
Variable webhookUrl : option string.

Definition discordEnabled : bool := Js.truthy webhookUrl.

Definition discordOnEvent (event : SEPHookEvent) (result : ActionResult) : ST Web unit :=
  if negb discordEnabled || negb (Js.truthy webhookUrl) then ret tt
  else
    match event with
    | Summary summary =>
        let embeds := createSummaryEmbeds summary in
        (* Don't send if nothing happened *)
        if (length embeds =? 0)%nat then ret tt
        else
          try_catch
            (response <- fetch (default "" webhookUrl) embeds ;;
             ret tt)
            (fun _ => ret tt)
    | _ => ret tt      (* Only handle summary events *)
    end.

Definition DiscordHook : SEPHook Web :=
  {| hook_name := "discord"; hook_enabled := discordEnabled; onEvent := discordOnEvent |}.

End Discord.
End Hooks.
Export Hooks.

(** ** index.ts: the sweep over the items found and the report *)

Module Sweep.

(** [summary.<field>.push(...part.<field>)] for the four fields. *)
Definition mergeSummary (summary part : SummaryData) : SummaryData :=
  {| transitions := transitions summary ++ transitions part;
     pings := pings summary ++ pings part;
     needsSponsor := needsSponsor summary ++ needsSponsor part;
     dormantRows := dormantRows summary ++ dormantRows part |}.

(** [if (issueNumber)] for the number [parseArgs] has found, if any. *)
Definition singleIssue (issueNumber : option Z) : bool :=
  match issueNumber with
  | Some n => negb (n =? 0)
  | None => false
  end.

Section Loop.

Variable config : Config.

(** The loop [for (const sep of seps)] of [main], on the accumulators
    [allResults] and [summary].  The summary object of an item is read as
    soon as [process] has returned.  The promises left pending are taken
    up by the event loop while the main flow waits on behalf of the next
    item, or for the report after the last one: in the model, between the
    items.  The [catch] of the loop sees what [process] throws; the
    rejection of a pending promise is seen by nobody and ends the run. *)
Fixpoint sweep (seps : list SEPItem)
    (allResults : list ActionResult) (summary : SummaryData)
    : Proc (list ActionResult * SummaryData) :=
  match seps with
  | [] => ret (allResults, summary)
  | sep :: rest =>
      acc <- try_running
               (result <- process config sep ;;
                part <- gets (fun st => deref st (summaryData result)) ;;
                ret (allResults ++ results result, mergeSummary summary part))
               (fun _ => ret (allResults, summary)) ;;
      yield config ;;;
      sweep rest (fst acc) (snd acc)
  end.

(** [allResults.filter(r => !r.success).length] *)
Definition failedCount (allResults : list ActionResult) : nat :=
  length (List.filter (fun r => negb (res_success r)) allResults).

Definition summaryEvent (timestamp : Z) (seps : list SEPItem)
    (allResults : list ActionResult) (summary : SummaryData) : SummaryEvent :=
  {| ev_timestamp := timestamp;
     ev_dryRun := dryRun config;
     ev_transitions := transitions summary;
     ev_pings := pings summary;
     ev_needsSponsor := needsSponsor summary;
     ev_dormant := dormantRows summary;
     ev_totalProcessed := Z.of_nat (length seps);
     ev_failed := Z.of_nat (failedCount allResults) |}.

(** The result that goes with the summary event. *)
Definition summaryResult (firstSep : SEPItem) : ActionResult :=
  {| res_action := {| act_type := Transition; act_item := firstSep;
                      act_targetUser := None; act_fromState := None;
                      act_toState := None; act_reason := "summary";
                      act_dryRun := dryRun config |};
     res_success := true; res_error := None; res_commentUrl := None |}.

(** What [main] does once the loop has ended: the summary is sent to the
    hooks if there were actions and the run is no single-issue run.  The
    value tells whether [process.exit(1)] is called; [timestamp] is the
    value of [new Date()]. *)
Definition report {S} (hooks : list (SEPHook S)) (issueNumber : option Z)
    (timestamp : Z) (seps : list SEPItem) (allResults : list ActionResult)
    (summary : SummaryData) : ST S bool :=
  let failed := failedCount allResults in
  (if (0 <? length allResults)%nat && negb (singleIssue issueNumber) then
     match seps with
     | firstSep :: _ =>
         dispatch hooks (Summary (summaryEvent timestamp seps allResults summary))
                  (summaryResult firstSep)
     | [] => ret tt
     end
   else ret tt) ;;;
  (* Exit with error code if any failures *)
  ret (0 <? failed)%nat.

End Loop.
End Sweep.
Export Sweep.

(** ** Further objects for concrete runs *)

Module MoreScenario.

(** The upper-casing of the letters a to z, which is what [toUpperCase]
    does on a string of ASCII characters. *)
Fixpoint asciiUpper (s : string) : string :=
  match s with
  | EmptyString => EmptyString
  | String c rest =>
      let n := Ascii.nat_of_ascii c in
      String (if ((97 <=? n) && (n <=? 122))%nat then Ascii.ascii_of_nat (n - 32) else c)
             (asciiUpper rest)
  end.

(** A remote that knows issue 7 only, a SEP by its title. *)
Definition oneIssueRemote : Remote :=
  {| on_getRepoInstallation := fun _ => Ok 1;
     on_searchIssues := fun _ _ => Ok [];
     on_listForRepo := fun _ _ => Ok [];
     on_listComments := fun _ _ => Ok [];
     on_listEvents := fun _ _ => Ok [];
     on_createComment := fun _ _ _ => Ok "https://github.com/comment/1";
     on_addLabels := fun _ _ _ => Ok tt;
     on_removeLabel := fun _ _ _ => Ok tt;
     on_closeIssue := fun _ _ => Ok tt;
     on_getMembership := fun _ _ _ _ => Ok {| gm_state := active; gm_role := role_member |};
     on_listMembers := fun _ _ _ => Ok [];
     on_getIssue := fun _ n =>
       if n =? 7 then Ok (mockIssue 7 "sep: elicitation" ["draft"])
       else Throw (RequestError 404 "Not Found");
     clock := fun _ => jan1 |}.

(** A remote on which the comments can no longer be listed once a comment
    has been posted. *)
Definition flakyRemote (nowDate : Z) : Remote :=
  {| on_getRepoInstallation := fun _ => Ok 1;
     on_searchIssues := fun _ _ => Ok [];
     on_listForRepo := fun _ _ => Ok [];
     on_listComments := fun h _ =>
       if existsb isMutation h then Throw (RequestError 502 "Bad Gateway") else Ok [];
     on_listEvents := fun _ _ => Ok [];
     on_createComment := fun _ _ _ => Ok "https://github.com/comment/1";
     on_addLabels := fun _ _ _ => Ok tt;
     on_removeLabel := fun _ _ _ => Ok tt;
     on_closeIssue := fun _ _ => Ok tt;
     on_getMembership := fun _ _ _ _ => Ok {| gm_state := active; gm_role := role_member |};
     on_listMembers := fun _ _ _ => Ok [];
     on_getIssue := fun _ _ => Throw (RequestError 404 "Not Found");
     clock := fun _ => nowDate |}.

(** A webhook that accepts every request. *)
Definition mockWeb : Web :=
  {| posted_embeds := []; on_fetch := fun _ _ _ => Responded true 204 |}.

(** A webhook that cannot be reached. *)
Definition deadWeb : Web :=
  {| posted_embeds := []; on_fetch := fun _ _ _ => Rejected (PlainError "fetch failed") |}.

End MoreScenario.
Export MoreScenario.

(** ** The vocabulary of the properties *)

Module Vocabulary.

Definition is_ok {A} (r : Result A) : Prop := exists a, r = Ok a.
Definition is_throw {A} (r : Result A) : Prop := exists e, r = Throw e.

(** [frame w w' cs]: from [w] to [w'] the requests [cs] were sent, the
    remote is the same and an initialised client stays so. *)
Record frame (w w' : World) (cs : list Call) : Prop := {
  frame_calls : calls w' = calls w ++ cs;
  frame_remote : remote w' = remote w;
  frame_initialized : initialized w = true -> initialized w' = true
}.

(** [sat m Q]: whatever the state, [m] changes it within the frame, and
    its result and the requests it sent satisfy [Q]. *)
Definition sat {A} (m : M A) (Q : Result A -> list Call -> Prop) : Prop :=
  forall w, exists cs, frame w (m w).2 cs /\ Q (m w).1 cs.

(** The only request of the client's own is the lookup of the installation. *)
Definition boot (c : Call) : Prop := c = GetRepoInstallation.

(** What a method of the client sends: the installation lookup if it is
    still due, then its own request [c], unless the lookup failed. *)
Definition guarded {A} (c : Call) (r : Result A) (cs : list Call) : Prop :=
  exists pre, Forall boot pre /\ ((cs = pre /\ is_throw r) \/ cs = pre ++ [c]).

(** The requests of the maintainer resolver. *)
Definition resolverCall (c : Call) : Prop :=
  match c with
  | GetRepoInstallation | ListMembers _ _ => True
  | _ => False
  end.

(** The sponsor set as the resolver determines it in state [w]. *)
Definition sponsors (config : Config) (w : World) : gset string :=
  match (ensureSponsorsLoaded config w).1 with
  | Ok s => s
  | Throw _ => ∅
  end.

(** The requests among [cs] that change the repository. *)
Definition mutations (cs : list Call) : list Call := List.filter isMutation cs.

(** The mutations sent follow the plan, and all of the plan was sent if the
    computation returned. *)
Definition follows {A} (planned : list Call) (r : Result A) (cs : list Call) : Prop :=
  mutations cs `prefix_of` planned /\ (is_ok r -> mutations cs = planned).

(** The mutations of a legal dormant marking, in the order of the source. *)
Definition dormantPlan (item : SEPItem) (s : SEPState) (daysSinceActivity : Z)
    (shouldClose : bool) : list Call :=
  [ RemoveLabel (sep_number item) (label s);
    AddLabels (sep_number item) ["dormant"];
    CreateComment (sep_number item) (createDormantComment item daysSinceActivity) ]
  ++ (if shouldClose then [CloseIssue (sep_number item)] else []).

(** A remote that accepts the four mutations of a dormant marking of
    [item], whatever was requested before. *)
Definition accepts (r : Remote) (item : SEPItem) (s : SEPState) (daysSinceActivity : Z)
    : Prop :=
  (forall h, on_removeLabel r h (sep_number item) (label s) = Ok tt)
  /\ (forall h, on_addLabels r h (sep_number item) ["dormant"] = Ok tt)
  /\ (forall h, is_ok (on_createComment r h (sep_number item)
                         (createDormantComment item daysSinceActivity)))
  /\ (forall h, on_closeIssue r h (sep_number item) = Ok tt).

(** The requests of an automatic transition of [sep] from proposal to
    draft: the reads of the client and of the resolver, the two label
    changes and the transition comment.  In particular no listing of
    comments or events, hence no analysis, and no ping, dormant label or
    close. *)
Definition transitionCall (sep : SEPItem) (c : Call) : Prop :=
  match c with
  | GetRepoInstallation | ListMembers _ _ => True
  | RemoveLabel n l => n = sep_number sep /\ l = "proposal"
  | AddLabels n ls => n = sep_number sep /\ ls = ["draft"]
  | CreateComment n body =>
      n = sep_number sep
      /\ exists sponsor,
           body = createTransitionComment sep (Some proposal) (Some draft) sponsor
  | _ => False
  end.

(** The mutations of the automatic transition of [sep] from proposal to
    draft on behalf of [sponsor], in the order of the source. *)
Definition promotionPlan (sep : SEPItem) (sponsor : string) : list Call :=
  [ RemoveLabel (sep_number sep) "proposal";
    AddLabels (sep_number sep) ["draft"];
    CreateComment (sep_number sep)
      (createTransitionComment sep (Some proposal) (Some draft) sponsor) ].

(** A remote that accepts these three requests, whatever was requested
    before. *)
Definition acceptsPromotion (r : Remote) (sep : SEPItem) (sponsor : string) : Prop :=
  (forall h, on_removeLabel r h (sep_number sep) "proposal" = Ok tt)
  /\ (forall h, on_addLabels r h (sep_number sep) ["draft"] = Ok tt)
  /\ (forall h, is_ok (on_createComment r h (sep_number sep)
                         (createTransitionComment sep (Some proposal) (Some draft) sponsor))).

End Vocabulary.
Export Vocabulary.


(** ** Further vocabulary *)

Module Lifecycle.

(** [reaches s t]: a chain of valid transitions leads from [s] to [t]. *)
Inductive reaches : SEPState -> SEPState -> Prop :=
  | reaches_here (s : SEPState) : reaches s s
  | reaches_step (s t u : SEPState) :
      isValidTransition (Some s) t = true -> reaches t u -> reaches s u.

End Lifecycle.
Export Lifecycle.

Module Footprint.

(** The fields of the maintainer resolver are the same in [w] and [w']. *)
Definition sameResolver (w w' : World) : Prop :=
  maintainerSet w' = maintainerSet w /\ loadAttempted w' = loadAttempted w.

(** [keeps m]: [m] leaves the fields of the resolver alone. *)
Definition keeps {A} (m : M A) : Prop := forall w, sameResolver w (m w).2.

(** The resolver has its sponsor set: loaded, or given up for the
    fallback list. *)
Definition settled (w : World) : Prop :=
  is_Some (maintainerSet w) \/ loadAttempted w = true.

(** Request [c] changes nothing, or it changes issue [issueNumber]. *)
Definition touches (issueNumber : Z) (c : Call) : Prop :=
  match c with
  | CreateComment n _ | AddLabels n _ | RemoveLabel n _ | CloseIssue n => n = issueNumber
  | _ => True
  end.

(** [sat] for the processor: the frame is that of the client's state. *)
Definition procSat {A} (m : Proc A) (Q : Result A -> list Call -> Prop) : Prop :=
  forall st, exists cs, frame (world st) (world (m st).2) cs /\ Q (m st).1 cs.

(** A result says how it went: it has an error message exactly if it
    failed, and the URL of a comment only if it succeeded outside a dry
    run. *)
Definition coherent (res : ActionResult) : Prop :=
  (res_success res = false <-> is_Some (res_error res))
  /\ (is_Some (res_commentUrl res) ->
      res_success res = true /\ act_dryRun (res_action res) = false).

(** The result is about [item], repeats the dry-run flag and is coherent. *)
Definition sound (item : SEPItem) (dry : bool) (res : ActionResult) : Prop :=
  act_item (res_action res) = item
  /\ act_dryRun (res_action res) = dry
  /\ coherent res.

(** The function returned, with a sound result. *)
Definition reported (item : SEPItem) (dry : bool) (r : Result ActionResult) : Prop :=
  exists res, r = Ok res /\ sound item dry res.

(** No listing of a team of [config]'s owner returns a member. *)
Definition silent (config : Config) (r : Remote) : Prop :=
  forall h team,
    match on_listMembers r h (targetOwner config) team with
    | Ok members => members = []
    | Throw _ => True
    end.



(** [u] is a member of one of [teams] as the remote lists them when they
    are asked for in turn after the requests [h]. *)
Definition listed (config : Config) (r : Remote) (h : list Call) (teams : list string)
    (u : string) : Prop :=
  exists i team members,
    teams !! i = Some team
    /\ on_listMembers r (h ++ map (ListMembers (targetOwner config)) (take i teams))
         (targetOwner config) team = Ok members
    /\ u ∈ members.

(** The time values of a [Date]: the integers up to 8.64e15 in absolute
    value. *)
Definition timeValue (t : Z) : Prop := Z.abs t <= 8640000000000000.

(** A summary without a row of a staleness action. *)
Definition noStalenessRows (s : SummaryData) : Prop :=
  pings s = [] /\ needsSponsor s = [] /\ dormantRows s = [].

(** [a] has been inactive at least as long as [b]. *)
Definition inactiveFirst {A} (daysOf : A -> Z) (a b : A) : Prop := daysOf b <= daysOf a.

(** [sorted] is [rows] in the order of decreasing [daysOf], rows of equal
    value in the order they have in [rows]. *)
Definition longestFirst {A} (daysOf : A -> Z) (rows sorted : list A) : Prop :=
  rows ≡ₚ sorted
  /\ StronglySorted (inactiveFirst daysOf) sorted
  /\ forall d, List.filter (fun r => daysOf r =? d) sorted
               = List.filter (fun r => daysOf r =? d) rows.

End Footprint.
Export Footprint.

Set Warnings "-clear-no-such-hyp".

(** * Properties *)

(** ** The rules table *)

Example isStateLabel_valid :
  map isStateLabel ["proposal"; "draft"; "in-review"; "accepted"; "final"; "dormant"]
  = map Some STATE_LABELS.
Proof. reflexivity. Qed.

Example isStateLabel_invalid :
  map isStateLabel ["bug"; "enhancement"; "SEP"; ""] = [None; None; None; None].
Proof. reflexivity. Qed.

Example extractState_first_wins :
  extractState ["bug"; "draft"; "urgent"] = Some draft
  /\ extractState ["SEP"; "bug"] = None
  /\ extractState ["proposal"; "draft"] = Some proposal.
Proof. repeat split. Qed.

Example validateTransition_examples :
  validateTransition (Some proposal) draft = (true, "Valid transition")
  /\ fst (validateTransition (Some proposal) final) = false
  /\ validateTransition None proposal = (true, "Initial state assignment").
Proof. repeat split. Qed.

(** C1.  A transition is valid exactly when the item has no state yet or
    the target is among the outgoing edges of its state in
    [STATE_TRANSITIONS]; nothing is a valid target from [final]. *)
Theorem isValidTransition_table :
  (forall (S : option SEPState) (T : SEPState),
      isValidTransition S T = true <->
      S = None \/ exists s, S = Some s /\ In T (STATE_TRANSITIONS s))
  /\ (forall T : SEPState, isValidTransition (Some final) T = false).
Proof.
  split.
  - intros [s|] T; simpl.
    + unfold includes_state. rewrite existsb_exists. split.
      * intros (y & Hin & Heq). apply bool_decide_eq_true in Heq. subst y.
        right. exists s. auto.
      * intros [Hnone | (s' & Hs & Hin)]; [discriminate|].
        injection Hs as <-. exists T. split; [assumption|].
        apply bool_decide_eq_true. reflexivity.
    + split; auto.
  - intros T. reflexivity.
Qed.

(** ** The detector *)

Section MapSet.
Context {V : Type}.

Lemma map_set_keys (key : Z) (value : V) (m : JsMap V) :
  map fst (map_set key value m) =
  if bool_decide (key ∈ map fst m) then map fst m else map fst m ++ [key].
Proof.
  induction m as [|[k v] rest IH]; simpl.
  - reflexivity.
  - destruct (Z.eqb_spec k key) as [->|Hne]; simpl.
    + rewrite bool_decide_eq_true_2 by set_solver. reflexivity.
    + rewrite IH. case_bool_decide as Hin.
      * rewrite bool_decide_eq_true_2 by set_solver. reflexivity.
      * rewrite bool_decide_eq_false_2 by set_solver. reflexivity.
Qed.

Lemma map_set_NoDup (key : Z) (value : V) (m : JsMap V) :
  NoDup (map fst m) -> NoDup (map fst (map_set key value m)).
Proof.
  intros Hnd. rewrite map_set_keys. case_bool_decide as Hin; [assumption|].
  apply NoDup_app. split; [assumption|]. split.
  - set_solver.
  - apply NoDup_singleton.
Qed.

Lemma map_set_elem_of (key : Z) (value : V) (m : JsMap V) (k : Z) :
  k ∈ map fst (map_set key value m) <-> k = key \/ k ∈ map fst m.
Proof. rewrite map_set_keys. case_bool_decide; set_solver. Qed.

Lemma map_set_entries (P : Z -> V -> Prop) (key : Z) (value : V) (m : JsMap V) :
  P key value ->
  Forall (fun kv => P kv.1 kv.2) m ->
  Forall (fun kv => P kv.1 kv.2) (map_set key value m).
Proof.
  intros HP. induction 1 as [|[k v] rest Hkv Hrest IH]; simpl.
  - constructor; [assumption|constructor].
  - destruct (Z.eqb_spec k key) as [->|Hne]; constructor; auto.
Qed.

End MapSet.

(** The map built by the merge loop, started from any map [acc] whose keys
    are distinct and are the numbers of its values. *)
Lemma merge_loop_invariant (items : list GitHubIssue) (acc : JsMap GitHubIssue) :
  NoDup (map fst acc) ->
  Forall (fun kv => gi_number kv.2 = kv.1) acc ->
  let m := fold_left (fun allItems item => map_set (gi_number item) item allItems) items acc in
  NoDup (map fst m)
  /\ Forall (fun kv => gi_number kv.2 = kv.1) m
  /\ (forall n, n ∈ map fst m <-> n ∈ map fst acc \/ n ∈ map gi_number items).
Proof.
  revert acc. induction items as [|item rest IH]; intros acc Hnd Hkeys; simpl.
  - repeat split; auto. set_solver.
  - destruct (IH (map_set (gi_number item) item acc)) as (H1 & H2 & H3).
    + apply map_set_NoDup, Hnd.
    + apply (map_set_entries (fun k v => gi_number v = k)); auto.
    + repeat split; auto.
      * intros Hn. apply H3 in Hn. rewrite map_set_elem_of in Hn. set_solver.
      * intros Hn. apply H3. rewrite map_set_elem_of. set_solver.
Qed.

Lemma mergeItems_numbers (items : list GitHubIssue) :
  let seps := map toSEPItem (map_values (mergeItems items)) in
  NoDup (map sep_number seps)
  /\ (forall n, n ∈ map sep_number seps <-> n ∈ map gi_number items).
Proof.
  destruct (merge_loop_invariant items []) as (H1 & H2 & H3);
    [constructor | constructor |].
  assert (Hnum : map sep_number (map toSEPItem (map_values (mergeItems items)))
                 = map fst (mergeItems items)).
  { unfold map_values, mergeItems. rewrite !map_map.
    apply map_ext_Forall. eapply Forall_impl; [exact H2|]. intros [k v]; simpl; auto. }
  simpl. rewrite Hnum. split; [exact H1|].
  intros n. rewrite (H3 n). set_solver.
Qed.

(** C8.  Whatever the two searches return, the numbers of the items that
    [findAllSEPs] returns are pairwise distinct and are exactly the
    numbers found by either search; an item found by both searches occurs
    exactly once. *)
Theorem findAllSEPs_dedupes (config : Config) (w w1 w2 : World)
    (labeledItems titledItems : list GitHubIssue) :
  searchIssues config "label:SEP is:open" w = (Ok labeledItems, w1) ->
  searchIssues config "SEP in:title is:open" w1 = (Ok titledItems, w2) ->
  exists seps,
    findAllSEPs config w = (Ok seps, w2)
    /\ NoDup (map sep_number seps)
    /\ (forall n, n ∈ map sep_number seps <->
                  n ∈ map gi_number labeledItems \/ n ∈ map gi_number titledItems)
    /\ (forall n, n ∈ map gi_number labeledItems -> n ∈ map gi_number titledItems ->
                  count_occ Z.eq_dec (map sep_number seps) n = 1%nat).
Proof.
  intros Hl Ht.
  destruct (mergeItems_numbers (labeledItems ++ titledItems)) as [Hnd Hin].
  eexists. split; [|split; [exact Hnd|split]].
  - unfold findAllSEPs, bind. rewrite Hl, Ht. reflexivity.
  - intros n. rewrite Hin, map_app, elem_of_app. reflexivity.
  - intros n Hn _. apply NoDup_count_occ'.
    + apply NoDup_ListNoDup. exact Hnd.
    + apply list_elem_of_In, Hin. rewrite map_app, elem_of_app. auto.
Qed.

Lemma findAllSEPs_dedupes_witness :
  let config := mockConfig false in
  let w := world (start config searchRemote) in
  exists seps,
    (findAllSEPs config w).1 = Ok seps
    /\ map sep_number seps = [1; 2; 3]
    /\ count_occ Z.eq_dec (map sep_number seps) 2 = 1%nat.
Proof.
  intros config w.
  destruct (findAllSEPs_dedupes config w
              (searchIssues config "label:SEP is:open" w).2
              (searchIssues config "SEP in:title is:open"
                 (searchIssues config "label:SEP is:open" w).2).2
              [mockIssue 1 "Add hint" ["SEP"; "proposal"];
               mockIssue 2 "SEP: tasks" ["SEP"; "draft"]]
              [mockIssue 2 "SEP: tasks" ["SEP"; "draft"];
               mockIssue 3 "SEP: sampling" []])
    as (seps & Hrun & _ & _ & Honce).
  - vm_compute. reflexivity.
  - vm_compute. reflexivity.
  - exists seps. rewrite Hrun. split; [reflexivity|]. split.
    + vm_compute in Hrun. injection Hrun as <-. reflexivity.
    + apply Honce; set_solver.
Defined.

(** ** The repository client *)

Lemma removeLabel_reply (config : Config) (w w0 : World) (issueNumber : Z) (lbl : string) :
  ensureInitialized config w = (Ok tt, w0) ->
  removeLabel config issueNumber lbl w =
  (match on_removeLabel (remote w0) (calls w0) issueNumber lbl with
   | Ok _ => Ok tt
   | Throw e => if isHttpError e 404 then Ok tt else Throw e
   end, sent (RemoveLabel issueNumber lbl) w0).
Proof.
  intros Hinit. unfold removeLabel, bind, try_catch, request. rewrite Hinit.
  destruct (on_removeLabel _ _ _ _) as [[]|e]; [reflexivity|].
  destruct (isHttpError e 404); reflexivity.
Qed.

Lemma isTeamMember_reply (config : Config) (w w0 : World) (org teamSlug username : string) :
  ensureInitialized config w = (Ok tt, w0) ->
  isTeamMember config org teamSlug username w =
  (match on_getMembership (remote w0) (calls w0) org teamSlug username with
   | Ok membership => Ok (match gm_state membership with active => true | pending => false end)
   | Throw e => if isHttpError e 404 then Ok false else Throw e
   end, sent (GetMembership org teamSlug username) w0).
Proof.
  intros Hinit. unfold isTeamMember, bind, try_catch, request. rewrite Hinit.
  destruct (on_getMembership _ _ _ _ _) as [m|e]; [reflexivity|].
  destruct (isHttpError e 404); reflexivity.
Qed.

(** C9.  Once the client is initialised, a 404 of the remote on the
    removal of a label makes [removeLabel] return normally, a 404 on the
    membership lookup makes [isTeamMember] return [false], and any other
    failure of either request is thrown on to the caller. *)
Theorem not_found_is_a_normal_result (config : Config) (w w0 : World)
    (issueNumber : Z) (lbl org teamSlug username : string) :
  ensureInitialized config w = (Ok tt, w0) ->
  let removal := on_removeLabel (remote w0) (calls w0) issueNumber lbl in
  let lookup := on_getMembership (remote w0) (calls w0) org teamSlug username in
  (forall message, removal = Throw (RequestError 404 message) ->
     fst (removeLabel config issueNumber lbl w) = Ok tt)
  /\ (forall message, lookup = Throw (RequestError 404 message) ->
     fst (isTeamMember config org teamSlug username w) = Ok false)
  /\ (forall e, removal = Throw e -> isHttpError e 404 = false ->
     fst (removeLabel config issueNumber lbl w) = Throw e)
  /\ (forall e, lookup = Throw e -> isHttpError e 404 = false ->
     fst (isTeamMember config org teamSlug username w) = Throw e).
Proof.
  intros Hinit removal lookup.
  rewrite (removeLabel_reply _ _ _ _ _ Hinit), (isTeamMember_reply _ _ _ _ _ _ Hinit).
  fold removal lookup. simpl.
  repeat split.
  - intros message ->. reflexivity.
  - intros message ->. reflexivity.
  - intros e -> ->. reflexivity.
  - intros e -> ->. reflexivity.
Qed.

Lemma not_found_is_a_normal_result_witness :
  let config := mockConfig false in
  let missing := world (start config (failingRemote 404)) in
  let broken := world (start config (failingRemote 500)) in
  (removeLabel config 123 "proposal" missing).1 = Ok tt
  /\ (isTeamMember config "test-owner" "core-maintainers" "someone" missing).1 = Ok false
  /\ (removeLabel config 123 "proposal" broken).1 = Throw (RequestError 500 "request failed")
  /\ (isTeamMember config "test-owner" "core-maintainers" "someone" broken).1
     = Throw (RequestError 500 "request failed").
Proof.
  intros config missing broken.
  destruct (not_found_is_a_normal_result config missing missing 123 "proposal"
              "test-owner" "core-maintainers" "someone" eq_refl) as (H1 & H2 & _ & _).
  destruct (not_found_is_a_normal_result config broken broken 123 "proposal"
              "test-owner" "core-maintainers" "someone" eq_refl) as (_ & _ & H3 & H4).
  split; [apply (H1 "request failed"); reflexivity|].
  split; [apply (H2 "request failed"); reflexivity|].
  split; [apply H3; reflexivity | apply H4; reflexivity].
Defined.

(** A failure to initialise the client reaches the caller as well. *)
Lemma initialisation_failure_propagates (config : Config) (w w0 : World) (e : JsError)
    (issueNumber : Z) (lbl org teamSlug username : string) :
  ensureInitialized config w = (Throw e, w0) ->
  removeLabel config issueNumber lbl w = (Throw e, w0)
  /\ isTeamMember config org teamSlug username w = (Throw e, w0).
Proof.
  intros Hinit. unfold removeLabel, isTeamMember, bind. rewrite Hinit. split; reflexivity.
Qed.

(** ** The analyzer *)

Example daysBetween_floors :
  daysBetween 0 (MS_PER_DAY - 1) = 0 /\ daysBetween 0 MS_PER_DAY = 1 /\ daysBetween 1 0 = -1.
Proof. repeat split. Qed.

Lemma daysBetween_lt (d nowDate k : Z) :
  daysBetween d nowDate < k <-> nowDate - d < k * MS_PER_DAY.
Proof.
  unfold daysBetween. change MS_PER_DAY with 86400000.
  split; intros; Z.div_mod_to_equations; lia.
Qed.

Lemma lastBotPing_last_marked (before after : list GitHubComment) (c : GitHubComment) :
  Js.includes BOT_COMMENT_MARKER (gc_body c) = true ->
  Forall (fun c' => Js.includes BOT_COMMENT_MARKER (gc_body c') = false) after ->
  lastBotPing (before ++ c :: after) = Some (gc_created_at c).
Proof.
  intros Hc Hafter. unfold lastBotPing.
  rewrite rev_app_distr. simpl. rewrite <- app_assoc. simpl.
  apply Forall_rev in Hafter.
  induction Hafter as [|x l Hx _ IH]; simpl.
  - rewrite Hc. reflexivity.
  - rewrite Hx. exact IH.
Qed.


Lemma lastBotPing_snoc (comments : list GitHubComment) (c : GitHubComment) :
  lastBotPing (comments ++ [c]) =
  if Js.includes BOT_COMMENT_MARKER (gc_body c) then Some (gc_created_at c)
  else lastBotPing comments.
Proof.
  unfold lastBotPing. rewrite rev_app_distr. simpl.
  destruct (Js.includes _ _); reflexivity.
Qed.


(** In a listing in the order of creation the last comment with the marker
    is the most recent one. *)
Lemma last_marked_is_most_recent (before after : list GitHubComment) (c c' : GitHubComment) :
  StronglySorted Z.le (map gc_created_at (before ++ c :: after)) ->
  Forall (fun x => Js.includes BOT_COMMENT_MARKER (gc_body x) = false) after ->
  c' ∈ before ++ c :: after ->
  Js.includes BOT_COMMENT_MARKER (gc_body c') = true ->
  gc_created_at c' <= gc_created_at c.
Proof.
  intros Hsorted Hafter Hin Hmarked.
  apply elem_of_app in Hin as [Hin | Hin].
  - rewrite map_app in Hsorted. simpl in Hsorted.
    induction before as [|b rest IH]; [inversion Hin|].
    simpl in Hsorted. apply StronglySorted_inv in Hsorted as [Hrest Hhead].
    apply elem_of_cons in Hin as [-> | Hin]; [|auto].
    rewrite List.Forall_forall in Hhead. apply Hhead.
    apply in_or_app. right. left. reflexivity.
  - apply elem_of_cons in Hin as [-> | Hin]; [lia|].
    rewrite Forall_forall in Hafter. rewrite (Hafter _ Hin) in Hmarked. discriminate.
Qed.

Section Analysis.

Variable config : Config.

Lemma analyze_run (item : SEPItem) (w w1 : World) (comments : list GitHubComment) :
  getComments config (sep_number item) w = (Ok comments, w1) ->
  analyze config item w =
  (Ok (verdict config item (clock (remote w) (calls w)) (lastBotPing comments)), w1).
Proof.
  intros Hc. unfold analyze, analyzeAt, getLastBotPingDate, now, bind, ret.
  rewrite Hc. reflexivity.
Qed.

Lemma verdict_cooldown (item : SEPItem) (nowDate d : Z) :
  nowDate - d < pingCooldownDays config * MS_PER_DAY ->
  verdict config item nowDate (Some d) =
  noAction item (daysBetween (sep_updatedAt item) nowDate)
    (Some ("Recently pinged " +:+ Js.num (daysBetween d nowDate) +:+ " days ago (cooldown: "
           +:+ Js.num (pingCooldownDays config) +:+ " days)")).
Proof.
  intros Hlt. apply daysBetween_lt in Hlt. unfold verdict.
  apply Z.ltb_lt in Hlt. rewrite Hlt. reflexivity.
Qed.

(** C3.  If the last comment of the listing whose body includes the bot
    marker was created fewer than [pingCooldownDays] days before the time
    of the analysis, [analyze] asks neither for a ping nor for a dormant
    marking, whatever the state of the item and however long it has been
    inactive. *)
Theorem cooldown_suppresses_staleness (item : SEPItem) (w w1 : World)
    (before after : list GitHubComment) (c : GitHubComment) :
  getComments config (sep_number item) w = (Ok (before ++ c :: after), w1) ->
  Js.includes BOT_COMMENT_MARKER (gc_body c) = true ->
  Forall (fun c' => Js.includes BOT_COMMENT_MARKER (gc_body c') = false) after ->
  clock (remote w) (calls w) - gc_created_at c < pingCooldownDays config * MS_PER_DAY ->
  exists analysis,
    analyze config item w = (Ok analysis, w1)
    /\ sa_shouldPing analysis = false
    /\ sa_shouldMarkDormant analysis = false.
Proof.
  intros Hc Hm Hafter Hlt. eexists. split.
  - rewrite (analyze_run _ _ _ _ Hc), (lastBotPing_last_marked _ _ _ Hm Hafter).
    rewrite (verdict_cooldown _ _ _ Hlt). reflexivity.
  - split; reflexivity.
Qed.




End Analysis.

Lemma cooldown_suppresses_staleness_witness :
  let config := mockConfig false in
  let nowDate := jan1 + days 200 in
  let comments := [quotingComment (Some "sep-bot") (nowDate - days 3)] in
  let w := world (start config (mockRemote nowDate comments [])) in
  exists analysis,
    analyze config (mockSEPItem (Some proposal) []) w = (Ok analysis, sent (ListComments 123) w)
    /\ sa_shouldPing analysis = false
    /\ sa_shouldMarkDormant analysis = false.
Proof.
  intros config nowDate comments w.
  apply (cooldown_suppresses_staleness config (mockSEPItem (Some proposal) []) w
           (sent (ListComments 123) w) [] []
           (quotingComment (Some "sep-bot") (nowDate - days 3))).
  - reflexivity.
  - reflexivity.
  - constructor.
  - reflexivity.
Defined.




(** The run of the counterexample: the one result is the ping of the
    maintainer, and the comment it has posted carries the marker. *)
Example accountability_ping_within_cooldown :
  let nowDate := jan1 + days 200 in
  let config := mockConfig false in
  let sep := mockSEPItem (Some draft) ["maintainer1"] in
  let comments := [quotingComment (Some "passer-by") (nowDate - days 3)] in
  let st := start config (mockRemote nowDate comments ["maintainer1"]) in
  checkStaleness config sep (world st) = (Ok None, sent (ListComments 123) (world st))
  /\ exists ping body,
       (process config sep st).1 = Ok {| results := [ping]; summaryData := 0%nat |}
       /\ act_type (res_action ping) = PingMaintainer
       /\ act_targetUser (res_action ping) = Some "maintainer1"
       /\ res_success ping = true
       /\ mutations (issued (world st) (world (process config sep st).2))
          = [CreateComment 123 body]
       /\ Js.includes BOT_COMMENT_MARKER body = true.
Proof.
  split; [reflexivity|]. eexists _, _.
  split; [vm_compute; reflexivity|]. repeat split; vm_compute; reflexivity.
Qed.

(** ** A logic of frames for the asynchronous functions *)

Lemma frame_refl (w : World) : frame w w [].
Proof. split; auto. rewrite app_nil_r. reflexivity. Qed.

Lemma frame_trans (w w' w'' : World) (cs cs' : list Call) :
  frame w w' cs -> frame w' w'' cs' -> frame w w'' (cs ++ cs').
Proof.
  intros [] []. split; try congruence; auto.
  rewrite app_assoc. congruence.
Qed.

Lemma frame_issued (w w' : World) (cs : list Call) : frame w w' cs -> issued w w' = cs.
Proof.
  intros [Hc _ _]. unfold issued. rewrite Hc.
  rewrite drop_app_length. reflexivity.
Qed.

Section Rules.
Context {A B : Type}.

Lemma sat_weaken (m : M A) (Q Q' : Result A -> list Call -> Prop) :
  sat m Q -> (forall r cs, Q r cs -> Q' r cs) -> sat m Q'.
Proof. intros Hm HQ w. destruct (Hm w) as (cs & Hf & Hq). eauto. Qed.

Lemma sat_ret (a : A) : sat (ret a) (fun r cs => r = Ok a /\ cs = []).
Proof. intros w. exists []. split; [apply frame_refl | auto]. Qed.

Lemma sat_throw (e : JsError) : sat (@throw World A e) (fun r cs => r = Throw e /\ cs = []).
Proof. intros w. exists []. split; [apply frame_refl | auto]. Qed.

Lemma sat_gets (f : World -> A) : sat (gets f) (fun r cs => is_ok r /\ cs = []).
Proof. intros w. exists []. split; [apply frame_refl | split; [eexists|]; reflexivity]. Qed.

Lemma sat_request (c : Call) (reply : Remote -> list Call -> Result A) :
  sat (request c reply) (fun _ cs => cs = [c]).
Proof. intros w. exists [c]. split; [split; auto | reflexivity]. Qed.

Lemma sat_bind (m : M A) (k : A -> M B) Q1 Q2 (Q : Result B -> list Call -> Prop) :
  sat m Q1 ->
  (forall a, sat (k a) (Q2 a)) ->
  (forall e cs, Q1 (Throw e) cs -> Q (Throw e) cs) ->
  (forall a cs1 r cs2, Q1 (Ok a) cs1 -> Q2 a r cs2 -> Q r (cs1 ++ cs2)) ->
  sat (bind m k) Q.
Proof.
  intros Hm Hk Hthrow Hok w. unfold bind.
  destruct (Hm w) as (cs1 & Hf1 & Hq1). destruct (m w) as [[a|e] w1]; simpl in *.
  - destruct (Hk a w1) as (cs2 & Hf2 & Hq2).
    exists (cs1 ++ cs2). split; [eapply frame_trans; eassumption | eauto].
  - exists cs1. auto.
Qed.

End Rules.

Lemma sat_try_catch {A} (m : M A) (h : JsError -> M A) Q1 Q2
    (Q : Result A -> list Call -> Prop) :
  sat m Q1 ->
  (forall e, sat (h e) (Q2 e)) ->
  (forall a cs, Q1 (Ok a) cs -> Q (Ok a) cs) ->
  (forall e cs1 r cs2, Q1 (Throw e) cs1 -> Q2 e r cs2 -> Q r (cs1 ++ cs2)) ->
  sat (try_catch m h) Q.
Proof.
  intros Hm Hh Hok Hthrow w. unfold try_catch.
  destruct (Hm w) as (cs1 & Hf1 & Hq1). destruct (m w) as [[a|e] w1]; simpl in *.
  - exists cs1. auto.
  - destruct (Hh e w1) as (cs2 & Hf2 & Hq2).
    exists (cs1 ++ cs2). split; [eapply frame_trans; eassumption | eauto].
Qed.

(** A change of the state that sends nothing and stays within the frame. *)
Lemma sat_modify (f : World -> World) :
  (forall w, frame w (f w) []) ->
  sat (modify f) (fun r cs => r = Ok tt /\ cs = []).
Proof. intros Hf w. exists []. split; [apply Hf | auto]. Qed.

Lemma frame_set_initialized (w : World) : frame w (set_initialized true w) [].
Proof. split; simpl; auto. rewrite app_nil_r. reflexivity. Qed.

Lemma frame_set_maintainerSet (s : option (gset string)) (w : World) :
  frame w (set_maintainerSet s w) [].
Proof. split; simpl; auto. rewrite app_nil_r. reflexivity. Qed.

Lemma frame_set_loadAttempted (b : bool) (w : World) : frame w (set_loadAttempted b w) [].
Proof. split; simpl; auto. rewrite app_nil_r. reflexivity. Qed.

(** ** The client *)

Section ClientFrames.

Variable config : Config.

Lemma ensureInitialized_sat :
  sat (ensureInitialized config) (fun _ cs => Forall boot cs).
Proof.
  unfold ensureInitialized.
  eapply sat_bind with (Q2 := fun _ _ cs => Forall boot cs); [apply sat_gets | | |].
  - intros init.
    destruct init; [eapply sat_weaken; [apply sat_ret|]; intros ? ? [_ ->]; constructor|].
    destruct (_ && _).
    + eapply sat_bind with (Q2 := fun _ r cs => r = Ok tt /\ cs = []);
        [apply sat_request | | |].
      * intros ?. apply sat_modify. apply frame_set_initialized.
      * intros e cs ->. repeat constructor.
      * intros a cs1 r cs2 -> [_ ->]. repeat constructor.
    + eapply sat_weaken; [apply sat_throw|]. intros ? ? [_ ->]; constructor.
  - intros e cs [[a Ha] _]. discriminate.
  - intros a cs1 r cs2 [_ ->] H. exact H.
Qed.

Lemma guarded_sat {A} (c : Call) (m : M A) :
  sat m (fun _ cs => cs = [c]) ->
  sat (ensureInitialized config ;;; m) (guarded c).
Proof.
  intros Hm. eapply sat_bind with (Q2 := fun _ _ cs => cs = [c]);
    [apply ensureInitialized_sat | intros ?; apply Hm | |].
  - intros e cs Hpre. exists cs. split; [assumption|]. left. split; [reflexivity|eexists; reflexivity].
  - intros a cs1 r cs2 Hpre ->. exists cs1. auto.
Qed.

Lemma addLabels_sat n lbls : sat (addLabels config n lbls) (guarded (AddLabels n lbls)).
Proof. apply guarded_sat, sat_request. Qed.

Lemma addComment_sat n body : sat (addComment config n body) (guarded (CreateComment n body)).
Proof. apply guarded_sat, sat_request. Qed.

Lemma closeIssue_sat n : sat (closeIssue config n) (guarded (CloseIssue n)).
Proof. apply guarded_sat, sat_request. Qed.

Lemma getComments_sat n : sat (getComments config n) (guarded (ListComments n)).
Proof. apply guarded_sat, sat_request. Qed.

Lemma getTeamMembers_sat org team :
  sat (getTeamMembers config org team) (guarded (ListMembers org team)).
Proof. apply guarded_sat, sat_request. Qed.

Lemma removeLabel_sat n lbl : sat (removeLabel config n lbl) (guarded (RemoveLabel n lbl)).
Proof.
  apply guarded_sat.
  eapply sat_try_catch with (Q2 := fun _ _ cs => cs = []); [apply sat_request | | |].
  - intros e.
    destruct (isHttpError e 404);
      (eapply sat_weaken; [first [apply sat_ret | apply sat_throw]|]); intros ? ? [_ ->]; reflexivity.
  - auto.
  - intros e cs1 r cs2 -> ->. reflexivity.
Qed.

End ClientFrames.

(** ** The maintainer resolver *)

Lemma boot_resolverCall (cs : list Call) : Forall boot cs -> Forall resolverCall cs.
Proof. intros H. eapply Forall_impl; [exact H|]. intros c ->. exact I. Qed.

Lemma guarded_Forall {A} (P : Call -> Prop) (c : Call) (r : Result A) (cs : list Call) :
  P GetRepoInstallation -> P c -> guarded c r cs -> Forall P cs.
Proof.
  intros Hboot Hc (pre & Hpre & [[-> _] | ->]).
  - eapply Forall_impl; [exact Hpre|]. intros ? ->. exact Hboot.
  - apply Forall_app. split; [|repeat constructor; exact Hc].
    eapply Forall_impl; [exact Hpre|]. intros ? ->. exact Hboot.
Qed.

(** Rules for a postcondition that constrains every request sent and,
    separately, the result. *)
Section Uniform.
Context {A B : Type} (P : Call -> Prop).

Lemma sat_bind_all (m : M A) (k : A -> M B) (R0 : Result A -> Prop)
    (R : Result B -> Prop) :
  sat m (fun r cs => R0 r /\ Forall P cs) ->
  (forall a, sat (k a) (fun r cs => R r /\ Forall P cs)) ->
  (forall e, R0 (Throw e) -> R (Throw e)) ->
  sat (bind m k) (fun r cs => R r /\ Forall P cs).
Proof.
  intros Hm Hk HR.
  eapply sat_bind with (Q2 := fun _ r cs => R r /\ Forall P cs); [exact Hm | exact Hk | |].
  - intros e cs [He Hcs]. auto.
  - intros a cs1 r cs2 [_ H1] [Hr H2]. split; [assumption|]. apply Forall_app. auto.
Qed.

Lemma sat_ret_all (a : B) (R : Result B -> Prop) :
  R (Ok a) -> sat (ret a) (fun r cs => R r /\ Forall P cs).
Proof.
  intros HR. eapply sat_weaken; [apply sat_ret|]. intros r cs [-> ->]. split; [assumption|constructor].
Qed.

Lemma sat_throw_all (e : JsError) (R : Result B -> Prop) :
  R (Throw e) -> sat (throw e) (fun r cs => R r /\ Forall P cs).
Proof.
  intros HR. eapply sat_weaken; [apply sat_throw|]. intros r cs [-> ->]. split; [assumption|constructor].
Qed.

End Uniform.

Lemma sat_try_all {A} (P : Call -> Prop) (m : M A) (h : JsError -> M A)
    (R0 R : Result A -> Prop) :
  sat m (fun r cs => R0 r /\ Forall P cs) ->
  (forall e, sat (h e) (fun r cs => R r /\ Forall P cs)) ->
  (forall a, R0 (Ok a) -> R (Ok a)) ->
  sat (try_catch m h) (fun r cs => R r /\ Forall P cs).
Proof.
  intros Hm Hh HR.
  eapply sat_try_catch with (Q2 := fun _ r cs => R r /\ Forall P cs); [exact Hm | exact Hh | |].
  - intros a cs [Ha Hcs]. auto.
  - intros e cs1 r cs2 [_ H1] [Hr H2]. split; [assumption|]. apply Forall_app. auto.
Qed.

Lemma sat_any_result {A} (P : Call -> Prop) (m : M A) :
  sat m (fun _ cs => Forall P cs) -> sat m (fun r cs => True /\ Forall P cs).
Proof. intros H. eapply sat_weaken; [exact H|]. auto. Qed.

Section ResolverFrames.

Variable config : Config.

Lemma getTeamMembers_resolver org team :
  sat (getTeamMembers config org team) (fun _ cs => Forall resolverCall cs).
Proof.
  eapply sat_weaken; [apply getTeamMembers_sat|].
  intros r cs. apply guarded_Forall; exact I.
Qed.

Lemma loadTeams_sat (teams : list string) (allMembers : gset string) :
  sat (loadTeams config teams allMembers) (fun r cs => is_ok r /\ Forall resolverCall cs).
Proof.
  revert allMembers. induction teams as [|team rest IH]; intros allMembers; simpl.
  - apply sat_ret_all. eexists; reflexivity.
  - apply sat_bind_all with (R0 := is_ok); [| intros acc; apply IH |].
    + eapply sat_try_all with (R0 := fun _ => True).
      * apply sat_bind_all with (R0 := fun _ => True);
          [apply sat_any_result, getTeamMembers_resolver | | auto].
        intros members. apply sat_ret_all. exact I.
      * intros e. apply sat_ret_all. eexists; reflexivity.
      * intros a _. eexists; reflexivity.
    + intros e [a Ha]. discriminate.
Qed.

Lemma sat_gets_all {A B} (f : World -> A) (k : A -> M B) (P : Call -> Prop)
    (R : Result B -> Prop) :
  (forall a, sat (k a) (fun r cs => R r /\ Forall P cs)) ->
  sat (bind (gets f) k) (fun r cs => R r /\ Forall P cs).
Proof.
  intros Hk. apply sat_bind_all with (R0 := is_ok); [|exact Hk|].
  - eapply sat_weaken; [apply sat_gets|]. intros r cs [Hr ->]. split; [assumption|constructor].
  - intros e [a Ha]. discriminate.
Qed.

Lemma sat_modify_all {B} (f : World -> World) (k : M B) (P : Call -> Prop)
    (R : Result B -> Prop) :
  (forall w, frame w (f w) []) ->
  sat k (fun r cs => R r /\ Forall P cs) ->
  sat (bind (modify f) (fun _ => k)) (fun r cs => R r /\ Forall P cs).
Proof.
  intros Hf Hk. apply sat_bind_all with (R0 := is_ok); [|intros _; exact Hk|].
  - eapply sat_weaken; [apply sat_modify, Hf|].
    intros r cs [-> ->]. split; [eexists; reflexivity|constructor].
  - intros e [a Ha]. discriminate.
Qed.

Lemma ensureSponsorsLoaded_sat :
  sat (ensureSponsorsLoaded config) (fun r cs => is_ok r /\ Forall resolverCall cs).
Proof.
  unfold ensureSponsorsLoaded. apply sat_gets_all. intros [s|].
  - apply sat_ret_all. eexists; reflexivity.
  - apply sat_gets_all. intros [|].
    + apply sat_ret_all. eexists; reflexivity.
    + apply sat_modify_all; [apply frame_set_loadAttempted|].
      eapply sat_try_all with (R0 := fun _ => True).
      * apply sat_bind_all with (R0 := is_ok); [apply loadTeams_sat | | auto].
        intros allMembers. case_bool_decide.
        -- apply sat_modify_all; [apply frame_set_maintainerSet|]. apply sat_ret_all. exact I.
        -- apply sat_throw_all. exact I.
      * intros e. apply sat_modify_all; [apply frame_set_maintainerSet|].
        apply sat_ret_all. eexists; reflexivity.
      * intros a _. eexists; reflexivity.
Qed.

Lemma canSponsor_sat (username : string) :
  sat (canSponsor config username) (fun r cs => is_ok r /\ Forall resolverCall cs).
Proof.
  unfold canSponsor. apply sat_bind_all with (R0 := is_ok); [apply ensureSponsorsLoaded_sat | |].
  - intros sponsors. apply sat_ret_all. eexists; reflexivity.
  - intros e [a Ha]. discriminate.
Qed.

Lemma getSponsor_sat (assignees : list string) :
  sat (getSponsor config assignees) (fun r cs => is_ok r /\ Forall resolverCall cs).
Proof.
  induction assignees as [|assignee rest IH]; simpl.
  - apply sat_ret_all. eexists; reflexivity.
  - apply sat_bind_all with (R0 := is_ok); [apply canSponsor_sat | |].
    + intros [|]; [apply sat_ret_all; eexists; reflexivity | exact IH].
    + intros e [a Ha]. discriminate.
Qed.

Lemma ensureSponsorsLoaded_stable (w : World) :
  exists w',
    ensureSponsorsLoaded config w = (Ok (sponsors config w), w')
    /\ ensureSponsorsLoaded config w' = (Ok (sponsors config w), w').
Proof.
  unfold sponsors, ensureSponsorsLoaded.
  generalize (loadTeams config SPONSOR_TEAMS ∅). intros load.
  unfold bind, gets, modify, try_catch, ret, throw.
  destruct (maintainerSet w) as [s|] eqn:Hset; simpl.
  { exists w. rewrite Hset. auto. }
  destruct (loadAttempted w) eqn:Hatt; simpl.
  { exists w. rewrite Hset, Hatt. auto. }
  destruct (load (set_loadAttempted true w)) as [[allMembers|e] w1].
  - case_bool_decide; simpl; eexists; split; reflexivity.
  - simpl. eexists; split; reflexivity.
Qed.

Lemma canSponsor_run (username : string) (w : World) :
  exists w',
    canSponsor config username w = (Ok (bool_decide (username ∈ sponsors config w)), w')
    /\ sponsors config w' = sponsors config w.
Proof.
  destruct (ensureSponsorsLoaded_stable w) as (w' & H1 & H2).
  exists w'. unfold canSponsor, bind. rewrite H1. split; [reflexivity|].
  unfold sponsors at 1. rewrite H2. reflexivity.
Qed.

Lemma getSponsor_run (assignees : list string) (w : World) :
  exists w',
    getSponsor config assignees w =
    (Ok (List.find (fun a => bool_decide (a ∈ sponsors config w)) assignees), w')
    /\ sponsors config w' = sponsors config w.
Proof.
  revert w. induction assignees as [|assignee rest IH]; intros w; simpl.
  - exists w. auto.
  - destruct (canSponsor_run assignee w) as (w1 & Hrun & Hsame).
    unfold bind. rewrite Hrun. case_bool_decide.
    + exists w1. auto.
    + destruct (IH w1) as (w2 & Hrest & Hsame2). exists w2.
      rewrite Hrest, Hsame. split; [reflexivity | congruence].
Qed.

End ResolverFrames.

(** ** The handlers *)

Lemma mutations_app (cs1 cs2 : list Call) :
  mutations (cs1 ++ cs2) = mutations cs1 ++ mutations cs2.
Proof. apply List.filter_app. Qed.

Lemma mutations_boot (pre : list Call) : Forall boot pre -> mutations pre = [].
Proof. induction 1 as [|c l -> _ IH]; [reflexivity | exact IH]. Qed.

Lemma mutations_resolver (cs : list Call) : Forall resolverCall cs -> mutations cs = [].
Proof.
  induction 1 as [|c l Hc _ IH]; [reflexivity|].
  destruct c; try contradiction; exact IH.
Qed.

Lemma mutations_none (cs : list Call) :
  mutations cs = [] -> Forall (fun c => isMutation c = false) cs.
Proof.
  induction cs as [|c l IH]; [constructor|]. unfold mutations. simpl.
  destruct (isMutation c) eqn:Hc; [discriminate|]. constructor; auto.
Qed.

Lemma guarded_mutations {A} (c : Call) (r : Result A) (cs : list Call) :
  isMutation c = true ->
  guarded c r cs ->
  (mutations cs = [] /\ is_throw r) \/ mutations cs = [c].
Proof.
  intros Hc (pre & Hpre & [[-> Hr] | ->]).
  - left. split; [apply mutations_boot, Hpre | exact Hr].
  - right. rewrite mutations_app, (mutations_boot _ Hpre). unfold mutations. simpl.
    rewrite Hc. reflexivity.
Qed.

Lemma follows_step {A B} (c : Call) (rest : list Call) (m : M A) (k : A -> M B) :
  isMutation c = true ->
  sat m (guarded c) ->
  (forall a, sat (k a) (follows rest)) ->
  sat (bind m k) (follows (c :: rest)).
Proof.
  intros Hc Hm Hk.
  eapply sat_bind with (Q2 := fun _ => follows rest); [exact Hm | exact Hk | |].
  - intros e cs Hg. split; [|intros [a Ha]; discriminate].
    destruct (guarded_mutations _ _ _ Hc Hg) as [[-> _] | ->].
    + apply prefix_nil.
    + apply prefix_cons, prefix_nil.
  - intros a cs1 r cs2 Hg [Hpre Hall].
    destruct (guarded_mutations _ _ _ Hc Hg) as [[_ [e He]] | H1]; [discriminate|].
    unfold follows. rewrite mutations_app, H1. simpl. split.
    + apply prefix_cons, Hpre.
    + intros Hr. rewrite (Hall Hr). reflexivity.
Qed.

Lemma follows_ret {A} (a : A) : sat (ret a) (follows []).
Proof.
  eapply sat_weaken; [apply sat_ret|]. intros r cs [-> ->]. split; [apply prefix_nil | auto].
Qed.

Lemma follows_skip {A B} (planned : list Call) (a : A) (k : A -> M B) :
  sat (k a) (follows planned) -> sat (bind (ret a) k) (follows planned).
Proof. intros Hk w. exact (Hk w). Qed.

Section Handlers.

Variable config : Config.

(** *** Dry runs *)

Lemma executeTransition_dry (item : SEPItem) (toState : SEPState) (sponsor : string)
    (w : World) :
  exists r,
    executeTransition config item toState sponsor true w = (Ok r, w)
    /\ res_success r = isValidTransition (sep_state item) toState.
Proof.
  unfold executeTransition, validateTransition.
  destruct (sep_state item) as [s|]; simpl.
  - destruct (includes_state (STATE_TRANSITIONS s) toState); simpl; eexists; split; reflexivity.
  - eexists; split; reflexivity.
Qed.

Lemma markDormant_dry (item : SEPItem) (days : Z) (shouldClose : bool) (w : World) :
  exists r,
    markDormant config item days shouldClose true w = (Ok r, w)
    /\ res_success r = isValidTransition (sep_state item) dormant.
Proof.
  unfold markDormant.
  destruct (sep_state item) as [s|]; simpl.
  - destruct (includes_state (STATE_TRANSITIONS s) dormant); simpl; eexists; split; reflexivity.
  - eexists; split; reflexivity.
Qed.

Lemma getSponsor_quiet (assignees : list string) (w : World) :
  exists w',
    getSponsor config assignees w =
    (Ok (List.find (fun a => bool_decide (a ∈ sponsors config w)) assignees), w')
    /\ sponsors config w' = sponsors config w
    /\ Forall resolverCall (issued w w').
Proof.
  destruct (getSponsor_run config assignees w) as (w' & Hrun & Hsame).
  destruct (getSponsor_sat config assignees w) as (cs & Hframe & _ & Hcs).
  rewrite Hrun in Hframe. simpl in Hframe.
  exists w'. rewrite (frame_issued _ _ _ Hframe). auto.
Qed.

Lemma executePing_dry (analysis : StaleAnalysis) (w : World) :
  exists r w',
    executePing config analysis true w = (Ok r, w')
    /\ Forall (fun c => isMutation c = false) (issued w w')
    /\ res_success r =
       if sa_shouldMarkDormant analysis
       then isValidTransition (sep_state (sa_item analysis)) dormant
       else match sa_pingTarget analysis with
            | Some target_maintainer =>
                Js.truthy (List.find (fun a => bool_decide (a ∈ sponsors config w))
                                     (sep_assignees (sa_item analysis)))
            | _ => true
            end.
Proof.
  assert (Hnone : forall w0 : World, Forall (fun c => isMutation c = false) (issued w0 w0)).
  { intros w0. unfold issued. rewrite drop_all. constructor. }
  unfold executePing. destruct (sa_shouldMarkDormant analysis).
  { destruct (markDormant_dry (sa_item analysis) (sa_daysSinceActivity analysis)
                (sa_shouldClose analysis) w) as (r & Hr & Hs).
    exists r, w. auto. }
  destruct (sa_pingTarget analysis) as [[| |]|].
  - eexists _, w. split; [reflexivity|]. auto.
  - destruct (getSponsor_quiet (sep_assignees (sa_item analysis)) w) as (w' & Hrun & _ & Hcs).
    unfold pingSponsor, bind. rewrite Hrun.
    destruct (Js.truthy _); simpl; eexists _, w';
      (split; [reflexivity|]; split; [apply mutations_none, mutations_resolver, Hcs | reflexivity]).
  - destruct (getSponsor_quiet (sep_assignees (sa_item analysis)) w) as (w' & Hrun & _ & Hcs).
    unfold pingMaintainer, bind. rewrite Hrun.
    destruct (Js.truthy _); simpl; eexists _, w';
      (split; [reflexivity|]; split; [apply mutations_none, mutations_resolver, Hcs | reflexivity]).
  - eexists _, w. split; [reflexivity|]. auto.
Qed.

End Handlers.

Section Dormant.

Variable config : Config.

Lemma markDormant_follows (item : SEPItem) (s : SEPState) (days : Z) (shouldClose : bool) :
  s = proposal \/ s = draft ->
  sep_state item = Some s ->
  sat (markDormant config item days shouldClose false)
      (fun r cs =>
         exists res, r = Ok res
           /\ mutations cs `prefix_of` dormantPlan item s days shouldClose
           /\ (res_success res = true -> mutations cs = dormantPlan item s days shouldClose)).
Proof.
  intros Hs Hstate. unfold markDormant. rewrite Hstate.
  assert (Hlegal : includes_state (STATE_TRANSITIONS s) dormant = true)
    by (destruct Hs as [-> | ->]; reflexivity).
  assert (Hne : bool_decide (s <> dormant) = true)
    by (destruct Hs as [-> | ->]; reflexivity).
  rewrite Hlegal, Hne. simpl.
  eapply sat_try_catch with
    (Q1 := follows (dormantPlan item s days shouldClose))
    (Q2 := fun _ r cs => exists res, r = Ok res /\ res_success res = false /\ cs = []).
  - unfold dormantPlan. simpl.
    apply follows_step; [reflexivity | apply removeLabel_sat |]. intros _.
    apply follows_step; [reflexivity | apply addLabels_sat |]. intros _.
    apply follows_step; [reflexivity | apply addComment_sat |]. intros url.
    destruct shouldClose.
    + apply follows_step; [reflexivity | apply closeIssue_sat |]. intros _.
      apply follows_ret.
    + apply follows_skip, follows_ret.
  - intros e. eapply sat_weaken; [apply sat_ret|]. intros r cs [-> ->]. eauto.
  - intros a cs [Hpre Hall]. exists a. split; [reflexivity|]. split; [exact Hpre|].
    intros _. apply Hall. eexists; reflexivity.
  - intros e cs1 r cs2 [Hpre _] (res & -> & Hfail & ->). exists res.
    rewrite app_nil_r. split; [reflexivity|]. split; [exact Hpre|].
    rewrite Hfail. discriminate.
Qed.

Lemma ensureInitialized_ready (w : World) :
  initialized w = true -> ensureInitialized config w = (Ok tt, w).
Proof. intros H. unfold ensureInitialized, bind, gets. rewrite H. reflexivity. Qed.

Lemma markDormant_succeeds (item : SEPItem) (s : SEPState) (days : Z) (shouldClose : bool)
    (w : World) :
  s = proposal \/ s = draft ->
  sep_state item = Some s ->
  initialized w = true ->
  accepts (remote w) item s days ->
  exists res w',
    markDormant config item days shouldClose false w = (Ok res, w')
    /\ res_success res = true.
Proof.
  intros Hs Hstate Hinit (Hrm & Hadd & Hcomment & Hclose).
  unfold markDormant. rewrite Hstate.
  assert (Hlegal : includes_state (STATE_TRANSITIONS s) dormant = true)
    by (destruct Hs as [-> | ->]; reflexivity).
  assert (Hne : bool_decide (s <> dormant) = true)
    by (destruct Hs as [-> | ->]; reflexivity).
  rewrite Hlegal, Hne. simpl.
  unfold try_catch, bind at 1.
  rewrite (removeLabel_reply config w w _ _ (ensureInitialized_ready w Hinit)), Hrm.
  unfold bind at 1. unfold addLabels, bind at 1.
  rewrite ensureInitialized_ready by exact Hinit.
  unfold request at 1. simpl. rewrite Hadd.
  unfold bind at 1. unfold addComment, bind at 1.
  rewrite ensureInitialized_ready by exact Hinit.
  unfold request at 1. simpl.
  destruct (Hcomment (calls w ++ [RemoveLabel (sep_number item) (label s)]
                      ++ [AddLabels (sep_number item) ["dormant"]])) as [url Hurl].
  rewrite <- app_assoc. rewrite Hurl.
  destruct shouldClose.
  - unfold bind at 1. unfold closeIssue, bind at 1.
    rewrite ensureInitialized_ready by exact Hinit.
    unfold request at 1. simpl. rewrite Hclose. eexists _, _. split; reflexivity.
  - eexists _, _. split; reflexivity.
Qed.

End Dormant.

(** The unit tests of the handlers and of the templates, replayed. *)
Example dormant_from_final_message :
  let config := mockConfig false in
  (executePing config (dormantVerdict (mockSEPItem (Some final) []) 200 true) false
     (world (start config (mockRemote (jan1 + days 200) [] [])))).1
  = Ok (PingHandler.failed
          (createAction MarkDormant (mockSEPItem (Some final) []) false
             "Marking dormant after 200 days of inactivity" None)
          "Invalid transition: final â†’ dormant. Valid targets: ").
Proof. reflexivity. Qed.

Example templates_carry_the_marker :
  let item := mockSEPItem (Some proposal) ["maintainer1"] in
  forallb (Js.includes BOT_COMMENT_MARKER)
    [ createTransitionComment item (Some proposal) (Some draft) "sponsor1";
      createAuthorPingComment item 90;
      createSponsorPingComment item "sponsor1" 90;
      createMaintainerPingComment item "maintainer1" 20;
      createDormantComment item 180;
      createNeedsSponsorComment item 90;
      createAcceptedReminderComment item 30 ] = true
  /\ Js.includes "none → proposal"
       (createTransitionComment item None (Some proposal) "sponsor1") = true
  /\ Js.includes "@sponsor1" (createSponsorPingComment item "sponsor1" 90) = true
  /\ Js.includes "90 days" (createAuthorPingComment item 90) = true
  /\ Js.includes "can be reopened" (createDormantComment item 180) = true.
Proof. vm_compute. repeat split. Qed.

Section HandlerProperties.

Variable config : Config.

(** C2.  A dormant marking outside a dry run: from [final] it fails and
    leaves the state as it was, so that nothing was requested; from
    [proposal] or [draft] the mutations sent are an initial part of
    "remove the state label, add dormant, comment, close if asked", all of
    it when the marking succeeded, and it succeeds on an initialised
    client whose remote accepts these requests. *)
Theorem dormant_marking_validates_then_orders (analysis : StaleAnalysis) (w : World) :
  sa_shouldMarkDormant analysis = true ->
  let item := sa_item analysis in
  let days := sa_daysSinceActivity analysis in
  (sep_state item = Some final ->
     exists r, executePing config analysis false w = (Ok r, w) /\ res_success r = false)
  /\ (forall s, s = proposal \/ s = draft -> sep_state item = Some s ->
      let plan := dormantPlan item s days (sa_shouldClose analysis) in
      exists r w',
        executePing config analysis false w = (Ok r, w')
        /\ mutations (issued w w') `prefix_of` plan
        /\ (res_success r = true -> mutations (issued w w') = plan)
        /\ (initialized w = true -> accepts (remote w) item s days -> res_success r = true)).
Proof.
  intros Hdormant item days. unfold executePing. rewrite Hdormant. fold item days. split.
  - intros Hfinal. unfold markDormant. rewrite Hfinal. simpl. eexists. split; reflexivity.
  - intros s Hs Hstate.
    destruct (markDormant_follows config item s days (sa_shouldClose analysis) Hs Hstate w)
      as (cs & Hframe & res & Hres & Hprefix & Hall).
    destruct (markDormant config item days (sa_shouldClose analysis) false w)
      as [r w'] eqn:Hrun.
    simpl in Hframe, Hres. subst r. exists res, w'.
    rewrite (frame_issued _ _ _ Hframe). repeat split; auto.
    intros Hinit Haccepts.
    destruct (markDormant_succeeds config item s days (sa_shouldClose analysis) w
                Hs Hstate Hinit Haccepts) as (res' & w'' & Hrun' & Hok).
    rewrite Hrun in Hrun'. injection Hrun' as <- <-. exact Hok.
Qed.

(** C6, amended.  In a dry run [executeTransition] sends nothing and
    [executePing] sends no mutation; both return a result, whose success
    flag is that of the validation of the edge (and, for a ping of the
    maintainer, that a sponsor was found among the assignees). *)
Theorem dry_run_sends_no_mutation :
  (forall (item : SEPItem) (toState : SEPState) (sponsor : string) (w : World),
     exists r,
       executeTransition config item toState sponsor true w = (Ok r, w)
       /\ res_success r = isValidTransition (sep_state item) toState)
  /\ (forall (analysis : StaleAnalysis) (w : World),
     exists r w',
       executePing config analysis true w = (Ok r, w')
       /\ Forall (fun c => isMutation c = false) (issued w w')
       /\ res_success r =
          if sa_shouldMarkDormant analysis
          then isValidTransition (sep_state (sa_item analysis)) dormant
          else match sa_pingTarget analysis with
               | Some target_maintainer =>
                   Js.truthy (List.find (fun a => bool_decide (a ∈ sponsors config w))
                                        (sep_assignees (sa_item analysis)))
               | _ => true
               end).
Proof. split; [apply executeTransition_dry | apply executePing_dry]. Qed.

End HandlerProperties.

Lemma dormant_marking_validates_then_orders_witness :
  let config := mockConfig false in
  let w := world (start config (mockRemote (jan1 + days 200) [] [])) in
  (exists r,
     executePing config (dormantVerdict (mockSEPItem (Some final) []) 200 true) false w
     = (Ok r, w) /\ res_success r = false)
  /\ (exists r w',
        executePing config (dormantVerdict (mockSEPItem (Some proposal) []) 200 true) false w
        = (Ok r, w')
        /\ res_success r = true
        /\ mutations (issued w w') =
           dormantPlan (mockSEPItem (Some proposal) []) proposal 200 true).
Proof.
  intros config w. split.
  - apply (dormant_marking_validates_then_orders config
             (dormantVerdict (mockSEPItem (Some final) []) 200 true) w); reflexivity.
  - destruct (dormant_marking_validates_then_orders config
                (dormantVerdict (mockSEPItem (Some proposal) []) 200 true) w eq_refl)
      as [_ Hlegal].
    destruct (Hlegal proposal (or_introl eq_refl) eq_refl) as (r & w' & Hrun & _ & Hall & Hok).
    exists r, w'. split; [exact Hrun|].
    assert (Hsuccess : res_success r = true).
    { apply Hok; [reflexivity|]. repeat split; intros h; try reflexivity.
      eexists; reflexivity. }
    split; [exact Hsuccess | exact (Hall Hsuccess)].
Defined.

(** C6, as stated, fails: a dry run on an edge the table does not have
    reports a failure. *)
Lemma dry_run_reports_invalid_transition :
  ~ (forall (config : Config) (item : SEPItem) (toState : SEPState) (sponsor : string)
            (w : World),
       exists r w', executeTransition config item toState sponsor true w = (Ok r, w')
                    /\ res_success r = true).
Proof.
  intros H.
  destruct (H (mockConfig true) (mockSEPItem (Some final) []) draft "sponsor1"
              (world (start (mockConfig true) (mockRemote jan1 [] []))))
    as (r & w' & Hrun & Hok).
  vm_compute in Hrun. injection Hrun as <- _. discriminate.
Qed.

(** ** The processor *)

Lemma follows_step_good {A B} (good : B -> Prop) (c : Call) (rest : list Call)
    (m : M A) (k : A -> M B) :
  isMutation c = true ->
  sat m (guarded c) ->
  (forall a, sat (k a) (fun r cs => follows rest r cs /\ forall b, r = Ok b -> good b)) ->
  sat (bind m k) (fun r cs => follows (c :: rest) r cs /\ forall b, r = Ok b -> good b).
Proof.
  intros Hc Hm Hk.
  eapply sat_bind
    with (Q2 := fun _ r cs => follows rest r cs /\ forall b, r = Ok b -> good b);
    [exact Hm | exact Hk | |].
  - intros e cs Hg. split; [|intros b; discriminate].
    split; [|intros [a Ha]; discriminate].
    destruct (guarded_mutations _ _ _ Hc Hg) as [[-> _] | ->].
    + apply prefix_nil.
    + apply prefix_cons, prefix_nil.
  - intros a cs1 r cs2 Hg [[Hpre Hall] Hgood]. split; [|exact Hgood].
    destruct (guarded_mutations _ _ _ Hc Hg) as [[_ [e He]] | H1]; [discriminate|].
    unfold follows. rewrite mutations_app, H1. simpl. split.
    + apply prefix_cons, Hpre.
    + intros Hr. now rewrite (Hall Hr).
Qed.

Lemma follows_ret_good {B} (good : B -> Prop) (b : B) :
  good b -> sat (ret b) (fun r cs => follows [] r cs /\ forall b', r = Ok b' -> good b').
Proof.
  intros Hb. eapply sat_weaken; [apply sat_ret|]. intros r cs [-> ->].
  split; [split; [apply prefix_nil | auto]|]. now intros b' [= <-].
Qed.

Section TransitionOrder.

Variable config : Config.

Lemma executeTransition_follows (item : SEPItem) (toState : SEPState) (sponsor : string) :
  isValidTransition (sep_state item) toState = true ->
  let n := sep_number item in
  let plan :=
    match sep_state item with Some s => [RemoveLabel n (label s)] | None => [] end
    ++ [ AddLabels n [label toState];
         CreateComment n
           (createTransitionComment item (sep_state item) (Some toState) sponsor) ] in
  sat (executeTransition config item toState sponsor false)
      (fun r cs =>
         exists res, r = Ok res
           /\ mutations cs `prefix_of` plan
           /\ (res_success res = true ->
               mutations cs = plan /\ is_Some (res_commentUrl res))).
Proof.
  intros Hvalid n plan. unfold executeTransition.
  assert (Hv : negb (fst (match sep_state item with
                          | Some _ => validateTransition (sep_state item) toState
                          | None => (true, "")
                          end)) = false).
  { destruct (sep_state item) as [s|] eqn:Es; [|reflexivity].
    unfold validateTransition. now rewrite Hvalid. }
  rewrite Hv.
  set (good := fun res : ActionResult =>
                 res_success res = true /\ is_Some (res_commentUrl res)).
  eapply sat_try_catch with
    (Q1 := fun r cs => follows plan r cs /\ forall res, r = Ok res -> good res)
    (Q2 := fun _ r cs => exists res, r = Ok res /\ res_success res = false /\ cs = []).
  - assert (Htail : forall a : unit,
               sat ((fun _ : unit =>
                       addLabels config (sep_number item) [label toState] ;;;
                       url <- addComment config (sep_number item)
                                (createTransitionComment item (sep_state item)
                                   (Some toState) sponsor) ;;
                       ret {| res_action :=
                                {| act_type := Transition; act_item := item;
                                   act_targetUser := Some sponsor;
                                   act_fromState := sep_state item;
                                   act_toState := Some toState;
                                   act_reason := "Transitioning from "
                                                 +:+ stateOrNone (sep_state item)
                                                 +:+ " to " +:+ label toState;
                                   act_dryRun := false |};
                              res_success := true; res_error := None;
                              res_commentUrl := Some url |}) a)
                   (fun r cs =>
                      follows [AddLabels n [label toState];
                               CreateComment n
                                 (createTransitionComment item (sep_state item)
                                    (Some toState) sponsor)] r cs
                      /\ forall res, r = Ok res -> good res)).
    { intros _. simpl.
      apply follows_step_good; [reflexivity | apply addLabels_sat|]. intros _.
      apply follows_step_good; [reflexivity | apply addComment_sat|]. intros url.
      apply follows_ret_good. split; simpl; eauto. }
    subst plan. destruct (sep_state item) as [s|]; simpl.
    + apply follows_step_good; [reflexivity | apply removeLabel_sat | exact Htail].
    + intros w. exact (Htail tt w).
  - intros e. eapply sat_weaken; [apply sat_ret|]. intros r cs [-> ->]. eauto.
  - intros a cs [[Hpre Hall] Hok]. exists a. split; [reflexivity|]. split; [exact Hpre|].
    intros _. destruct (Hok a eq_refl) as [_ Hurl].
    split; [apply Hall; now eexists | exact Hurl].
  - intros e cs1 r cs2 [[Hpre _] _] (res & -> & Hfail & ->). exists res.
    rewrite app_nil_r. split; [reflexivity|]. split; [exact Hpre|].
    rewrite Hfail. discriminate.
Qed.

End TransitionOrder.

Section AutoTransition.

Variable config : Config.

Lemma resolver_transitionCall (sep : SEPItem) (cs : list Call) :
  Forall resolverCall cs -> Forall (transitionCall sep) cs.
Proof.
  intros H. eapply Forall_impl; [exact H|]. intros c. destruct c; simpl; tauto.
Qed.

Lemma executeTransition_toDraft (sep : SEPItem) (sponsor : string) (dry : bool) :
  sep_state sep = Some proposal ->
  sat (executeTransition config sep draft sponsor dry)
      (fun r cs =>
         (exists tr, r = Ok tr
            /\ act_type (res_action tr) = Transition
            /\ act_fromState (res_action tr) = Some proposal
            /\ act_toState (res_action tr) = Some draft
            /\ act_targetUser (res_action tr) = Some sponsor
            /\ (dry = true -> res_success tr = true))
         /\ Forall (transitionCall sep) cs).
Proof.
  intros Hstate. unfold executeTransition. rewrite Hstate. simpl.
  destruct dry.
  - apply sat_ret_all. eexists. repeat split; reflexivity.
  - eapply sat_try_all with
      (R0 := fun r => forall tr, r = Ok tr ->
                act_type (res_action tr) = Transition
                /\ act_fromState (res_action tr) = Some proposal
                /\ act_toState (res_action tr) = Some draft
                /\ act_targetUser (res_action tr) = Some sponsor).
    + apply sat_bind_all with (R0 := fun _ => True).
      * apply sat_any_result. eapply sat_weaken; [apply removeLabel_sat|].
        intros r cs. apply guarded_Forall; simpl; auto.
      * intros _. apply sat_bind_all with (R0 := fun _ => True).
        -- apply sat_any_result. eapply sat_weaken; [apply addLabels_sat|].
           intros r cs. apply guarded_Forall; simpl; auto.
        -- intros _. apply sat_bind_all with (R0 := fun _ => True).
           ++ apply sat_any_result. eapply sat_weaken; [apply addComment_sat|].
              intros r cs. apply guarded_Forall; simpl; eauto.
           ++ intros url. apply sat_ret_all. intros tr [= <-]. repeat split; reflexivity.
           ++ intros e _ tr. discriminate.
        -- intros e _ tr. discriminate.
      * intros e _ tr. discriminate.
    + intros e. apply sat_ret_all. eexists. split; [reflexivity|].
      repeat split; try reflexivity. discriminate.
    + intros tr Htr. exists tr. destruct (Htr tr eq_refl) as (? & ? & ? & ?).
      repeat split; auto. discriminate.
Qed.

(** On an initialised client whose remote accepts the three requests, the
    transition of a proposal to draft succeeds. *)
Lemma executeTransition_succeeds (sep : SEPItem) (sponsor : string) (w : World) :
  sep_state sep = Some proposal ->
  initialized w = true ->
  acceptsPromotion (remote w) sep sponsor ->
  exists res w',
    executeTransition config sep draft sponsor false w = (Ok res, w')
    /\ res_success res = true.
Proof.
  intros Hstate Hinit (Hrm & Hadd & Hcomment).
  unfold executeTransition. rewrite Hstate. simpl.
  unfold try_catch, bind at 1.
  rewrite (removeLabel_reply config w w _ _ (ensureInitialized_ready config w Hinit)), Hrm.
  unfold bind at 1. unfold addLabels, bind at 1.
  rewrite ensureInitialized_ready by exact Hinit.
  unfold request at 1. simpl. rewrite Hadd.
  unfold bind at 1. unfold addComment, bind at 1.
  rewrite ensureInitialized_ready by exact Hinit.
  unfold request at 1. simpl.
  destruct (Hcomment (calls w ++ [RemoveLabel (sep_number sep) "proposal"]
                      ++ [AddLabels (sep_number sep) ["draft"]])) as [url Hurl].
  rewrite <- app_assoc. rewrite Hurl.
  eexists _, _. split; reflexivity.
Qed.

Lemma getSponsor_framed (assignees : list string) (w : World) :
  exists w' cs,
    getSponsor config assignees w =
    (Ok (List.find (fun a => bool_decide (a ∈ sponsors config w)) assignees), w')
    /\ frame w w' cs
    /\ Forall resolverCall cs.
Proof.
  destruct (getSponsor_run config assignees w) as (w' & Hrun & Hsame).
  destruct (getSponsor_sat config assignees w) as (cs & Hframe & _ & Hcs).
  rewrite Hrun in Hframe. simpl in Hframe. eauto.
Qed.

Lemma find_eligible (eligible : gset string) (assignees : list string) :
  (exists a, a ∈ assignees /\ a ∈ eligible) ->
  exists a, List.find (fun a => bool_decide (a ∈ eligible)) assignees = Some a
            /\ a ∈ assignees /\ a ∈ eligible.
Proof.
  intros (a & Hin & Hel). induction assignees as [|x rest IH]; [inversion Hin|].
  simpl. case_bool_decide as Hx.
  - exists x. split; [reflexivity|]. split; [left|assumption].
  - destruct IH as (a' & Hfind & Hin' & Hel').
    + apply elem_of_cons in Hin as [-> | Hin]; [contradiction | assumption].
    + exists a'. split; [assumption|]. split; [right|]; assumption.
Qed.

Lemma checkAutoTransition_fires (sep : SEPItem) (w : World) :
  sep_state sep = Some proposal ->
  (exists a, a ∈ sep_assignees sep /\ a ∈ sponsors config w) ->
  "" ∉ sep_assignees sep ->
  exists tr w' sponsor,
    checkAutoTransition config sep w = (Ok (Some tr), w')
    /\ sponsor ∈ sep_assignees sep /\ sponsor ∈ sponsors config w
    /\ List.find (fun a => bool_decide (a ∈ sponsors config w)) (sep_assignees sep)
       = Some sponsor
    /\ act_type (res_action tr) = Transition
    /\ act_fromState (res_action tr) = Some proposal
    /\ act_toState (res_action tr) = Some draft
    /\ act_targetUser (res_action tr) = Some sponsor
    /\ (dryRun config = true -> res_success tr = true)
    /\ Forall (transitionCall sep) (issued w w')
    /\ (dryRun config = true -> mutations (issued w w') = [])
    /\ (dryRun config = false ->
        mutations (issued w w') `prefix_of` promotionPlan sep sponsor
        /\ (res_success tr = true -> mutations (issued w w') = promotionPlan sep sponsor)
        /\ (initialized w = true -> acceptsPromotion (remote w) sep sponsor ->
            res_success tr = true)).
Proof.
  intros Hstate Heligible Hlogins.
  destruct (find_eligible _ _ Heligible) as (sponsor & Hfind & Hin & Hel).
  destruct (getSponsor_framed (sep_assignees sep) w) as (w1 & cs1 & Hrun & Hf1 & Hcs1).
  rewrite Hfind in Hrun.
  destruct (executeTransition_toDraft sep sponsor (dryRun config) Hstate w1)
    as (cs2 & Hf2 & (tr & Hr & Hfacts) & Hcs2).
  assert (Hvalid : isValidTransition (sep_state sep) draft = true)
    by (rewrite Hstate; reflexivity).
  pose proof (executeTransition_follows config sep draft sponsor Hvalid w1) as Hfollows.
  pose proof (executeTransition_succeeds sep sponsor w1 Hstate) as Hsucceeds.
  pose proof (executeTransition_dry config sep draft sponsor w1) as Hquiet.
  destruct (executeTransition config sep draft sponsor (dryRun config) w1) as [r w2] eqn:Hexec.
  simpl in Hf2, Hr. subst r.
  exists tr, w2, sponsor.
  assert (Htruthy : Js.truthy (Some sponsor) = true).
  { simpl. destruct (String.eqb_spec sponsor ""); [subst; contradiction | reflexivity]. }
  split.
  - unfold checkAutoTransition. rewrite Hstate.
    assert (Hsome : bool_decide (length (sep_assignees sep) = 0%nat) = false).
    { apply bool_decide_eq_false. destruct (sep_assignees sep); [inversion Hin | discriminate]. }
    rewrite Hsome. rewrite bool_decide_eq_false_2 by auto. cbn [orb].
    unfold bind at 1. rewrite Hrun, Htruthy. cbn [negb default from_option id].
    unfold bind. rewrite Hexec. reflexivity.
  - destruct Hfacts as (? & ? & ? & ? & ?).
    assert (Hissued : issued w w2 = cs1 ++ cs2)
      by apply (frame_issued _ _ _ (frame_trans _ _ _ _ _ Hf1 Hf2)).
    assert (Hmut : mutations (issued w w2) = mutations cs2).
    { rewrite Hissued, mutations_app, (mutations_resolver _ Hcs1). reflexivity. }
    repeat split; auto.
    + rewrite Hissued. apply Forall_app.
      split; [apply resolver_transitionCall, Hcs1 | exact Hcs2].
    + intros Hdry. rewrite Hdry in Hexec. destruct Hquiet as (r' & Hrun' & _).
      rewrite Hrun' in Hexec. injection Hexec as _ <-.
      rewrite Hmut, <- (frame_issued _ _ _ Hf2). unfold issued.
      rewrite Nat.sub_diag || idtac. rewrite drop_all. reflexivity.
    + rewrite Hmut. rewrite H4 in Hexec. destruct Hfollows as (cs & Hf & res & Hres & Hpre & _).
      rewrite Hexec in Hf, Hres. simpl in Hf, Hres.
      rewrite <- (frame_issued _ _ _ Hf2), (frame_issued _ _ _ Hf). rewrite Hstate in Hpre.
      exact Hpre.
    + intros Hok. rewrite Hmut. rewrite H4 in Hexec.
      destruct Hfollows as (cs & Hf & res & Hres & _ & Hall).
      rewrite Hexec in Hf, Hres. simpl in Hf, Hres. injection Hres as <-.
      rewrite <- (frame_issued _ _ _ Hf2), (frame_issued _ _ _ Hf). rewrite Hstate in Hall.
      apply Hall, Hok.
    + intros Hinit Haccepts. rewrite H4 in Hexec.
      destruct Hsucceeds as (res & w' & Hrun' & Hok).
      * apply (frame_initialized _ _ _ Hf1), Hinit.
      * rewrite (frame_remote _ _ _ Hf1). exact Haccepts.
      * rewrite Hexec in Hrun'. injection Hrun' as <- _. exact Hok.
Qed.

(** C5.  An open proposal with an assignee who is in the sponsor set
    (logins being non-empty) is moved to draft by [process], which then
    returns that one result, for the first such assignee as sponsor.
    Every request sent belongs to the transition, so the comments were not
    listed, no analysis ran, and no ping, dormant marking or close took
    place; no summary update stays pending.  Outside a dry run the
    mutations sent are an initial part of "remove the proposal label, add
    the draft label, post the transition comment", all of it when the
    result reports success, and it reports success on an initialised
    client whose remote accepts these three requests; in a dry run no
    mutation is sent.  The summary object has the row of the transition
    exactly if the result reports success. *)
Theorem auto_transition_skips_staleness (sep : SEPItem) (st : Run) :
  sep_isClosed sep = false ->
  sep_state sep = Some proposal ->
  (exists a, a ∈ sep_assignees sep /\ a ∈ sponsors config (world st)) ->
  "" ∉ sep_assignees sep ->
  exists tr st' sponsor,
    process config sep st =
      (Ok {| results := [tr]; summaryData := length (heap st) |}, st')
    /\ sponsor ∈ sep_assignees sep /\ sponsor ∈ sponsors config (world st)
    /\ List.find (fun a => bool_decide (a ∈ sponsors config (world st))) (sep_assignees sep)
       = Some sponsor
    /\ act_type (res_action tr) = Transition
    /\ act_fromState (res_action tr) = Some proposal
    /\ act_toState (res_action tr) = Some draft
    /\ act_targetUser (res_action tr) = Some sponsor
    /\ (dryRun config = true -> res_success tr = true)
    /\ Forall (transitionCall sep) (issued (world st) (world st'))
    /\ (dryRun config = true -> mutations (issued (world st) (world st')) = [])
    /\ (dryRun config = false ->
        mutations (issued (world st) (world st')) `prefix_of` promotionPlan sep sponsor
        /\ (res_success tr = true ->
            mutations (issued (world st) (world st')) = promotionPlan sep sponsor)
        /\ (initialized (world st) = true ->
            acceptsPromotion (remote (world st)) sep sponsor ->
            res_success tr = true))
    /\ floating st' = floating st
    /\ deref st' (length (heap st)) =
       if res_success tr
       then push_transition {| tr_item := sep; tr_fromState := Some proposal;
                               tr_toState := draft; tr_sponsor := sponsor |} emptySummary
       else emptySummary.
Proof.
  intros Hopen Hstate Heligible Hlogins.
  destruct (checkAutoTransition_fires sep (world st) Hstate Heligible Hlogins)
    as (tr & w' & sponsor & Hrun & Hin & Hel & Hfirst & Htype & Hfrom & Hto & Huser & Hdry
        & Hcalls & Hquiet & Hloud).
  set (st1 := {| world := w'; heap := heap st ++ [emptySummary]; floating := floating st;
                 turns := turns st; unhandled := unhandled st |}).
  set (row := {| tr_item := sep; tr_fromState := Some proposal;
                 tr_toState := draft; tr_sponsor := sponsor |}).
  exists tr,
    (if res_success tr
     then set_heap (alter (push_transition row) (length (heap st)) (heap st1)) st1
     else st1),
    sponsor.
  assert (Hworld : world (if res_success tr
                          then set_heap (alter (push_transition row) (length (heap st))
                                           (heap st1)) st1
                          else st1) = w')
    by (destruct (res_success tr); reflexivity).
  rewrite Hworld.
  split.
  - unfold process. unfold bind at 1. unfold newSummary. rewrite Hopen.
    unfold bind at 1. unfold lift. simpl. rewrite Hrun. rewrite Hto, Huser, Hstate. simpl.
    destruct (res_success tr); reflexivity.
  - repeat split; auto; try (apply Hloud; assumption).
    + destruct (res_success tr); reflexivity.
    + unfold deref.
      destruct (res_success tr); simpl.
      * rewrite list_lookup_alter, lookup_app_r, Nat.sub_diag by lia.
        rewrite decide_True by reflexivity. reflexivity.
      * rewrite lookup_app_r, Nat.sub_diag by lia. reflexivity.
Qed.

End AutoTransition.

Lemma auto_transition_skips_staleness_witness :
  let config := mockConfig false in
  let sep := mockSEPItem (Some proposal) ["maintainer1"] in
  let st := start config (mockRemote (jan1 + days 200) [] ["maintainer1"]) in
  exists tr st',
    process config sep st = (Ok {| results := [tr]; summaryData := 0%nat |}, st')
    /\ act_toState (res_action tr) = Some draft
    /\ res_success tr = true
    /\ Forall (transitionCall sep) (issued (world st) (world st'))
    /\ mutations (issued (world st) (world st')) = promotionPlan sep "maintainer1"
    /\ floating st' = [].
Proof.
  intros config sep st.
  destruct (auto_transition_skips_staleness config sep st)
    as (tr & st' & sponsor & Hrun & _ & _ & Hfirst & _ & _ & Hto & _ & _ & Hcalls & _ & Hloud
        & Hfloating & _).
  - reflexivity.
  - reflexivity.
  - exists "maintainer1". split; [apply list_elem_of_here|].
    refine (bool_decide_unpack _ _). vm_compute. exact I.
  - refine (bool_decide_unpack _ _). vm_compute. exact I.
  - destruct (Hloud eq_refl) as (_ & Hall & Hsucceeds).
    assert (Hsponsor : sponsor = "maintainer1").
    { assert (Hcomputed : List.find (fun a => bool_decide (a ∈ sponsors config (world st)))
                            (sep_assignees sep) = Some "maintainer1")
        by (vm_compute; reflexivity).
      rewrite Hcomputed in Hfirst. now injection Hfirst. }
    subst sponsor.
    assert (Hok : res_success tr = true).
    { apply Hsucceeds; [reflexivity|]. repeat split; intros h; try reflexivity.
      eexists. reflexivity. }
    exists tr, st'. repeat split; auto.
Defined.

Section Staleness.

Variable config : Config.

(** What [process] returns for an item on which a staleness action has
    succeeded: the summary object without a row, and the update pending. *)
Lemma staleness_row_pending_at_return (sep : SEPItem) (st : Run) (w1 w2 : World)
    (sr : ActionResult) :
  sep_isClosed sep = false ->
  sep_state sep <> Some draft ->
  sep_state sep <> Some in_review ->
  checkAutoTransition config sep (world st) = (Ok None, w1) ->
  checkStaleness config sep w1 = (Ok (Some sr), w2) ->
  res_success sr = true ->
  exists st',
    process config sep st = (Ok {| results := [sr]; summaryData := length (heap st) |}, st')
    /\ deref st' (length (heap st)) = emptySummary
    /\ floating st' =
       floating st ++ [UpdateSummary sr sep (length (heap st)) (clock (remote w2) (calls w2))].
Proof.
  intros Hopen Hdraft Hreview Hauto Hstale Hok. eexists. split.
  - unfold process. unfold bind at 1. unfold newSummary. rewrite Hopen.
    unfold bind at 1. unfold lift at 1. simpl. rewrite Hauto.
    unfold bind at 1. unfold lift at 1. simpl. rewrite Hstale.
    unfold bind at 1. unfold updateSummaryFromStaleness_floating. rewrite Hok. simpl.
    rewrite !bool_decide_eq_false_2 by assumption. reflexivity.
  - simpl. split; [|reflexivity].
    unfold deref. simpl. rewrite lookup_app_r, Nat.sub_diag by lia. reflexivity.
Qed.

End Staleness.

(** C7.  The run of [process] on a proposal that has been inactive for 95
    days: the author is pinged with success, and the summary object that
    is returned has no row at the moment of the return, the update being
    left to a promise that is not awaited. *)
Theorem process_returns_before_summary_update :
  let config := mockConfig false in
  let sep := mockSEPItem (Some proposal) [] in
  let run := process config sep (start config (mockRemote (jan1 + days 95) [] [])) in
  exists ping,
    run.1 = Ok {| results := [ping]; summaryData := 0%nat |}
    /\ act_type (res_action ping) = PingAuthor
    /\ res_success ping = true
    /\ rows (deref run.2 0%nat) = 0%nat
    /\ length (floating run.2) = 1%nat.
Proof. vm_compute. eexists. repeat split. Qed.

(** The same run without mutations: the pending update is what adds the
    row, once the event loop runs it. *)
Lemma pending_update_adds_the_row :
  let config := mockConfig true in
  let sep := mockSEPItem (Some proposal) [] in
  let run := process config sep (start config (mockRemote (jan1 + days 95) [] [])) in
  pings (deref run.2 0%nat) = []
  /\ pings (deref (settleAll config run.2).2 0%nat) =
     [ {| pg_item := sep; pg_pingTarget := target_author;
          pg_targetUser := "test-author"; pg_daysSinceActivity := 95 |} ].
Proof. vm_compute. split; reflexivity. Qed.

(** Where the comment was posted, the pending update analyses the item
    again, finds the comment just posted within the cooldown, and adds no
    row at all. *)
Lemma pending_update_sees_own_comment :
  let config := mockConfig false in
  let sep := mockSEPItem (Some proposal) [] in
  let run := process config sep (start config (mockRemote (jan1 + days 95) [] [])) in
  rows (deref (settleAll config run.2).2 0%nat) = 0%nat.
Proof. vm_compute. reflexivity. Qed.

(** ** Further properties of the rules table *)

(** X1. [isStateLabel] recognises exactly the six label strings, and each
    as the state it is the label of: it inverts [label]. *)
Theorem isStateLabel_inverts_label :
  (forall (l : string) (s : SEPState), isStateLabel l = Some s <-> label s = l)
  /\ (forall l : string, isStateLabel l = None <-> forall s, label s <> l).
Proof.
  assert (H : forall l s, isStateLabel l = Some s <-> label s = l).
  { intros l s. split.
    - intros Hf. apply find_some in Hf as [_ Heq]. now apply String.eqb_eq in Heq.
    - intros <-. now destruct s. }
  split; [exact H|].
  intros l. split.
  - intros Hn s Hs. apply H in Hs. congruence.
  - intros Hn. destruct (isStateLabel l) as [s|] eqn:E; [|reflexivity].
    apply H in E. now apply Hn in E.
Qed.

(** X2. [extractState] returns the state of the first label of the list
    that is a state label, whatever follows it, and nothing if and only if
    no label is one. *)
Theorem extractState_first_state_label (labels : list string) :
  (forall s, extractState labels = Some s <->
             exists before after,
               labels = before ++ label s :: after
               /\ Forall (fun l => isStateLabel l = None) before)
  /\ (extractState labels = None <-> Forall (fun l => isStateLabel l = None) labels).
Proof.
  assert (Hlabel : forall s, isStateLabel (label s) = Some s) by (now intros []).
  induction labels as [|l rest [IHs IHn]]; simpl.
  - split.
    + intros s. split; [discriminate|].
      intros (before & after & Heq & _). now destruct before.
    + split; [constructor | reflexivity].
  - destruct (isStateLabel l) as [s0|] eqn:El.
    + split.
      * intros s. split.
        -- intros [= ->]. exists [], rest. split; [|constructor].
           simpl. f_equal. symmetry.
           apply find_some in El as [_ Heq]. now apply String.eqb_eq in Heq.
        -- intros (before & after & Heq & Hbefore).
           destruct before as [|b before]; simpl in Heq; injection Heq as -> ->.
           ++ rewrite Hlabel in El. congruence.
           ++ apply Forall_cons in Hbefore as [Hb _]. congruence.
      * split; [discriminate|].
        intros Hall. apply Forall_cons in Hall as [Hl _]. congruence.
    + split.
      * intros s. rewrite IHs. split.
        -- intros (before & after & -> & Hbefore).
           exists (l :: before), after. split; [reflexivity|]. now constructor.
        -- intros (before & after & Heq & Hbefore).
           destruct before as [|b before]; simpl in Heq; injection Heq as -> ->.
           ++ rewrite Hlabel in El. discriminate.
           ++ apply Forall_cons in Hbefore as [_ Hbefore]. now exists before, after.
      * rewrite IHn. split.
        -- intros Hall. now constructor.
        -- intros Hall. now apply Forall_cons in Hall as [_ Hall].
Qed.

(** X3. The shape of the transition graph: no state is a target of itself;
    every state but [final] and [dormant] may go dormant; a dormant item is
    revived as a proposal or as a draft only; [final] is reached from every
    state, and nothing else is reached from [final]. *)
Theorem transition_graph_shape :
  (forall s, isValidTransition (Some s) s = false)
  /\ (forall s, isValidTransition (Some s) dormant = true <-> s <> final /\ s <> dormant)
  /\ (forall t, isValidTransition (Some dormant) t = true <-> t = proposal \/ t = draft)
  /\ (forall s, reaches s final)
  /\ (forall t, reaches final t -> t = final).
Proof.
  split; [now intros []|].
  split; [intros []; simpl; split; (discriminate || tauto || (intros; split; discriminate))|].
  split.
  { intros []; simpl; split; (discriminate || tauto || auto);
      intros [|]; discriminate. }
  split.
  - assert (Ha : reaches accepted final)
      by (apply reaches_step with final; [reflexivity | constructor]).
    assert (Hr : reaches in_review final)
      by (apply reaches_step with accepted; [reflexivity | exact Ha]).
    assert (Hd : reaches draft final)
      by (apply reaches_step with in_review; [reflexivity | exact Hr]).
    intros []; try assumption.
    + apply reaches_step with draft; [reflexivity | exact Hd].
    + constructor.
    + apply reaches_step with draft; [reflexivity | exact Hd].
  - intros t Hr. remember final as s eqn:Es.
    destruct Hr as [|s t u Hstep _]; [reflexivity|].
    subst s. now destruct t.
Qed.

(** ** Further properties of the dates *)

Lemma nearestEven_exact (n d : Z) : 0 < d -> nearestEven (n * d) d = n.
Proof.
  intros Hd. unfold nearestEven.
  rewrite Z.mod_mul, Z.div_mul by lia.
  destruct (Z.ltb_spec (2 * 0) d); [reflexivity | lia].
Qed.

Lemma nearestEven_bounds (n d : Z) :
  0 < d -> 2 * nearestEven n d * d - d <= 2 * n <= 2 * nearestEven n d * d + d.
Proof.
  intros Hd. unfold nearestEven.
  pose proof (Z.div_mod n d ltac:(lia)) as Hn.
  pose proof (Z.mod_pos_bound n d Hd) as Hr.
  destruct (Z.ltb_spec (2 * (n mod d)) d); [nia|].
  destruct (Z.ltb_spec d (2 * (n mod d))); [nia|].
  destruct (Z.even (n / d)); nia.
Qed.

Lemma nearestEven_scale (n d c : Z) :
  0 < d -> 0 < c -> nearestEven (n * c) (d * c) = nearestEven n d.
Proof.
  intros Hd Hc. unfold nearestEven.
  rewrite Z.div_mul_cancel_r, Z.mul_mod_distr_r by lia.
  destruct (Z.ltb_spec (2 * (n mod d * c)) (d * c)), (Z.ltb_spec (2 * (n mod d)) d);
    try nia; try reflexivity.
  destruct (Z.ltb_spec (d * c) (2 * (n mod d * c))), (Z.ltb_spec d (2 * (n mod d)));
    try nia; reflexivity.
Qed.

Lemma binade_small (n d : Z) :
  0 < n -> 0 < d -> n < d * 2 ^ 27 -> binade n d <= 26.
Proof.
  intros Hn Hd Hlt. unfold binade. destruct (Z.leb_spec d n).
  - assert (Hq : n / d < 2 ^ 27) by (apply Z.div_lt_upper_bound; assumption).
    assert (Hpos : 0 < n / d) by (apply Z.div_str_pos; lia).
    apply Z.log2_lt_pow2 in Hq; [lia | exact Hpos].
  - pose proof (Z.log2_up_nonneg ((d + n - 1) / n)). lia.
Qed.

(** The difference of two times at most [2 ^ 53] apart is a double. *)
Lemma doubleSub_exact (a b : Z) :
  Z.abs (a - b) <= 2 ^ 53 ->
  exists c, 0 < c /\ toFraction (doubleSub a b) = ((a - b) * c, c).
Proof.
  intros Hrange. unfold doubleSub, roundToDouble.
  destruct (Z.eqb_spec (a - b) 0) as [->|Hne].
  { exists 1. split; [lia | reflexivity]. }
  set (D := a - b) in *.
  assert (Hbin : binade (Z.abs D) 1 = Z.log2 (Z.abs D)).
  { unfold binade. destruct (Z.leb_spec 1 (Z.abs D)); [|lia]. now rewrite Z.div_1_r. }
  rewrite Hbin.
  assert (Hlog : Z.log2 (Z.abs D) <= 53).
  { rewrite <- (Z.log2_pow2 53) by lia. apply Z.log2_le_mono. exact Hrange. }
  set (e := Z.log2 (Z.abs D) - 52).
  destruct (Z.leb_spec 0 e) as [He|He].
  - exists 1. split; [lia|]. unfold toFraction.
    destruct (Z.leb_spec 0 e); [|lia]. f_equal.
    assert (He' : e = 0 \/ e = 1) by lia. destruct He' as [-> | He1].
    + change (1 * 2 ^ 0) with 1. replace D with (D * 1) at 1 by lia.
      rewrite nearestEven_exact by lia. change (2 ^ 0) with 1. lia.
    + rewrite He1. change (1 * 2 ^ 1) with 2. change (2 ^ 1) with 2.
      assert (Hpow : 2 ^ 53 <= Z.abs D).
      { assert (Hl : Z.log2 (Z.abs D) = 53) by lia.
        rewrite <- Hl. apply Z.log2_spec. lia. }
      assert (HD : D = 2 ^ 52 * 2 \/ D = (- 2 ^ 52) * 2) by lia.
      destruct HD as [-> | ->]; rewrite nearestEven_exact by lia; lia.
  - exists (2 ^ (- e)).
    assert (Hc : 0 < 2 ^ (- e)) by (apply Z.pow_pos_nonneg; lia).
    split; [exact Hc|]. unfold toFraction.
    destruct (Z.leb_spec 0 e); [lia|]. f_equal.
    unfold nearestEven. rewrite Z.mod_1_r, Z.div_1_r. reflexivity.
Qed.

(** The quotient of a double by [d], rounded, has the floor of the exact
    quotient as long as rounding moves it by less than [1 / d]. *)
Lemma doubleDiv_floor (D c d : Z) (x : Double) :
  0 < c -> 0 < d ->
  toFraction x = (D * c, c) ->
  Z.abs D < d * 2 ^ 27 ->
  d < 2 ^ 27 ->
  doubleFloor (doubleDiv x d) = D / d.
Proof.
  intros Hc Hd Hx Hsmall Hdiv. unfold doubleDiv. rewrite Hx. unfold roundToDouble.
  destruct (Z.eqb_spec (D * c) 0) as [Hz|Hnz].
  { assert (D = 0) by nia. subst D. reflexivity. }
  assert (HD : D <> 0) by (intros ->; lia).
  assert (Hbin : binade (Z.abs (D * c)) (c * d) <= 26).
  { apply binade_small; [lia | nia |]. rewrite Z.abs_mul, (Z.abs_eq c) by lia. nia. }
  set (e := binade (Z.abs (D * c)) (c * d) - 52) in *.
  destruct (Z.leb_spec 0 e); [lia|].
  unfold doubleFloor, toFraction. destruct (Z.leb_spec 0 e); [lia|].
  set (k := - e). assert (Hk : 26 <= k) by lia.
  assert (Hp : 2 ^ 26 <= 2 ^ k) by (apply Z.pow_le_mono_r; lia).
  replace (D * c * 2 ^ k) with (D * 2 ^ k * c) by ring.
  replace (c * d) with (d * c) by ring.
  rewrite nearestEven_scale by lia.
  pose proof (nearestEven_bounds (D * 2 ^ k) d Hd) as Hround.
  set (M := nearestEven (D * 2 ^ k) d) in *.
  set (P := 2 ^ k) in *.
  pose proof (Z.div_mod D d ltac:(lia)) as Hdm.
  pose proof (Z.mod_pos_bound D d Hd) as Hr.
  set (Q := D / d) in *. set (r := D mod d) in *.
  symmetry. apply (Z.div_unique M P Q (M - Q * P)); [|ring].
  left.
  assert (HDP : D * P = d * (Q * P) + r * P) by (rewrite Hdm; ring).
  assert (HrP : 0 <= r * P <= (d - 1) * P) by nia.
  change (2 ^ 26) with 67108864 in Hp. change (2 ^ 27) with 134217728 in Hdiv.
  split; nia.
Qed.

(** The doubles nearest to one third, to one tenth and to minus seven
    halves, and two integers beyond [2 ^ 53]: a tie goes to the even
    significand. *)
Example roundToDouble_examples :
  roundToDouble 1 3 = (6004799503160661, -54)
  /\ roundToDouble 1 10 = (7205759403792794, -56)
  /\ roundToDouble (-7) 2 = (-7881299347898368, -51)
  /\ roundToDouble 9007199254740993 1 = (4503599627370496, 1)
  /\ roundToDouble 9007199254740995 1 = (4503599627370498, 1).
Proof. repeat split; vm_compute; reflexivity. Qed.

(** X4. On the numbers of the runtime, [daysBetween] counts the whole
    days that have passed between two times that lie at most [2 ^ 53]
    milliseconds apart: there the rounded difference and the rounded
    quotient have the floor of the exact quotient, so that the value is
    [k] exactly from [k] days on and before [k + 1] days, grows with the
    later time and shifts with whole days. *)
Theorem daysBetween_counts_whole_days (d1 d2 : Z) :
  timeValue d1 -> timeValue d2 ->
  Z.abs (d2 - d1) <= 2 ^ 53 ->
  daysBetweenDouble d1 d2 = daysBetween d1 d2
  /\ (forall k, daysBetweenDouble d1 d2 = k <->
                k * MS_PER_DAY <= d2 - d1 < (k + 1) * MS_PER_DAY)
  /\ (forall d2', timeValue d2' -> Z.abs (d2' - d1) <= 2 ^ 53 -> d2 <= d2' ->
                  daysBetweenDouble d1 d2 <= daysBetweenDouble d1 d2')
  /\ (forall n, timeValue (d2 + n * MS_PER_DAY) ->
                Z.abs (d2 + n * MS_PER_DAY - d1) <= 2 ^ 53 ->
                daysBetweenDouble d1 (d2 + n * MS_PER_DAY) = daysBetweenDouble d1 d2 + n).
Proof.
  assert (Hsame : forall a b, Z.abs (b - a) <= 2 ^ 53 ->
                              daysBetweenDouble a b = daysBetween a b).
  { intros a b Hrange. unfold daysBetweenDouble, daysBetween.
    destruct (doubleSub_exact b a Hrange) as (c & Hc & Hx).
    apply (doubleDiv_floor (b - a) c MS_PER_DAY _ Hc); [reflexivity | exact Hx | |].
    - change MS_PER_DAY with 86400000. change (2 ^ 27) with 134217728.
      change (2 ^ 53) with 9007199254740992 in Hrange. lia.
    - reflexivity. }
  intros _ _ Hrange. rewrite (Hsame d1 d2 Hrange).
  split; [reflexivity|]. split; [|split].
  - intros k. unfold daysBetween. change MS_PER_DAY with 86400000.
    split; intros; Z.div_mod_to_equations; lia.
  - intros d2' _ Hrange' Hle. rewrite (Hsame d1 d2' Hrange').
    unfold daysBetween. change MS_PER_DAY with 86400000. Z.div_mod_to_equations. lia.
  - intros n _ Hrange'. rewrite (Hsame _ _ Hrange').
    unfold daysBetween. change MS_PER_DAY with 86400000. Z.div_mod_to_equations. lia.
Qed.

(** Beyond that distance the runtime may count a day that has not
    passed: between the first and the last millisecond but one that a
    [Date] can hold, the difference is rounded up to a multiple of a day. *)
Example daysBetween_beyond_2_53 :
  timeValue (-8640000000000000) /\ timeValue 8639999999999999
  /\ doubleSub 8639999999999999 (-8640000000000000) = (8640000000000000, 1)
  /\ daysBetweenDouble (-8640000000000000) 8639999999999999 = 200000000
  /\ daysBetween (-8640000000000000) 8639999999999999 = 199999999.
Proof.
  split; [unfold timeValue; simpl; lia|]. split; [unfold timeValue; simpl; lia|].
  split; [vm_compute; reflexivity|]. split; vm_compute; reflexivity.
Qed.

Lemma daysBetween_counts_whole_days_witness :
  timeValue 1704067200000 /\ timeValue 1712275199999
  /\ Z.abs (1712275199999 - 1704067200000) <= 2 ^ 53
  /\ daysBetweenDouble 1704067200000 1712275199999 = 94.
Proof.
  assert (H1 : timeValue 1704067200000) by (unfold timeValue; simpl; lia).
  assert (H2 : timeValue 1712275199999) by (unfold timeValue; simpl; lia).
  assert (H3 : Z.abs (1712275199999 - 1704067200000) <= 2 ^ 53) by (simpl; lia).
  split; [exact H1|]. split; [exact H2|]. split; [exact H3|].
  destruct (daysBetween_counts_whole_days 1704067200000 1712275199999 H1 H2 H3)
    as [Hsame _].
  rewrite Hsame. reflexivity.
Defined.

(** ** Further properties of the analyzer *)

Section MoreAnalysis.

Variable config : Config.

Lemma analyze_verdict (item : SEPItem) (w : World) (a : StaleAnalysis) :
  (analyze config item w).1 = Ok a ->
  exists lastPingDate, a = verdict config item (clock (remote w) (calls w)) lastPingDate.
Proof.
  unfold analyze, analyzeAt, getLastBotPingDate, now, bind, ret. simpl.
  destruct (getComments config (sep_number item) w) as [[comments|e] w1]; simpl.
  - intros [= <-]. now exists (lastBotPing comments).
  - discriminate.
Qed.


Lemma verdict_shape (item : SEPItem) (nowDate : Z) (lastPingDate : option Z) :
  let a := verdict config item nowDate lastPingDate in
  sa_item a = item
  /\ sa_daysSinceActivity a = daysBetween (sep_updatedAt item) nowDate
  /\ sa_shouldClose a = sa_shouldMarkDormant a
  /\ (sa_shouldPing a = true <-> is_Some (sa_pingTarget a))
  /\ (sa_shouldPing a = true -> sa_shouldMarkDormant a = false)
  /\ sa_pingTarget a <> Some target_maintainer
  /\ (sa_shouldMarkDormant a = true -> sep_state item = Some proposal)
  /\ (sa_pingTarget a = Some target_sponsor <->
      sa_shouldPing a = true /\ sep_state item = Some draft)
  /\ (sa_pingTarget a = Some target_author ->
      sep_state item = Some proposal \/ sep_state item = Some accepted).
Proof.
  unfold verdict, analyzeProposal, analyzeDraft, analyzeAccepted, noAction.
  destruct lastPingDate as [d|];
    [destruct (daysBetween d nowDate <? pingCooldownDays config)|];
    destruct (sep_state item) as [[]|]; simpl;
    repeat match goal with |- context [if ?b then _ else _] => destruct b end; simpl;
    repeat split; intros;
    try discriminate; try congruence; eauto;
    try (match goal with H : is_Some None |- _ => now destruct H end);
    try (match goal with H : _ /\ _ |- _ => destruct H; discriminate || congruence end).
Qed.

(** X5. Whatever [analyze] returns is consistent: it is about the item it
    was asked about, counts the days since the item was updated, asks for a
    close exactly when it asks for a dormant marking, names a ping target
    exactly when it asks for a ping, never asks for both a ping and a
    dormant marking, never targets a maintainer, marks only proposals
    dormant, and targets the sponsor exactly in the pings of drafts. *)
Theorem analysis_is_well_formed (item : SEPItem) (w : World) (a : StaleAnalysis) :
  (analyze config item w).1 = Ok a ->
  sa_item a = item
  /\ sa_daysSinceActivity a = daysBetween (sep_updatedAt item) (clock (remote w) (calls w))
  /\ sa_shouldClose a = sa_shouldMarkDormant a
  /\ (sa_shouldPing a = true <-> is_Some (sa_pingTarget a))
  /\ (sa_shouldPing a = true -> sa_shouldMarkDormant a = false)
  /\ sa_pingTarget a <> Some target_maintainer
  /\ (sa_shouldMarkDormant a = true -> sep_state item = Some proposal)
  /\ (sa_pingTarget a = Some target_sponsor <->
      sa_shouldPing a = true /\ sep_state item = Some draft)
  /\ (sa_pingTarget a = Some target_author ->
      sep_state item = Some proposal \/ sep_state item = Some accepted).
Proof.
  intros H. apply analyze_verdict in H as [lastPingDate ->]. apply verdict_shape.
Qed.



(** X7. Drafts and accepted items are pinged and never marked dormant or
    closed, however long they have been inactive: outside the cooldown a
    draft is pinged, with the sponsor as the target, exactly from
    [draftPingDays] days of inactivity on, an accepted item, with the
    author as the target, exactly from [acceptedPingDays] days on. *)
Theorem draft_and_accepted_thresholds (item : SEPItem) (w w1 : World)
    (comments : list GitHubComment) :
  getComments config (sep_number item) w = (Ok comments, w1) ->
  (forall d, lastBotPing comments = Some d ->
             pingCooldownDays config <= daysBetween d (clock (remote w) (calls w))) ->
  let days := daysBetween (sep_updatedAt item) (clock (remote w) (calls w)) in
  exists a,
    analyze config item w = (Ok a, w1)
    /\ (sep_state item = Some draft ->
        sa_shouldMarkDormant a = false /\ sa_shouldClose a = false
        /\ (sa_shouldPing a = true <-> draftPingDays config <= days)
        /\ (sa_shouldPing a = true -> sa_pingTarget a = Some target_sponsor))
    /\ (sep_state item = Some accepted ->
        sa_shouldMarkDormant a = false /\ sa_shouldClose a = false
        /\ (sa_shouldPing a = true <-> acceptedPingDays config <= days)
        /\ (sa_shouldPing a = true -> sa_pingTarget a = Some target_author)).
Proof.
  intros Hc Hcool days. eexists. split; [exact (analyze_run config item w w1 comments Hc)|].
  unfold verdict. fold days.
  assert (Hlast : match lastBotPing comments with
                  | Some d => (daysBetween d (clock (remote w) (calls w))
                               <? pingCooldownDays config) = false
                  | None => True
                  end).
  { destruct (lastBotPing comments) as [d|]; [|exact I].
    apply Z.ltb_ge. now apply Hcool. }
  split; intros ->; destruct (lastBotPing comments) as [d|]; try rewrite Hlast;
    unfold analyzeDraft, analyzeAccepted, noAction;
    match goal with |- context [?x >=? ?y] => destruct (Z.geb_spec x y) end; simpl;
    repeat split; intros; try discriminate; try lia; auto.
Qed.

Lemma latest_spec (dates : list Z) (init : option Z) :
  match latest init dates with
  | None => init = None /\ dates = []
  | Some m =>
      (init = Some m \/ m ∈ dates)
      /\ Forall (fun d => d <= m) dates
      /\ (forall i, init = Some i -> i <= m)
  end.
Proof.
  revert init. induction dates as [|d rest IH]; intros init; simpl.
  - destruct init as [i|]; [|auto].
    split; [now left|]. split; [constructor|]. intros ? [= <-]. lia.
  - unfold latest in *. simpl.
    set (next := match init with
                 | Some l => if l <? d then Some d else Some l
                 | None => Some d
                 end).
    specialize (IH next).
    assert (Hnext : exists n, next = Some n /\ d <= n
                              /\ (n = d \/ init = Some n)
                              /\ (forall i, init = Some i -> i <= n)).
    { subst next. destruct init as [l|].
      - destruct (Z.ltb_spec l d).
        + exists d. repeat split; auto; try lia. intros ? [= <-]. lia.
        + exists l. repeat split; auto. intros ? [= <-]. lia.
      - exists d. repeat split; auto; try lia. discriminate. }
    destruct Hnext as (n & Hn & Hdn & Hfrom & Hinit).
    destruct (fold_left _ rest next) as [m|].
    + destruct IH as (Hm & Hall & Hle). specialize (Hle n Hn).
      split; [|split].
      * destruct Hm as [Hm|Hm].
        -- rewrite Hn in Hm. injection Hm as <-.
           destruct Hfrom as [->|Hfrom]; [right; constructor | now left].
        -- right. now constructor.
      * constructor; [lia | exact Hall].
      * intros i Hi. specialize (Hinit i Hi). lia.
    + destruct IH as [IH _]. congruence.
Qed.

(** X8. The activity of a maintainer on an item is dated by the latest of
    their own events and comments, in whatever order the listings return
    them and whatever others did; only if they have none, by the last
    update of the item.  The ping is due exactly from
    [maintainerInactivityDays] whole days after that date. *)
Theorem maintainer_activity_is_their_latest (item : SEPItem) (maintainerUsername : string)
    (w w1 w2 : World) (events : list GitHubEvent) (comments : list GitHubComment) :
  getEvents config (sep_number item) w = (Ok events, w1) ->
  getComments config (sep_number item) w1 = (Ok comments, w2) ->
  let theirs :=
    map ge_created_at
        (List.filter (fun e => bool_decide (ge_actor e = Some maintainerUsername)) events)
    ++ map gc_created_at
        (List.filter (fun c => bool_decide (gc_user c = Some maintainerUsername)) comments) in
  exists lastActivity,
    checkMaintainerActivity config item maintainerUsername w
    = (Ok (daysBetween lastActivity (clock (remote w2) (calls w2)),
           bool_decide (maintainerInactivityDays config
                        <= daysBetween lastActivity (clock (remote w2) (calls w2)))), w2)
    /\ (theirs = [] -> lastActivity = sep_updatedAt item)
    /\ (theirs <> [] -> lastActivity ∈ theirs /\ Forall (fun d => d <= lastActivity) theirs).
Proof.
  intros He Hc theirs.
  unfold checkMaintainerActivity, bind. rewrite He, Hc. unfold now, ret. simpl.
  set (es := map ge_created_at _). set (cm := map gc_created_at _).
  assert (Htheirs : theirs = es ++ cm) by reflexivity.
  assert (Hfold : latest (latest None es) cm = latest None (es ++ cm)).
  { unfold latest. now rewrite fold_left_app. }
  rewrite Hfold, <- Htheirs.
  pose proof (latest_spec theirs None) as Hspec.
  exists (default (sep_updatedAt item) (latest None theirs)).
  split.
  { do 3 f_equal. set (x := daysBetween _ _).
    destruct (Z.geb_spec x (maintainerInactivityDays config));
      [rewrite bool_decide_true | rewrite bool_decide_false]; auto; lia. }
  destruct (latest None theirs) as [m|]; simpl.
  - destruct Hspec as ([Hm|Hm] & Hall & _); [discriminate|].
    split; [|auto]. intros Hnil. rewrite Hnil in Hm. now apply elem_of_nil in Hm.
  - destruct Hspec as [_ Hnil]. split; [auto|]. intros Hne. contradiction.
Qed.

End MoreAnalysis.

Lemma analysis_is_well_formed_witness :
  let config := mockConfig false in
  let item := mockSEPItem (Some draft) ["maintainer1"] in
  let w := world (start config (mockRemote (jan1 + days 100) [] [])) in
  let a := verdict config item (jan1 + days 100) None in
  sa_shouldPing a = true
  /\ (sa_pingTarget a = Some target_sponsor <->
      sa_shouldPing a = true /\ sep_state item = Some draft).
Proof.
  intros config item w a.
  assert (H : (analyze config item w).1 = Ok a) by (vm_compute; reflexivity).
  split; [vm_compute; reflexivity|].
  apply (analysis_is_well_formed config item w a H).
Defined.


Lemma draft_and_accepted_thresholds_witness :
  let config := mockConfig false in
  let item := mockSEPItem (Some draft) [] in
  let w := world (start config (mockRemote (jan1 + days 400) [] [])) in
  exists a,
    analyze config item w = (Ok a, sent (ListComments 123) w)
    /\ sa_shouldMarkDormant a = false
    /\ sa_shouldPing a = true
    /\ sa_pingTarget a = Some target_sponsor.
Proof.
  intros config item w.
  destruct (draft_and_accepted_thresholds config item w (sent (ListComments 123) w) [])
    as (a & Hrun & Hdraft & _).
  - vm_compute. reflexivity.
  - intros d Hd. vm_compute in Hd. discriminate.
  - destruct (Hdraft eq_refl) as (Hdormant & _ & Hping & Htarget).
    assert (Hp : sa_shouldPing a = true) by (apply Hping; vm_compute; discriminate).
    exists a. auto.
Defined.

Lemma maintainer_activity_is_their_latest_witness :
  let config := mockConfig false in
  let item := mockSEPItem (Some draft) ["maintainer1"] in
  let nowDate := jan1 + days 30 in
  let comments :=
    [ quotingComment (Some "maintainer1") (jan1 + days 20);
      quotingComment (Some "someone-else") (jan1 + days 29);
      quotingComment (Some "maintainer1") (jan1 + days 5) ] in
  let w := world (start config (mockRemote nowDate comments [])) in
  exists lastActivity,
    (checkMaintainerActivity config item "maintainer1" w).1
    = Ok (daysBetween lastActivity nowDate,
          bool_decide (14 <= daysBetween lastActivity nowDate))
    /\ lastActivity = jan1 + days 20.
Proof.
  intros config item nowDate comments w.
  destruct (maintainer_activity_is_their_latest config item "maintainer1" w
              (sent (ListEvents 123) w) (sent (ListComments 123) (sent (ListEvents 123) w))
              [] comments)
    as (lastActivity & Hrun & _ & Hlatest).
  - vm_compute. reflexivity.
  - vm_compute. reflexivity.
  - exists lastActivity. split; [now rewrite Hrun|].
    destruct Hlatest as [Hin Hall]; [discriminate|].
    vm_compute in Hin, Hall.
    apply Forall_cons in Hall as [Hle _].
    apply elem_of_cons in Hin as [->|Hin]; [reflexivity|].
    apply elem_of_cons in Hin as [->|Hin]; [vm_compute in Hle; contradiction|].
    now apply elem_of_nil in Hin.
Defined.

(** ** What the components leave alone *)

Lemma sameResolver_refl (w : World) : sameResolver w w.
Proof. now split. Qed.

Lemma sameResolver_trans (w w' w'' : World) :
  sameResolver w w' -> sameResolver w' w'' -> sameResolver w w''.
Proof. intros [? ?] [? ?]. split; congruence. Qed.

Section KeepsRules.
Context {A B : Type}.

Lemma keeps_ret (a : A) : keeps (ret a).
Proof. intros w. apply sameResolver_refl. Qed.

Lemma keeps_throw (e : JsError) : keeps (@throw World A e).
Proof. intros w. apply sameResolver_refl. Qed.

Lemma keeps_gets (f : World -> A) : keeps (gets f).
Proof. intros w. apply sameResolver_refl. Qed.

Lemma keeps_request (c : Call) (reply : Remote -> list Call -> Result A) :
  keeps (request c reply).
Proof. intros w. now split. Qed.

Lemma keeps_bind (m : M A) (k : A -> M B) :
  keeps m -> (forall a, keeps (k a)) -> keeps (bind m k).
Proof.
  intros Hm Hk w. unfold bind. specialize (Hm w).
  destruct (m w) as [[a|e] w1]; simpl in *; [|exact Hm].
  eapply sameResolver_trans; [exact Hm | apply Hk].
Qed.

End KeepsRules.

Lemma keeps_try_catch {A} (m : M A) (h : JsError -> M A) :
  keeps m -> (forall e, keeps (h e)) -> keeps (try_catch m h).
Proof.
  intros Hm Hh w. unfold try_catch. specialize (Hm w).
  destruct (m w) as [[a|e] w1]; simpl in *; [exact Hm|].
  eapply sameResolver_trans; [exact Hm | apply Hh].
Qed.

Lemma keeps_now : keeps now.
Proof. intros w. apply sameResolver_refl. Qed.

Lemma keeps_set_initialized (b : bool) : keeps (modify (set_initialized b)).
Proof. intros w. now split. Qed.

Ltac keeps_step :=
  match goal with
  | |- keeps (bind _ _) => apply keeps_bind; [|intros ?]
  | |- keeps (try_catch _ _) => apply keeps_try_catch; [|intros ?]
  | |- keeps (ret _) => apply keeps_ret
  | |- keeps (throw _) => apply keeps_throw
  | |- keeps (gets _) => apply keeps_gets
  | |- keeps (request _ _) => apply keeps_request
  | |- keeps now => apply keeps_now
  | |- keeps (modify (set_initialized _)) => apply keeps_set_initialized
  | |- keeps (if ?b then _ else _) => destruct b
  | |- keeps (match ?x with _ => _ end) => destruct x
  | H : keeps ?m |- keeps ?m => exact H
  | H : forall a, keeps (?m a) |- keeps (?m _) => apply H
  end.

Ltac keeps_auto := repeat keeps_step.

Section KeepsClient.

Variable config : Config.

Lemma keeps_ensureInitialized : keeps (ensureInitialized config).
Proof. unfold ensureInitialized. keeps_auto. Qed.

Lemma keeps_getComments n : keeps (getComments config n).
Proof. unfold getComments. pose proof keeps_ensureInitialized. keeps_auto. Qed.

Lemma keeps_getEvents n : keeps (getEvents config n).
Proof. unfold getEvents. pose proof keeps_ensureInitialized. keeps_auto. Qed.

Lemma keeps_addComment n body : keeps (addComment config n body).
Proof. unfold addComment. pose proof keeps_ensureInitialized. keeps_auto. Qed.

Lemma keeps_addLabels n lbls : keeps (addLabels config n lbls).
Proof. unfold addLabels. pose proof keeps_ensureInitialized. keeps_auto. Qed.

Lemma keeps_removeLabel n lbl : keeps (removeLabel config n lbl).
Proof. unfold removeLabel. pose proof keeps_ensureInitialized. keeps_auto. Qed.

Lemma keeps_closeIssue n : keeps (closeIssue config n).
Proof. unfold closeIssue. pose proof keeps_ensureInitialized. keeps_auto. Qed.

Lemma keeps_getTeamMembers org team : keeps (getTeamMembers config org team).
Proof. unfold getTeamMembers. pose proof keeps_ensureInitialized. keeps_auto. Qed.

Lemma keeps_loadTeams (teams : list string) (allMembers : gset string) :
  keeps (loadTeams config teams allMembers).
Proof.
  revert allMembers. induction teams as [|team rest IH]; intros allMembers; simpl.
  - apply keeps_ret.
  - pose proof (keeps_getTeamMembers (targetOwner config) team). keeps_auto.
Qed.

Lemma keeps_analyze (item : SEPItem) : keeps (analyze config item).
Proof.
  unfold analyze, analyzeAt, getLastBotPingDate.
  pose proof (keeps_getComments (sep_number item)). keeps_auto.
Qed.

Lemma keeps_checkMaintainerActivity (item : SEPItem) (user : string) :
  keeps (checkMaintainerActivity config item user).
Proof.
  unfold checkMaintainerActivity.
  pose proof (keeps_getComments (sep_number item)).
  pose proof (keeps_getEvents (sep_number item)). keeps_auto.
Qed.

Lemma keeps_postComment action item comment dry :
  keeps (postComment config action item comment dry).
Proof.
  unfold postComment. pose proof (keeps_addComment (sep_number item) comment). keeps_auto.
Qed.

Lemma keeps_pingMaintainerDirectly item maintainer days dry :
  keeps (pingMaintainerDirectly config item maintainer days dry).
Proof. unfold pingMaintainerDirectly. apply keeps_postComment. Qed.

End KeepsClient.

(** Once the resolver has its set, the set depends on its own fields only. *)
Lemma sponsors_settled (config : Config) (w w' : World) :
  settled w -> sameResolver w w' -> sponsors config w' = sponsors config w.
Proof.
  intros Hs [Hm Ha].
  assert (Hrun : forall w0, settled w0 ->
            (ensureSponsorsLoaded config w0).1
            = Ok (default FALLBACK_SPONSORS (maintainerSet w0))).
  { intros w0 Hs0. unfold ensureSponsorsLoaded, bind, gets, ret.
    destruct (maintainerSet w0) as [s|] eqn:E0; [reflexivity|].
    destruct Hs0 as [[s Hs0]|Hs0]; [congruence|]. now rewrite Hs0. }
  assert (Hs' : settled w').
  { destruct Hs as [Hs|Hs]; [left | right]; congruence. }
  unfold sponsors. rewrite (Hrun w Hs), (Hrun w' Hs'). now rewrite Hm.
Qed.

Lemma ensureSponsorsLoaded_settles (config : Config) (w : World) :
  settled w \/ (maintainerSet w = None /\ loadAttempted w = false) ->
  settled (ensureSponsorsLoaded config w).2.
Proof.
  intros Hw.
  unfold ensureSponsorsLoaded, bind, gets, modify, try_catch, ret, throw.
  destruct (maintainerSet w) as [s|] eqn:Em; [left; simpl; now rewrite Em|].
  destruct (loadAttempted w) eqn:Ea; [now right|].
  generalize (loadTeams config SPONSOR_TEAMS ∅). intros m.
  destruct (m (set_loadAttempted true w)) as [[s0|e] w1]; simpl.
  - destruct (bool_decide (0 < size s0)%nat); left; simpl; eauto.
  - left. simpl. eauto.
Qed.

Lemma any_state_settles (config : Config) (w : World) :
  settled (ensureSponsorsLoaded config w).2.
Proof.
  apply ensureSponsorsLoaded_settles.
  destruct (maintainerSet w) as [s|] eqn:Em; [left; left; eauto|].
  destruct (loadAttempted w) eqn:Ea; [left; now right | now right].
Qed.

(** ** The template of every comment starts with the marker *)

Lemma prefix_app (s rest : string) : String.prefix s (s +:+ rest) = true.
Proof.
  induction s as [|a s IH]; simpl; [now destruct rest|].
  destruct (Ascii.ascii_dec a a); [exact IH | contradiction].
Qed.

Lemma includes_prefix (needle s : string) :
  String.prefix needle s = true -> Js.includes needle s = true.
Proof. intros H. destruct s; simpl; simpl in H; now rewrite H. Qed.

Lemma includes_marker (rest : string) :
  Js.includes BOT_COMMENT_MARKER (BOT_COMMENT_MARKER +:+ rest) = true.
Proof. apply includes_prefix, prefix_app. Qed.

(** ** Uniform footprints *)

Lemma sat_bind_given {A B} (P : Call -> Prop) (m : M A) (k : A -> M B)
    (R0 : Result A -> Prop) (R : Result B -> Prop) :
  sat m (fun r cs => R0 r /\ Forall P cs) ->
  (forall a, R0 (Ok a) -> sat (k a) (fun r cs => R r /\ Forall P cs)) ->
  (forall e, R0 (Throw e) -> R (Throw e)) ->
  sat (bind m k) (fun r cs => R r /\ Forall P cs).
Proof.
  intros Hm Hk He w. destruct (Hm w) as (cs1 & F1 & R1 & P1). unfold bind.
  destruct (m w) as [[a|e] w1]; simpl in *.
  - destruct (Hk a R1 w1) as (cs2 & F2 & R2 & P2).
    exists (cs1 ++ cs2). split; [eapply frame_trans; eauto|].
    split; [exact R2 | now apply Forall_app].
  - exists cs1. auto.
Qed.

Lemma sat_try_given {A} (P : Call -> Prop) (m : M A) (h : JsError -> M A)
    (R0 R : Result A -> Prop) :
  sat m (fun r cs => R0 r /\ Forall P cs) ->
  (forall e, sat (h e) (fun r cs => R r /\ Forall P cs)) ->
  (forall a, R0 (Ok a) -> R (Ok a)) ->
  sat (try_catch m h) (fun r cs => R r /\ Forall P cs).
Proof.
  intros Hm Hh Ha w. destruct (Hm w) as (cs1 & F1 & R1 & P1). unfold try_catch.
  destruct (m w) as [[a|e] w1]; simpl in *.
  - exists cs1. auto.
  - destruct (Hh e w1) as (cs2 & F2 & R2 & P2).
    exists (cs1 ++ cs2). split; [eapply frame_trans; eauto|].
    split; [exact R2 | now apply Forall_app].
Qed.

Lemma sat_pure {A} (P : Call -> Prop) (a : A) (R : Result A -> Prop) :
  R (Ok a) -> sat (ret a) (fun r cs => R r /\ Forall P cs).
Proof. intros H w. exists []. split; [apply frame_refl|]. split; [exact H | constructor]. Qed.

Lemma sat_now_given (P : Call -> Prop) :
  sat now (fun r cs => is_ok r /\ Forall P cs).
Proof.
  intros w. exists []. split; [apply frame_refl|]. split; [now eexists | constructor].
Qed.

Lemma sat_result {A} (P : Call -> Prop) (m : M A) (R R' : Result A -> Prop) :
  sat m (fun r cs => R r /\ Forall P cs) ->
  (forall r, R r -> R' r) ->
  sat m (fun r cs => R' r /\ Forall P cs).
Proof. intros Hm HR. eapply sat_weaken; [exact Hm|]. intros r cs [? ?]. auto. Qed.

Lemma resolverCall_read (c : Call) : resolverCall c -> isMutation c = false.
Proof. now destruct c. Qed.

Lemma touches_read (n : Z) (c : Call) : isMutation c = false -> touches n c.
Proof. now destruct c. Qed.

Ltac sound_auto :=
  unfold sound, coherent, succeeded, failed, createAction; simpl;
  repeat split; intros; subst; simpl in *;
  try reflexivity; try discriminate; try congruence; eauto;
  try (match goal with H : is_Some None |- _ => destruct H; discriminate end).

Section Footprints.

Variable config : Config.
Variable P : Call -> Prop.
Hypothesis P_read : forall c, isMutation c = false -> P c.

Lemma call_all {A} (c : Call) (m : M A) :
  P c -> sat m (guarded c) -> sat m (fun r cs => True /\ Forall P cs).
Proof.
  intros Hc Hm. eapply sat_weaken; [exact Hm|]. intros r cs Hg. split; [exact I|].
  eapply guarded_Forall; [apply P_read; reflexivity | exact Hc | exact Hg].
Qed.

Lemma resolver_all (cs : list Call) : Forall resolverCall cs -> Forall P cs.
Proof.
  intros H. eapply Forall_impl; [exact H|]. intros c Hc. apply P_read, resolverCall_read, Hc.
Qed.

Lemma getSponsor_all (assignees : list string) :
  sat (getSponsor config assignees) (fun r cs => is_ok r /\ Forall P cs).
Proof.
  eapply sat_weaken; [apply getSponsor_sat|]. intros r cs [? ?]. split; [assumption|].
  now apply resolver_all.
Qed.

Lemma canSponsor_all (username : string) :
  sat (canSponsor config username) (fun r cs => is_ok r /\ Forall P cs).
Proof.
  eapply sat_weaken; [apply canSponsor_sat|]. intros r cs [? ?]. split; [assumption|].
  now apply resolver_all.
Qed.

Lemma getComments_all (n : Z) :
  sat (getComments config n) (fun r cs => True /\ Forall P cs).
Proof. apply (call_all (ListComments n)); [now apply P_read | apply getComments_sat]. Qed.

Lemma getEvents_all (n : Z) :
  sat (getEvents config n) (fun r cs => True /\ Forall P cs).
Proof.
  apply (call_all (ListEvents n)); [now apply P_read|].
  unfold getEvents. apply guarded_sat, sat_request.
Qed.

Lemma getIssue_all (n : Z) :
  sat (getIssue config n) (fun r cs => True /\ Forall P cs).
Proof.
  apply (call_all (GetIssue n)); [now apply P_read|].
  unfold getIssue. apply guarded_sat, sat_request.
Qed.

Lemma getIssuesWithLabel_all (lbl : string) :
  sat (getIssuesWithLabel config lbl) (fun r cs => True /\ Forall P cs).
Proof.
  apply (call_all (ListForRepo lbl)); [now apply P_read|].
  unfold getIssuesWithLabel. apply guarded_sat, sat_request.
Qed.

Lemma analyzeAt_all (nowDate : Z) (item : SEPItem) :
  sat (analyzeAt config nowDate item)
      (fun r cs => (forall a, r = Ok a -> sa_item a = item) /\ Forall P cs).
Proof.
  unfold analyzeAt, getLastBotPingDate.
  eapply sat_bind_given with (R0 := fun _ => True).
  - eapply sat_bind_given with (R0 := fun _ => True);
      [apply getComments_all | intros; now apply sat_pure | auto].
  - intros last _. apply sat_pure. intros a [= <-].
    apply (verdict_shape config item nowDate last).
  - intros e _ a. discriminate.
Qed.

Lemma analyze_all (item : SEPItem) :
  sat (analyze config item)
      (fun r cs => (forall a, r = Ok a -> sa_item a = item) /\ Forall P cs).
Proof.
  unfold analyze. eapply sat_bind_given; [apply sat_now_given | |].
  - intros nowDate _. apply analyzeAt_all.
  - intros e _ a. discriminate.
Qed.

Lemma checkMaintainerActivity_all (item : SEPItem) (user : string) :
  sat (checkMaintainerActivity config item user) (fun r cs => True /\ Forall P cs).
Proof.
  unfold checkMaintainerActivity.
  eapply sat_bind_given; [apply getEvents_all | | auto]. intros events _.
  eapply sat_bind_given; [apply getComments_all | | auto]. intros comments _.
  eapply sat_bind_given; [apply sat_now_given | | auto]. intros nowDate _.
  now apply sat_pure.
Qed.

Section OnItem.

Variable item : SEPItem.
Variable dry : bool.
Hypothesis P_own : dry = false -> forall c, touches (sep_number item) c -> P c.

Lemma postComment_all (action : SEPAction) (comment : string) :
  act_item action = item ->
  act_dryRun action = dry ->
  sat (postComment config action item comment dry)
      (fun r cs => reported item dry r /\ Forall P cs).
Proof.
  intros Hitem Hdry. unfold postComment. destruct dry eqn:Ed.
  - apply sat_pure. eexists. split; [reflexivity|]. sound_auto.
  - eapply sat_try_given
      with (R0 := fun r => forall res, r = Ok res -> sound item false res).
    + eapply sat_bind_given with (R0 := fun _ => True).
      * apply (call_all (CreateComment (sep_number item) comment));
          [now apply P_own | apply addComment_sat].
      * intros url _. apply sat_pure. intros res [= <-]. sound_auto.
      * intros e _ res. discriminate.
    + intros e. apply sat_pure. eexists. split; [reflexivity|]. sound_auto.
    + intros res H. exists res. split; [reflexivity | now apply H].
Qed.

Lemma pingMaintainerDirectly_all (maintainer : string) (days : Z) :
  sat (pingMaintainerDirectly config item maintainer days dry)
      (fun r cs => reported item dry r /\ Forall P cs).
Proof. unfold pingMaintainerDirectly. now apply postComment_all. Qed.

Lemma pingAuthor_all (days : Z) :
  sat (pingAuthor config item days dry) (fun r cs => reported item dry r /\ Forall P cs).
Proof. unfold pingAuthor. now apply postComment_all. Qed.

Lemma postNeedsSponsor_all (days : Z) :
  sat (postNeedsSponsor config item days dry)
      (fun r cs => reported item dry r /\ Forall P cs).
Proof. unfold postNeedsSponsor. now apply postComment_all. Qed.

Lemma pingSponsor_all (days : Z) :
  sat (pingSponsor config item days dry) (fun r cs => reported item dry r /\ Forall P cs).
Proof.
  unfold pingSponsor. eapply sat_bind_given; [apply getSponsor_all | |].
  - intros found _. destruct (negb (Js.truthy found));
      [apply postNeedsSponsor_all | now apply postComment_all].
  - intros e [a Ha]. discriminate.
Qed.

Lemma pingMaintainer_all (days : Z) :
  sat (pingMaintainer config item days dry)
      (fun r cs => reported item dry r /\ Forall P cs).
Proof.
  unfold pingMaintainer. eapply sat_bind_given; [apply getSponsor_all | |].
  - intros found _. destruct (negb (Js.truthy found)).
    + apply sat_pure. eexists. split; [reflexivity|]. sound_auto.
    + apply pingMaintainerDirectly_all.
  - intros e [a Ha]. discriminate.
Qed.

Lemma markDormant_all (days : Z) (shouldClose : bool) :
  sat (markDormant config item days shouldClose dry)
      (fun r cs => reported item dry r /\ Forall P cs).
Proof.
  unfold markDormant.
  destruct (match sep_state item with
            | Some s => if negb (includes_state (STATE_TRANSITIONS s) dormant)
                        then Some _ else None
            | None => None
            end) as [error|].
  { apply sat_pure. eexists. split; [reflexivity|]. sound_auto. }
  destruct dry eqn:Ed.
  { apply sat_pure. eexists. split; [reflexivity|]. sound_auto. }
  eapply sat_try_given
    with (R0 := fun r => forall res, r = Ok res -> sound item false res).
  - eapply sat_bind_given with (R0 := fun _ => True); [| |intros e _ res; discriminate].
    { destruct (sep_state item) as [s|]; [|now apply sat_pure].
      destruct (bool_decide (s <> dormant)); [|now apply sat_pure].
      apply (call_all (RemoveLabel (sep_number item) (label s)));
        [now apply P_own | apply removeLabel_sat]. }
    intros _ _.
    eapply sat_bind_given with (R0 := fun _ => True); [| |intros e _ res; discriminate].
    { apply (call_all (AddLabels (sep_number item) ["dormant"]));
        [now apply P_own | apply addLabels_sat]. }
    intros _ _.
    eapply sat_bind_given with (R0 := fun _ => True); [| |intros e _ res; discriminate].
    { apply (call_all (CreateComment (sep_number item) (createDormantComment item days)));
        [now apply P_own | apply addComment_sat]. }
    intros url _.
    eapply sat_bind_given with (R0 := fun _ => True); [| |intros e _ res; discriminate].
    { destruct shouldClose; [|now apply sat_pure].
      apply (call_all (CloseIssue (sep_number item)));
        [now apply P_own | apply closeIssue_sat]. }
    intros _ _. apply sat_pure. intros res [= <-]. sound_auto.
  - intros e. apply sat_pure. eexists. split; [reflexivity|]. sound_auto.
  - intros res H. exists res. split; [reflexivity | now apply H].
Qed.

Lemma executePing_all (analysis : StaleAnalysis) :
  sa_item analysis = item ->
  sat (executePing config analysis dry)
      (fun r cs => reported item dry r /\ Forall P cs).
Proof.
  intros Hitem. unfold executePing. rewrite Hitem.
  destruct (sa_shouldMarkDormant analysis); [apply markDormant_all|].
  destruct (sa_pingTarget analysis) as [[]|].
  - apply pingAuthor_all.
  - apply pingSponsor_all.
  - apply pingMaintainer_all.
  - apply sat_pure. eexists. split; [reflexivity|]. sound_auto.
Qed.

Lemma executeTransition_all (toState : SEPState) (sponsor : string) :
  sat (executeTransition config item toState sponsor dry)
      (fun r cs => reported item dry r /\ Forall P cs).
Proof.
  unfold executeTransition.
  destruct (negb (fst (match sep_state item with
                       | Some _ => validateTransition (sep_state item) toState
                       | None => (true, "")
                       end))).
  { apply sat_pure. eexists. split; [reflexivity|]. sound_auto. }
  destruct dry eqn:Ed.
  { apply sat_pure. eexists. split; [reflexivity|]. sound_auto. }
  eapply sat_try_given
    with (R0 := fun r => forall res, r = Ok res -> sound item false res).
  - eapply sat_bind_given with (R0 := fun _ => True); [| |intros e _ res; discriminate].
    { destruct (sep_state item) as [s|]; [|now apply sat_pure].
      apply (call_all (RemoveLabel (sep_number item) (label s)));
        [now apply P_own | apply removeLabel_sat]. }
    intros _ _.
    eapply sat_bind_given with (R0 := fun _ => True); [| |intros e _ res; discriminate].
    { apply (call_all (AddLabels (sep_number item) [label toState]));
        [now apply P_own | apply addLabels_sat]. }
    intros _ _.
    eapply sat_bind_given with (R0 := fun _ => True); [| |intros e _ res; discriminate].
    { eapply (call_all (CreateComment (sep_number item) _));
        [now apply P_own | apply addComment_sat]. }
    intros url _. apply sat_pure. intros res [= <-]. sound_auto.
  - intros e. apply sat_pure. eexists. split; [reflexivity|]. sound_auto.
  - intros res H. exists res. split; [reflexivity | now apply H].
Qed.

End OnItem.
End Footprints.

(** ** Further properties of the client *)

(** X9. A configuration that [loadConfig] accepts always authenticates the
    client: with a token no request is needed, and with application
    credentials the only failure of [ensureInitialized] is the failure of
    the installation lookup itself; the error for a missing authentication
    is never raised. *)
Theorem loaded_config_authenticates (token app key : option string) (dry : bool)
    (config : Config) (r : Remote) :
  loadConfig token app key dry = Some config ->
  let w := world (start config r) in
  (Js.truthy token = true -> ensureInitialized config w = (Ok tt, w))
  /\ (Js.truthy token = false ->
      ensureInitialized config w =
      match on_getRepoInstallation r [] with
      | Ok _ => (Ok tt, set_initialized true (sent GetRepoInstallation w))
      | Throw e => (Throw e, sent GetRepoInstallation w)
      end).
Proof.
  intros Hload w. unfold loadConfig in Hload.
  destruct (Js.truthy token) eqn:Et; simpl in Hload.
  - injection Hload as <-. split; [|discriminate]. intros _.
    unfold ensureInitialized, bind, gets. simpl. unfold constructed. simpl. now rewrite Et.
  - destruct (Js.truthy app) eqn:Ea, (Js.truthy key) eqn:Ek; simpl in Hload;
      try discriminate.
    injection Hload as <-. split; [discriminate|]. intros _.
    unfold ensureInitialized, bind, gets, request. simpl. unfold constructed. simpl.
    rewrite Et, Ea, Ek. simpl.
    now destruct (on_getRepoInstallation r []).
Qed.

Lemma loaded_config_authenticates_witness :
  let config := fromEnv None (Some "12345") (Some "private-key") false in
  let w := world (start config (mockRemote jan1 [] [])) in
  ensureInitialized config w = (Ok tt, set_initialized true (sent GetRepoInstallation w)).
Proof.
  intros config w.
  destruct (loaded_config_authenticates None (Some "12345") (Some "private-key") false
              config (mockRemote jan1 [] [])) as [_ H].
  - reflexivity.
  - apply H. reflexivity.
Defined.

Section MoreClient.

Variable config : Config.

(** X10. The installation is looked up once: after a successful
    [ensureInitialized] the client is initialised and a further call sends
    nothing; a failed lookup is not remembered, so that the next call tries
    again. *)
Theorem installation_is_looked_up_once (w w' : World) (r : Result unit) :
  ensureInitialized config w = (r, w') ->
  match r with
  | Ok _ => initialized w' = true /\ ensureInitialized config w' = (Ok tt, w')
  | Throw _ => initialized w' = false /\ initialized w = false
  end.
Proof.
  unfold ensureInitialized, bind, gets, request, modify, throw, ret.
  destruct (initialized w) eqn:Ei.
  - intros [= <- <-]. now rewrite Ei.
  - destruct (Js.truthy (appId config) && Js.truthy (appPrivateKey config)).
    + destruct (on_getRepoInstallation (remote w) (calls w)); intros [= <- <-]; simpl; auto.
    + intros [= <- <-]. auto.
Qed.

End MoreClient.

Lemma installation_is_looked_up_once_witness :
  let config := fromEnv None (Some "12345") (Some "private-key") false in
  let w := world (start config (mockRemote jan1 [] [])) in
  let w' := set_initialized true (sent GetRepoInstallation w) in
  initialized w' = true /\ ensureInitialized config w' = (Ok tt, w').
Proof.
  intros config w w'.
  apply (installation_is_looked_up_once config w w' (Ok tt)). reflexivity.
Defined.

(** ** Further properties of the maintainer resolver *)

Lemma find_first {A} (p : A -> bool) (l : list A) :
  match List.find p l with
  | Some a => exists before after,
                l = before ++ a :: after /\ p a = true
                /\ Forall (fun b => p b = false) before
  | None => Forall (fun b => p b = false) l
  end.
Proof.
  induction l as [|x l IH]; simpl; [constructor|].
  destruct (p x) eqn:Ex.
  - exists [], l. repeat split; auto.
  - destruct (List.find p l) as [a|].
    + destruct IH as (before & after & -> & Ha & Hb).
      exists (x :: before), after. repeat split; auto.
    + now constructor.
Qed.

Lemma fallback_sponsors_nonempty : FALLBACK_SPONSORS <> ∅.
Proof.
  intros H.
  assert (Hin : "jspahrsummers" ∈ FALLBACK_SPONSORS).
  { unfold FALLBACK_SPONSORS. apply elem_of_list_to_set. constructor. }
  rewrite H in Hin. now apply elem_of_empty in Hin.
Qed.

Section MoreResolver.

Variable config : Config.

(** X11. The sponsor of an item is the first of its assignees, in the
    order of the assignee list, who is in the sponsor set; there is none
    exactly if no assignee is.  Finding it sends nothing but the reads of
    the resolver. *)
Theorem sponsor_is_first_eligible_assignee (assignees : list string) (w : World) :
  exists found w',
    getSponsor config assignees w = (Ok found, w')
    /\ match found with
       | Some a =>
           exists before after,
             assignees = before ++ a :: after
             /\ a ∈ sponsors config w
             /\ Forall (fun b => b ∉ sponsors config w) before
       | None => Forall (fun b => b ∉ sponsors config w) assignees
       end
    /\ sponsors config w' = sponsors config w
    /\ Forall resolverCall (issued w w').
Proof.
  destruct (getSponsor_quiet config assignees w) as (w' & Hrun & Hsame & Hcalls).
  eexists _, w'. split; [exact Hrun|]. split; [|auto].
  pose proof (find_first (fun a => bool_decide (a ∈ sponsors config w)) assignees) as Hf.
  destruct (List.find _ assignees) as [a|].
  - destruct Hf as (before & after & -> & Ha & Hb).
    exists before, after. split; [reflexivity|]. split.
    + now apply bool_decide_eq_true in Ha.
    + eapply Forall_impl; [exact Hb|]. intros b Hbf. now apply bool_decide_eq_false in Hbf.
  - eapply Forall_impl; [exact Hf|]. intros b Hbf. now apply bool_decide_eq_false in Hbf.
Qed.

(** X12. The sponsor set is loaded once: after the first call that needs
    it, every membership test and every search for a sponsor answers from
    the same set and leaves the state as it is, sending no request. *)
Theorem sponsors_are_loaded_once (w : World) :
  exists s w',
    ensureSponsorsLoaded config w = (Ok s, w')
    /\ (forall username,
          canSponsor config username w' = (Ok (bool_decide (username ∈ s)), w'))
    /\ (forall assignees,
          getSponsor config assignees w'
          = (Ok (List.find (fun a => bool_decide (a ∈ s)) assignees), w')).
Proof.
  destruct (ensureSponsorsLoaded_stable config w) as (w' & Hfirst & Hagain).
  exists (sponsors config w), w'. split; [exact Hfirst|].
  assert (Hcan : forall username,
             canSponsor config username w'
             = (Ok (bool_decide (username ∈ sponsors config w)), w')).
  { intros username. unfold canSponsor, bind. now rewrite Hagain. }
  split; [exact Hcan|].
  induction assignees as [|a rest IH]; [reflexivity|].
  simpl. unfold bind. rewrite Hcan.
  destruct (bool_decide (a ∈ sponsors config w)); [reflexivity | exact IH].
Qed.

Lemma loadTeams_silent (teams : list string) (w : World) :
  silent config (remote w) ->
  exists w', loadTeams config teams ∅ w = (Ok ∅, w') /\ remote w' = remote w.
Proof.
  intros Hsilent. revert w Hsilent.
  induction teams as [|team rest IH]; intros w Hsilent; [now exists w|].
  simpl. unfold bind at 1. unfold try_catch.
  destruct (getTeamMembers_sat config (targetOwner config) team w) as (cs & Hframe & _).
  assert (Hstep : exists w1,
             (let (r, w0) := (members <- getTeamMembers config (targetOwner config) team ;;
                              ret (∅ ∪ list_to_set members)) w in
              match r with
              | Ok a => (Ok a, w0)
              | Throw _ => ret (∅ : gset string) w0
              end) = (Ok ∅, w1) /\ remote w1 = remote w).
  { unfold bind, ret.
    destruct (getTeamMembers config (targetOwner config) team w) as [[members|e] w1] eqn:E;
      simpl in Hframe; exists w1; (split; [|apply Hframe]); [|reflexivity].
    assert (Hm : members = []).
    { unfold getTeamMembers, bind, request in E.
      destruct (ensureInitialized_sat config w) as (cs0 & Hframe0 & _).
      destruct (ensureInitialized config w) as [[[]|e0] w0]; simpl in Hframe0;
        [|discriminate].
      injection E as E _.
      specialize (Hsilent (calls w0) team).
      destruct Hframe0 as [_ Hr _]. rewrite Hr in E. rewrite E in Hsilent. exact Hsilent. }
    subst members.
    assert (Hu : (∅ ∪ list_to_set [] : gset string) = ∅) by set_solver.
    now rewrite Hu. }
  destruct Hstep as (w1 & -> & Hr1).
  destruct (IH w1) as (w' & Hrun & Hr'); [now rewrite Hr1|].
  exists w'. split; [exact Hrun | congruence].
Qed.

Lemma listed_cons (r : Remote) (h : list Call) (team : string) (rest : list string)
    (u : string) :
  listed config r h (team :: rest) u
  <-> (exists members, on_listMembers r h (targetOwner config) team = Ok members
                       /\ u ∈ members)
      \/ listed config r (h ++ [ListMembers (targetOwner config) team]) rest u.
Proof.
  unfold listed. split.
  - intros (i & t & members & Hi & Hreply & Hu). destruct i as [|i]; simpl in *.
    + injection Hi as <-. rewrite app_nil_r in Hreply. left. eauto.
    + right. exists i, t, members. rewrite <- app_assoc. auto.
  - intros [(members & Hreply & Hu) | (i & t & members & Hi & Hreply & Hu)].
    + exists 0%nat, team, members. simpl. rewrite app_nil_r. auto.
    + exists (S i), t, members. simpl. rewrite <- app_assoc in Hreply. auto.
Qed.

(** On an initialised client every team is asked for, in the order of the
    list, and the members listed are collected. *)
Lemma loadTeams_listed (teams : list string) :
  forall (acc : gset string) (w : World),
    initialized w = true ->
    exists s w',
      loadTeams config teams acc w = (Ok s, w')
      /\ calls w' = calls w ++ map (ListMembers (targetOwner config)) teams
      /\ forall u, u ∈ s <-> u ∈ acc \/ listed config (remote w) (calls w) teams u.
Proof.
  induction teams as [|team rest IH]; intros acc w Hinit.
  - exists acc, w. split; [reflexivity|]. split; [now rewrite app_nil_r|].
    intros u. split; [auto|]. intros [?|(i & t & ms & Hi & _)]; [assumption | discriminate].
  - set (c := ListMembers (targetOwner config) team).
    assert (Hstep : getTeamMembers config (targetOwner config) team w
                    = (on_listMembers (remote w) (calls w) (targetOwner config) team,
                       sent c w)).
    { unfold getTeamMembers, bind. now rewrite (ensureInitialized_ready config w Hinit). }
    cbn [loadTeams]. unfold bind at 1. unfold try_catch, bind at 1. rewrite Hstep.
    destruct (on_listMembers (remote w) (calls w) (targetOwner config) team)
      as [members|e] eqn:Hreply; cbn [ret].
    + destruct (IH (acc ∪ list_to_set members) (sent c w) Hinit) as (s & w' & Hrun & Hcalls & Hs).
      exists s, w'. split; [exact Hrun|]. split.
      * rewrite Hcalls. simpl. now rewrite <- app_assoc.
      * intros u. rewrite Hs, listed_cons. simpl. rewrite elem_of_union, elem_of_list_to_set.
        split.
        -- intros [[?|?]|?]; [now left | right; left; eauto | right; now right].
        -- intros [?|[(ms & Hms & ?)|?]]; [left; now left | | now right].
           rewrite Hreply in Hms. injection Hms as <-. left. now right.
    + destruct (IH acc (sent c w) Hinit) as (s & w' & Hrun & Hcalls & Hs).
      exists s, w'. split; [exact Hrun|]. split.
      * rewrite Hcalls. simpl. now rewrite <- app_assoc.
      * intros u. rewrite Hs, listed_cons. simpl. split.
        -- intros [?|?]; [now left | right; now right].
        -- intros [?|[(ms & Hms & _)|?]]; [now left | congruence | now right].
Qed.

(** X13. The sponsor set the resolver loads is never empty, and loading
    never throws.  On an initialised client the first call asks for the
    members of every sponsor team of the owner, in the order of the list
    and nothing else; if the listings that succeed have a member, the set
    is exactly the logins they list, and the built-in fallback list
    otherwise, in particular when every listing fails or is empty.  After
    the first attempt the set is cached and [loadAttempted] is set. *)
Theorem sponsor_set_is_never_empty (w : World) :
  maintainerSet w = None ->
  exists s w',
    ensureSponsorsLoaded config w = (Ok s, w')
    /\ s <> ∅
    /\ (loadAttempted w = false -> maintainerSet w' = Some s /\ loadAttempted w' = true)
    /\ (silent config (remote w) -> s = FALLBACK_SPONSORS)
    /\ (initialized w = true -> loadAttempted w = false ->
        issued w w' = map (ListMembers (targetOwner config)) SPONSOR_TEAMS
        /\ ((exists u, listed config (remote w) (calls w) SPONSOR_TEAMS u) ->
            forall u, u ∈ s <-> listed config (remote w) (calls w) SPONSOR_TEAMS u)
        /\ ((forall u, ~ listed config (remote w) (calls w) SPONSOR_TEAMS u) ->
            s = FALLBACK_SPONSORS)).
Proof.
  intros Hnone.
  unfold ensureSponsorsLoaded, bind, gets, modify, try_catch, ret, throw. rewrite Hnone.
  destruct (loadAttempted w) eqn:Ea.
  - exists FALLBACK_SPONSORS, w. split; [reflexivity|].
    split; [exact fallback_sponsors_nonempty|]. split; [discriminate|].
    split; [reflexivity | discriminate].
  - pose proof (loadTeams_silent SPONSOR_TEAMS (set_loadAttempted true w)) as Hsilent.
    pose proof (keeps_loadTeams config SPONSOR_TEAMS ∅ (set_loadAttempted true w)) as Hkeeps.
    pose proof (loadTeams_listed SPONSOR_TEAMS ∅ (set_loadAttempted true w)) as Hlisted.
    destruct (loadTeams_sat config SPONSOR_TEAMS ∅ (set_loadAttempted true w))
      as (cs & _ & [s Hs] & _).
    revert Hsilent Hkeeps Hlisted Hs. generalize (loadTeams config SPONSOR_TEAMS ∅).
    intros m Hsilent Hkeeps Hlisted Hs.
    destruct (m (set_loadAttempted true w)) as [[s0|e] w1] eqn:E; simpl in Hs;
      [|discriminate].
    destruct Hkeeps as [_ Hattempted]. simpl in Hattempted.
    injection Hs as <-.
    assert (Hteams : initialized w = true ->
               drop (length (calls w)) (calls w1)
               = map (ListMembers (targetOwner config)) SPONSOR_TEAMS
               /\ forall u, u ∈ s0 <-> listed config (remote w) (calls w) SPONSOR_TEAMS u).
    { intros Hinit. destruct (Hlisted Hinit) as (s1 & w1' & [= <- <-] & Hcalls & Hin).
      simpl in Hcalls, Hin. split.
      - rewrite Hcalls, drop_app_length. reflexivity.
      - intros u. rewrite Hin. split; [intros [Hu|?]; [inversion Hu | assumption] | now right]. }
    destruct (bool_decide (0 < size s0)%nat) eqn:Esize.
    + exists s0, (set_maintainerSet (Some s0) w1). split; [reflexivity|].
      apply bool_decide_eq_true in Esize. split; [|split; [|split]].
      * intros ->. rewrite size_empty in Esize. lia.
      * intros _. split; [reflexivity | exact Hattempted].
      * intros Hr. destruct (Hsilent Hr) as (w2 & Hrun & _).
        injection Hrun as -> _. rewrite size_empty in Esize. lia.
      * intros Hinit _. destruct (Hteams Hinit) as [Hcalls Hin].
        split; [exact Hcalls|]. split; [intros _; exact Hin|].
        intros Hnobody. exfalso.
        destruct (set_choose_L s0) as [u Hu].
        { intros ->. rewrite size_empty in Esize. lia. }
        apply (Hnobody u), Hin, Hu.
    + exists FALLBACK_SPONSORS, (set_maintainerSet (Some FALLBACK_SPONSORS) w1).
      split; [reflexivity|]. split; [exact fallback_sponsors_nonempty|].
      split; [intros _; split; [reflexivity | exact Hattempted]|].
      split; [reflexivity|].
      intros Hinit _. destruct (Hteams Hinit) as [Hcalls Hin].
      split; [exact Hcalls|]. split; [|reflexivity].
      intros [u Hu]. exfalso. apply Hin in Hu.
      apply bool_decide_eq_false in Esize.
      assert (Hsize : size s0 <> 0%nat).
      { intros Hz. apply size_empty_inv in Hz. set_solver. }
      lia.
Qed.

End MoreResolver.

Lemma sponsor_set_is_never_empty_witness :
  let config := mockConfig false in
  let w := world (start config (mockRemote jan1 [] ["maintainer1"; "maintainer2"])) in
  exists s w',
    ensureSponsorsLoaded config w = (Ok s, w')
    /\ (forall u, u ∈ s <-> u = "maintainer1" \/ u = "maintainer2")
    /\ issued w w' = map (ListMembers "test-owner") SPONSOR_TEAMS.
Proof.
  intros config w.
  destruct (sponsor_set_is_never_empty config w) as (s & w' & Hrun & _ & _ & _ & Hteams).
  - reflexivity.
  - destruct (Hteams eq_refl eq_refl) as (Hcalls & Hlisted & _).
    assert (Hmembers : forall u, listed config (remote w) (calls w) SPONSOR_TEAMS u
                                 <-> u = "maintainer1" \/ u = "maintainer2").
    { intros u. split.
      - intros (i & team & members & _ & [= <-] & Hu).
        apply elem_of_cons in Hu as [-> | Hu]; [now left|].
        apply elem_of_cons in Hu as [-> | Hu]; [now right | inversion Hu].
      - intros Hu. exists 0%nat, "core-maintainers", ["maintainer1"; "maintainer2"].
        split; [reflexivity|]. split; [reflexivity|].
        destruct Hu as [-> | ->]; [apply elem_of_cons; now left|].
        apply elem_of_cons. right. apply elem_of_cons. now left. }
    exists s, w'. split; [exact Hrun|]. split; [|exact Hcalls].
    intros u. rewrite <- Hmembers. apply Hlisted.
    exists "maintainer1". apply Hmembers. now left.
Defined.

(** ** Further properties of the detector *)

Section MoreDetector.

Variable config : Config.
Variable toUpperCase : string -> string.

(** X14. [getSEP] never fails: it returns the item converted if the issue
    could be fetched and is a SEP, and nothing both if it is no SEP and if
    the fetch failed, whatever the error; it changes nothing. *)
Theorem getSEP_never_throws (number : Z) (w : World) :
  exists found w',
    getSEP config toUpperCase number w = (found, w')
    /\ (getIssue config number w).2 = w'
    /\ found = match (getIssue config number w).1 with
               | Ok item =>
                   Ok (if isSEP toUpperCase item then Some (toSEPItem item) else None)
               | Throw _ => Ok None
               end
    /\ Forall (fun c => isMutation c = false) (issued w w').
Proof.
  destruct (getIssue_all config (fun c => isMutation c = false) (fun c H => H) number w)
    as (cs & Hframe & _ & Hcs).
  unfold getSEP, try_catch, bind, ret.
  destruct (getIssue config number w) as [[item|e] w1]; simpl in *.
  - destruct (isSEP toUpperCase item); simpl; eexists _, w1;
      (split; [reflexivity|]); rewrite (frame_issued _ _ _ Hframe); auto.
  - eexists _, w1. split; [reflexivity|]. rewrite (frame_issued _ _ _ Hframe). auto.
Qed.

(** X15. [findSEPsByState] keeps, in the order of the listing, exactly the
    listed items that are SEPs, converted: it neither merges items of the
    same number nor looks at whether an item is open.  It fails exactly if
    the listing fails, and changes nothing. *)
Theorem findSEPsByState_keeps_the_SEPs (state : string) (w : World) :
  let listing := getIssuesWithLabel config state w in
  let found := findSEPsByState config toUpperCase state w in
  found.2 = listing.2
  /\ Forall (fun c => isMutation c = false) (issued w found.2)
  /\ match listing.1 with
     | Ok items =>
         exists seps,
           found.1 = Ok seps
           /\ sublist (map sep_number seps) (map gi_number items)
           /\ (forall sep, sep ∈ seps <->
                           exists item, item ∈ items /\ isSEP toUpperCase item = true
                                        /\ sep = toSEPItem item)
     | Throw e => found.1 = Throw e
     end.
Proof.
  intros listing found. subst listing found.
  destruct (getIssuesWithLabel_all config (fun c => isMutation c = false) (fun c H => H)
              state w) as (cs & Hframe & _ & Hcs).
  unfold findSEPsByState, bind, ret.
  destruct (getIssuesWithLabel config state w) as [[items|e] w1]; simpl in *;
    (split; [reflexivity|]); (split; [now rewrite (frame_issued _ _ _ Hframe)|]);
    [|reflexivity].
  eexists. split; [reflexivity|]. split.
  - clear. induction items as [|item items IH]; simpl; [constructor|].
    destruct (isSEP toUpperCase item); simpl; now constructor.
  - intros sep. rewrite list_elem_of_fmap. split.
    + intros (item & -> & Hitem).
      apply list_elem_of_In, filter_In in Hitem as [Hin Hsep].
      exists item. split; [now apply list_elem_of_In | auto].
    + intros (item & Hin & Hsep & ->). exists item. split; [reflexivity|].
      apply list_elem_of_In, filter_In. split; [now apply list_elem_of_In | exact Hsep].
Qed.

End MoreDetector.

(** ** Further properties of the handlers *)

Section MoreHandlers.

Variable config : Config.

(** X16. The handlers never throw: whatever the remote does, a
    transition, a staleness action and a maintainer ping return a result,
    which names the item, repeats the dry-run flag, carries an error
    message exactly if [success] is false, and carries the URL of a comment
    only if it succeeded outside a dry run. *)
Theorem handlers_report_failures_in_the_result (w : World) :
  (forall item toState sponsor dry,
     exists res w',
       executeTransition config item toState sponsor dry w = (Ok res, w')
       /\ sound item dry res)
  /\ (forall analysis dry,
        exists res w',
          executePing config analysis dry w = (Ok res, w')
          /\ sound (sa_item analysis) dry res)
  /\ (forall item maintainer days dry,
        exists res w',
          pingMaintainerDirectly config item maintainer days dry w = (Ok res, w')
          /\ sound item dry res).
Proof.
  assert (Hrun : forall (m : M ActionResult) item dry,
             sat m (fun r cs => reported item dry r /\ Forall (fun _ => True) cs) ->
             exists res w', m w = (Ok res, w') /\ sound item dry res).
  { intros m item dry Hm. destruct (Hm w) as (cs & _ & (res & Hres & Hsound) & _).
    exists res, (m w).2. split; [|exact Hsound].
    destruct (m w) as [r w']. simpl in *. now subst. }
  split; [|split]; intros.
  - apply Hrun, executeTransition_all; auto.
  - apply Hrun, executePing_all; auto.
  - apply Hrun, pingMaintainerDirectly_all; auto.
Qed.

(** X17. A transition is validated before anything is sent, dry run or
    not: an edge that is not in the table sends nothing and is reported
    with the reason.  A legal transition outside a dry run removes the old
    state label (if the item has one), then adds the new one, then posts
    the comment, in this order and nothing else; a failure on the way ends
    the sequence, and [success] with the URL of the comment is reported
    only if all of it was sent. *)
Theorem transition_orders_the_label_changes (item : SEPItem) (toState : SEPState)
    (sponsor : string) (w : World) :
  let n := sep_number item in
  let plan :=
    match sep_state item with Some s => [RemoveLabel n (label s)] | None => [] end
    ++ [ AddLabels n [label toState];
         CreateComment n
           (createTransitionComment item (sep_state item) (Some toState) sponsor) ] in
  if isValidTransition (sep_state item) toState then
    exists res w',
      executeTransition config item toState sponsor false w = (Ok res, w')
      /\ mutations (issued w w') `prefix_of` plan
      /\ (res_success res = true ->
          mutations (issued w w') = plan /\ is_Some (res_commentUrl res))
  else
    forall dry,
      exists res,
        executeTransition config item toState sponsor dry w = (Ok res, w)
        /\ res_success res = false
        /\ res_error res = Some (snd (validateTransition (sep_state item) toState)).
Proof.
  intros n plan.
  destruct (isValidTransition (sep_state item) toState) eqn:Hvalid.
  - destruct (executeTransition_follows config item toState sponsor Hvalid w)
      as (cs & Hframe & res & Hres & Hpre & Hall).
    exists res, (executeTransition config item toState sponsor false w).2.
    rewrite (frame_issued _ _ _ Hframe).
    split; [|split; [exact Hpre | exact Hall]].
    destruct (executeTransition config item toState sponsor false w) as [r w'].
    simpl in *. now subst.
  - intros dry. unfold executeTransition.
    destruct (sep_state item) as [s|] eqn:Es; [|discriminate].
    unfold validateTransition. rewrite Hvalid. simpl. eexists. split; [reflexivity|].
    split; reflexivity.
Qed.

Lemma postComment_one (action : SEPAction) (item : SEPItem) (comment : string)
    (dry : bool) (w : World) :
  exists res w' cs,
    postComment config action item comment dry w = (Ok res, w')
    /\ frame w w' cs
    /\ res_action res = action
    /\ (mutations cs = [] \/ mutations cs = [CreateComment (sep_number item) comment])
    /\ (is_Some (res_commentUrl res) -> mutations cs <> [])
    /\ (dry = true -> mutations cs = []).
Proof.
  unfold postComment. destruct dry.
  - exists (succeeded action None), w, []. split; [reflexivity|].
    split; [apply frame_refl|]. split; [reflexivity|]. split; [now left|].
    split; [intros [? ?]; discriminate | reflexivity].
  - destruct (addComment_sat config (sep_number item) comment w) as (cs & Hframe & Hg).
    unfold try_catch, bind, ret.
    destruct (addComment config (sep_number item) comment w) as [[url|e] w1];
      simpl in *; eexists _, w1, cs; (split; [reflexivity|]); (split; [exact Hframe|]);
      (split; [reflexivity|]);
      destruct (guarded_mutations (CreateComment (sep_number item) comment) _ _ eq_refl Hg)
        as [[Hnone [e' He']] | Hone];
      try discriminate; rewrite ?Hnone, ?Hone; simpl;
      repeat split; auto; try discriminate; try (intros [? ?]; discriminate).
Qed.

Lemma includes_any_template (item : SEPItem) (user : string) (days : Z) :
  Js.includes BOT_COMMENT_MARKER (createAuthorPingComment item days) = true
  /\ Js.includes BOT_COMMENT_MARKER (createAcceptedReminderComment item days) = true
  /\ Js.includes BOT_COMMENT_MARKER (createSponsorPingComment item user days) = true
  /\ Js.includes BOT_COMMENT_MARKER (createNeedsSponsorComment item days) = true
  /\ Js.includes BOT_COMMENT_MARKER (createMaintainerPingComment item user days) = true.
Proof. repeat split; apply includes_marker. Qed.

(** X18. A ping is one comment: a staleness action that is no dormant
    marking never changes a label and never closes the item; it posts at
    most one comment, on the item of the analysis, whose body includes the
    marker of the bot, and none in a dry run.  A result that carries the
    URL of a comment means that the comment was sent. *)
Theorem ping_posts_one_marked_comment (analysis : StaleAnalysis) (dry : bool) (w : World) :
  sa_shouldMarkDormant analysis = false ->
  exists res w',
    executePing config analysis dry w = (Ok res, w')
    /\ (mutations (issued w w') = []
        \/ exists body,
             mutations (issued w w') = [CreateComment (sep_number (sa_item analysis)) body]
             /\ Js.includes BOT_COMMENT_MARKER body = true)
    /\ (is_Some (res_commentUrl res) -> mutations (issued w w') <> [])
    /\ (dry = true -> mutations (issued w w') = []).
Proof.
  intros Hnot. unfold executePing. rewrite Hnot.
  set (item := sa_item analysis). set (days := sa_daysSinceActivity analysis).
  assert (Hpost : forall action comment w0 cs0,
             frame w w0 cs0 -> mutations cs0 = [] ->
             Js.includes BOT_COMMENT_MARKER comment = true ->
             exists res w',
               postComment config action item comment dry w0 = (Ok res, w')
               /\ (mutations (issued w w') = []
                   \/ exists body,
                        mutations (issued w w') = [CreateComment (sep_number item) body]
                        /\ Js.includes BOT_COMMENT_MARKER body = true)
               /\ (is_Some (res_commentUrl res) -> mutations (issued w w') <> [])
               /\ (dry = true -> mutations (issued w w') = [])).
  { intros action comment w0 cs0 F0 M0 Hmark.
    destruct (postComment_one action item comment dry w0)
      as (res & w' & cs & Hrun & F & _ & Hone & Hurl & Hdry).
    exists res, w'. split; [exact Hrun|].
    rewrite (frame_issued _ _ _ (frame_trans _ _ _ _ _ F0 F)), mutations_app, M0. simpl.
    split; [|auto]. destruct Hone as [->| ->]; [now left | right; eauto]. }
  destruct (includes_any_template item "" days) as (Hau & Hacc & _ & Hneeds & _).
  destruct (sa_pingTarget analysis) as [[]|].
  - unfold pingAuthor.
    apply (Hpost _ _ w []); [apply frame_refl | reflexivity|].
    now destruct (bool_decide (sep_state item = Some accepted)).
  - unfold pingSponsor, bind.
    destruct (getSponsor_framed config (sep_assignees item) w) as (w0 & cs0 & -> & F0 & R0).
    destruct (negb (Js.truthy _)).
    + unfold postNeedsSponsor.
      apply (Hpost _ _ w0 cs0); [exact F0 | now apply mutations_resolver | exact Hneeds].
    + apply (Hpost _ _ w0 cs0); [exact F0 | now apply mutations_resolver|].
      apply includes_marker.
  - unfold pingMaintainer, bind.
    destruct (getSponsor_framed config (sep_assignees item) w) as (w0 & cs0 & -> & F0 & R0).
    destruct (negb (Js.truthy _)).
    + eexists _, w0. split; [reflexivity|].
      rewrite (frame_issued _ _ _ F0), (mutations_resolver _ R0). simpl.
      split; [now left|]. split; [intros [? ?]; discriminate | reflexivity].
    + unfold pingMaintainerDirectly.
      apply (Hpost _ _ w0 cs0); [exact F0 | now apply mutations_resolver|].
      apply includes_marker.
  - eexists _, w. split; [reflexivity|].
    assert (Hi : issued w w = []) by (apply frame_issued, frame_refl). rewrite Hi. simpl.
    split; [now left|]. split; [intros [? ?]; discriminate | reflexivity].
Qed.

(** X19. A stale draft whose assignees include no sponsor gets the request
    for a sponsor, not a ping: the action of a ping with target sponsor is
    [PingSponsor], addressed to the first assignee of the sponsor set, if
    there is one, and [NeedsSponsor], addressed to nobody, if there is
    none. *)
Theorem sponsor_ping_falls_back (analysis : StaleAnalysis) (dry : bool) (w : World) :
  sa_shouldMarkDormant analysis = false ->
  sa_pingTarget analysis = Some target_sponsor ->
  let item := sa_item analysis in
  let found :=
    List.find (fun a => bool_decide (a ∈ sponsors config w)) (sep_assignees item) in
  exists res w',
    executePing config analysis dry w = (Ok res, w')
    /\ act_type (res_action res) = (if Js.truthy found then PingSponsor else NeedsSponsor)
    /\ act_targetUser (res_action res) = (if Js.truthy found then found else None)
    /\ act_item (res_action res) = item.
Proof.
  intros Hnot Htarget item found. unfold executePing. rewrite Hnot, Htarget.
  unfold pingSponsor, bind.
  destruct (getSponsor_run config (sep_assignees item) w) as (w0 & Hrun & _).
  fold item. rewrite Hrun. fold found.
  destruct (Js.truthy found) eqn:Et; simpl.
  - destruct (postComment_one
                (createAction PingSponsor item dry
                   ("Sponsor ping after " +:+ Js.num (sa_daysSinceActivity analysis)
                    +:+ " days of inactivity") (Some (default "" found)))
                item
                (createSponsorPingComment item (default "" found)
                   (sa_daysSinceActivity analysis)) dry w0)
      as (res & w' & cs & Hpost & _ & Haction & _).
    exists res, w'. split; [exact Hpost|]. rewrite Haction. simpl.
    destruct found; [auto | discriminate].
  - unfold postNeedsSponsor.
    destruct (postComment_one
                (createAction NeedsSponsor item dry
                   ("Draft SEP needs core maintainer sponsor ("
                    +:+ Js.num (sa_daysSinceActivity analysis) +:+ " days inactive)") None)
                item
                (createNeedsSponsorComment item (sa_daysSinceActivity analysis)) dry w0)
      as (res & w' & cs & Hpost & _ & Haction & _).
    exists res, w'. split; [exact Hpost|]. now rewrite Haction.
Qed.

End MoreHandlers.

(** X20. What the bot posts, it recognises: every comment template, for
    every item and every value filled in, yields a body that includes the
    marker, so that a listing which ends with such a comment dates the last
    ping of the bot by it. *)
Theorem every_template_is_recognised (item : SEPItem) (user : string) (days : Z)
    (fromState toState : option SEPState) (comments : list GitHubComment)
    (c : GitHubComment) :
  gc_body c ∈ [ createTransitionComment item fromState toState user;
                createAuthorPingComment item days;
                createSponsorPingComment item user days;
                createMaintainerPingComment item user days;
                createDormantComment item days;
                createNeedsSponsorComment item days;
                createAcceptedReminderComment item days ] ->
  Js.includes BOT_COMMENT_MARKER (gc_body c) = true
  /\ lastBotPing (comments ++ [c]) = Some (gc_created_at c).
Proof.
  intros Hbody.
  assert (Hmark : Js.includes BOT_COMMENT_MARKER (gc_body c) = true).
  { repeat (apply elem_of_cons in Hbody as [->|Hbody]; [apply includes_marker|]).
    now apply elem_of_nil in Hbody. }
  split; [exact Hmark|]. now rewrite lastBotPing_snoc, Hmark.
Qed.

Lemma ping_posts_one_marked_comment_witness :
  let config := mockConfig false in
  let item := mockSEPItem (Some proposal) [] in
  let analysis := verdict config item (jan1 + days 95) None in
  let w := world (start config (mockRemote (jan1 + days 95) [] [])) in
  exists res w',
    executePing config analysis false w = (Ok res, w')
    /\ (mutations (issued w w') = []
        \/ exists body,
             mutations (issued w w') = [CreateComment 123 body]
             /\ Js.includes BOT_COMMENT_MARKER body = true).
Proof.
  intros config item analysis w.
  destruct (ping_posts_one_marked_comment config analysis false w)
    as (res & w' & Hrun & Hone & _); [reflexivity|].
  exists res, w'. split; [exact Hrun | exact Hone].
Defined.

Lemma sponsor_ping_falls_back_witness :
  let config := mockConfig true in
  let item := mockSEPItem (Some draft) ["outsider"] in
  let analysis := verdict config item (jan1 + days 95) None in
  let w := world (start config (mockRemote (jan1 + days 95) [] ["maintainer1"])) in
  exists res w',
    executePing config analysis true w = (Ok res, w')
    /\ act_type (res_action res) = NeedsSponsor
    /\ act_targetUser (res_action res) = None.
Proof.
  intros config item analysis w.
  destruct (sponsor_ping_falls_back config analysis true w)
    as (res & w' & Hrun & Htype & Huser & _); [reflexivity | reflexivity |].
  exists res, w'. split; [exact Hrun|].
  assert (Hfound : List.find (fun a => bool_decide (a ∈ sponsors config w))
                             (sep_assignees (sa_item analysis)) = None)
    by (vm_compute; reflexivity).
  rewrite Hfound in Htype, Huser. auto.
Defined.

Lemma every_template_is_recognised_witness :
  let item := mockSEPItem (Some proposal) [] in
  let c := {| gc_id := 1; gc_body := createAuthorPingComment item 95;
              gc_user := Some "sep-bot"; gc_created_at := jan1; gc_updated_at := jan1 |} in
  lastBotPing [quotingComment None 0; c] = Some jan1.
Proof.
  intros item c.
  apply (every_template_is_recognised item "" 95 None None [quotingComment None 0] c).
  simpl. apply elem_of_cons. right. apply elem_of_cons. now left.
Defined.

(** ** Further properties of the processor *)

Lemma procSat_lift {A} (m : M A) (Q : Result A -> list Call -> Prop) :
  sat m Q -> procSat (lift m) Q.
Proof.
  intros H st. destruct (H (world st)) as (cs & F & HQ). exists cs.
  unfold lift. destruct (m (world st)) as [r w']. simpl in *. auto.
Qed.

Lemma procSat_bind_given {A B} (P : Call -> Prop) (m : Proc A) (k : A -> Proc B)
    (R0 : Result A -> Prop) (R : Result B -> Prop) :
  procSat m (fun r cs => R0 r /\ Forall P cs) ->
  (forall a, R0 (Ok a) -> procSat (k a) (fun r cs => R r /\ Forall P cs)) ->
  (forall e, R0 (Throw e) -> R (Throw e)) ->
  procSat (bind m k) (fun r cs => R r /\ Forall P cs).
Proof.
  intros Hm Hk He st. destruct (Hm st) as (cs1 & F1 & R1 & P1). unfold bind.
  destruct (m st) as [[a|e] st1]; simpl in *.
  - destruct (Hk a R1 st1) as (cs2 & F2 & R2 & P2).
    exists (cs1 ++ cs2). split; [eapply frame_trans; eauto|].
    split; [exact R2 | now apply Forall_app].
  - exists cs1. auto.
Qed.

Lemma procSat_local {A} (P : Call -> Prop) (m : Proc A) (R : Result A -> Prop) :
  (forall st, world (m st).2 = world st /\ R (m st).1) ->
  procSat m (fun r cs => R r /\ Forall P cs).
Proof.
  intros H st. destruct (H st) as [Hw HR]. exists []. rewrite Hw.
  split; [apply frame_refl|]. split; [exact HR | constructor].
Qed.

Lemma procSat_pure {A} (P : Call -> Prop) (a : A) (R : Result A -> Prop) :
  R (Ok a) -> procSat (ret a) (fun r cs => R r /\ Forall P cs).
Proof. intros H. apply procSat_local. intros st. now split. Qed.

Lemma procSat_updateSummary (P : Call -> Prop) (r : Ref) (f : SummaryData -> SummaryData) :
  procSat (updateSummary r f) (fun r cs => True /\ Forall P cs).
Proof. apply procSat_local. intros st. now split. Qed.

Section ProcessFootprint.

Variable config : Config.
Variable P : Call -> Prop.
Hypothesis P_read : forall c, isMutation c = false -> P c.

Lemma getTargetUser_all (sep : SEPItem) (pingTarget : PingTarget) :
  sat (getTargetUser config sep pingTarget) (fun r cs => True /\ Forall P cs).
Proof.
  destruct pingTarget; simpl; [now apply sat_pure | |];
    (eapply sat_result; [apply getSponsor_all; exact P_read | auto]).
Qed.

Lemma updateSummaryFromStaleness_rest_all (result : ActionResult) (sep : SEPItem)
    (summary : Ref) (nowDate : Z) :
  procSat (updateSummaryFromStaleness_rest config result sep summary nowDate)
          (fun r cs => True /\ Forall P cs).
Proof.
  unfold updateSummaryFromStaleness_rest.
  eapply procSat_bind_given with (R0 := fun _ => True); [| |auto].
  { apply procSat_lift. eapply sat_result; [apply analyzeAt_all; exact P_read | auto]. }
  intros analysis _.
  destruct (act_type (res_action result)); try apply procSat_updateSummary;
    try (now apply procSat_pure);
    (destruct (sa_pingTarget analysis) as [pingTarget|]; [|now apply procSat_pure];
     eapply procSat_bind_given with (R0 := fun _ => True);
     [apply procSat_lift, getTargetUser_all | intros; apply procSat_updateSummary | auto]).
Qed.

Lemma settle_all (t : Task) :
  procSat (settle config t) (fun r cs => True /\ Forall P cs).
Proof.
  destruct t as [result sep summary nowDate]. apply updateSummaryFromStaleness_rest_all.
Qed.

Lemma settleTasks_all (ts : list Task) :
  procSat (settleTasks config ts) (fun r cs => True /\ Forall P cs).
Proof.
  induction ts as [|t ts IH]; simpl; [now apply procSat_pure|].
  eapply procSat_bind_given with (R0 := fun _ => True);
    [apply settle_all | intros; exact IH | auto].
Qed.

Lemma settleAll_all :
  procSat (settleAll config) (fun r cs => True /\ Forall P cs).
Proof. intros st. exact (settleTasks_all (floating st) (set_floating [] st)). Qed.

Lemma yield_all :
  procSat (yield config) (fun r cs => True /\ Forall P cs).
Proof.
  intros st. unfold yield.
  destruct (turns st) as [|[|] later].
  - exists []. split; [apply frame_refl | split; [exact I | constructor]].
  - destruct (settleAll_all (set_turns later st)) as (cs & F & _ & Hcs).
    exists cs. destruct (settleAll config (set_turns later st)) as [[[]|e] st2]; simpl in *; auto.
  - exists []. split; [apply frame_refl | split; [exact I | constructor]].
Qed.

Lemma awaiting_all {A} (m : M A) (R : Result A -> Prop) :
  sat m (fun r cs => R r /\ Forall P cs) ->
  (forall e, R (Throw e)) ->
  procSat (awaiting config m) (fun r cs => R r /\ Forall P cs).
Proof.
  intros Hm Hthrow st. unfold awaiting.
  destruct (procSat_lift m _ Hm st) as (cs1 & F1 & R1 & P1).
  destruct (lift m st) as [r st1]. simpl in F1, R1.
  destruct (_ =? _)%nat; [exists cs1; auto|].
  destruct (yield_all st1) as (cs2 & F2 & _ & P2).
  exists (cs1 ++ cs2).
  destruct (yield config st1) as [[[]|e] st2]; simpl in *;
    (split; [eapply frame_trans; eauto|]); (split; [auto | now apply Forall_app]).
Qed.

Variable sep : SEPItem.
Hypothesis P_own : dryRun config = false -> forall c, touches (sep_number sep) c -> P c.

Lemma checkAutoTransition_all :
  sat (checkAutoTransition config sep)
      (fun r cs => (forall res, r = Ok (Some res) -> sound sep (dryRun config) res) /\ Forall P cs).
Proof.
  unfold checkAutoTransition.
  destruct (_ || _); [apply sat_pure; intros res; discriminate|].
  eapply sat_bind_given; [apply getSponsor_all; exact P_read | |].
  - intros found _. destruct (negb (Js.truthy found));
      [apply sat_pure; intros res; discriminate|].
    eapply sat_bind_given; [apply executeTransition_all; eauto | |].
    + intros tr (res & [= <-] & Hsound). apply sat_pure. now intros ? [= <-].
    + intros e _ res. discriminate.
  - intros e _ res. discriminate.
Qed.

Lemma checkStaleness_all :
  sat (checkStaleness config sep)
      (fun r cs => (forall res, r = Ok (Some res) -> sound sep (dryRun config) res) /\ Forall P cs).
Proof.
  unfold checkStaleness.
  eapply sat_bind_given; [apply analyze_all; exact P_read | |].
  - intros analysis Hitem. specialize (Hitem analysis eq_refl).
    destruct (_ && _); [apply sat_pure; intros res; discriminate|].
    eapply sat_bind_given; [apply executePing_all; eauto | |].
    + intros sr (res & [= <-] & Hsound). apply sat_pure. now intros ? [= <-].
    + intros e _ res. discriminate.
  - intros e _ res. discriminate.
Qed.

Lemma accountability_all (assignees : list string) :
  sat (checkMaintainerAccountability_loop config sep assignees)
      (fun r cs => (forall rs, r = Ok rs -> Forall (sound sep (dryRun config)) rs) /\ Forall P cs).
Proof.
  induction assignees as [|assignee rest IH]; simpl.
  - apply sat_pure. intros rs [= <-]. constructor.
  - eapply sat_bind_given; [apply canSponsor_all; exact P_read | |].
    + intros isMaintainer _. destruct (negb isMaintainer); [exact IH|].
      eapply sat_bind_given;
        [apply checkMaintainerActivity_all; exact P_read | | intros e _ rs; discriminate].
      intros activity _. destruct (snd activity); [|exact IH].
      eapply sat_bind_given; [apply pingMaintainerDirectly_all; eauto | |].
      * intros result (res & [= <-] & Hsound).
        eapply sat_bind_given; [exact IH | |].
        -- intros others Hothers. apply sat_pure. intros rs [= <-].
           constructor; [exact Hsound | now apply Hothers].
        -- intros e _ rs. discriminate.
      * intros e _ rs. discriminate.
    + intros e _ rs. discriminate.
Qed.

Lemma summarize_all (summary : Ref) (maintainerResults : list ActionResult) :
  procSat (summarizeMaintainerPings config sep summary maintainerResults)
          (fun r cs => True /\ Forall P cs).
Proof.
  induction maintainerResults as [|result rest IH]; simpl; [now apply procSat_pure|].
  eapply procSat_bind_given with (R0 := fun _ => True); [| intros; exact IH | auto].
  destruct (_ && _); [|now apply procSat_pure].
  eapply procSat_bind_given with (R0 := fun _ => True);
    [apply awaiting_all; [|exact (fun _ => I)];
     eapply sat_result; [apply checkMaintainerActivity_all; exact P_read | auto]
    | intros; apply procSat_updateSummary | auto].
Qed.

Lemma process_all :
  procSat (process config sep)
          (fun r cs => (forall out, r = Ok out -> Forall (sound sep (dryRun config)) (results out))
                       /\ Forall P cs).
Proof.
  unfold process.
  eapply procSat_bind_given with (R0 := fun _ => True);
    [apply procSat_local; intros st; now split | | intros e _ out; discriminate].
  intros summary _.
  destruct (sep_isClosed sep).
  { apply procSat_pure. intros out [= <-]. constructor. }
  eapply procSat_bind_given;
    [apply procSat_lift, checkAutoTransition_all | | intros e _ out; discriminate].
  intros [tr|] Htr.
  - specialize (Htr tr eq_refl).
    eapply procSat_bind_given with (R0 := fun _ => True);
      [| | intros e _ out; discriminate].
    + destruct (res_success tr), (act_toState (res_action tr));
        try apply procSat_updateSummary; now apply procSat_pure.
    + intros _ _. apply procSat_pure. intros out [= <-]. simpl. now constructor.
  - clear Htr.
    eapply procSat_bind_given;
      [apply procSat_lift, checkStaleness_all | | intros e _ out; discriminate].
    intros stalenessResult Hsr.
    assert (Hres : Forall (sound sep (dryRun config))
                     match stalenessResult with Some sr => [sr] | None => [] end).
    { destruct stalenessResult as [sr|]; [|constructor].
      constructor; [now apply Hsr | constructor]. }
    eapply procSat_bind_given with (R0 := fun _ => True);
      [| | intros e _ out; discriminate].
    + destruct stalenessResult as [sr|]; [|now apply procSat_pure].
      unfold updateSummaryFromStaleness_floating.
      destruct (negb (res_success sr)); [now apply procSat_pure|].
      eapply procSat_bind_given with (R0 := fun _ => True);
        [apply procSat_lift; eapply sat_result; [apply sat_now_given | auto]
        | intros; apply procSat_local; intros st; now split | auto].
    + intros _ _.
      destruct (_ || _).
      * eapply procSat_bind_given;
          [apply awaiting_all; [apply accountability_all | intros e rs; discriminate]
          | | intros e _ out; discriminate].
        intros maintainerResults Hmr. specialize (Hmr maintainerResults eq_refl).
        eapply procSat_bind_given with (R0 := fun _ => True);
          [apply summarize_all | | intros e _ out; discriminate].
        intros _ _. apply procSat_pure. intros out [= <-]. simpl.
        now apply Forall_app.
      * apply procSat_pure. now intros out [= <-].
Qed.

End ProcessFootprint.

Section MoreProcessor.

Variable config : Config.

(** X21. A dry run changes nothing, at the level of the processor as
    well: with [dryRun] set, whatever the item and whatever the remote
    answers, [process] sends no request that changes the repository, and
    neither does the summary update it leaves pending. *)
Theorem dry_run_process_changes_nothing (sep : SEPItem) (st : Run) :
  dryRun config = true ->
  let st' := (process config sep st).2 in
  Forall (fun c => isMutation c = false) (issued (world st) (world st'))
  /\ Forall (fun c => isMutation c = false)
            (issued (world st') (world (settleAll config st').2)).
Proof.
  intros Hdry st'. subst st'. split.
  - destruct (process_all config (fun c => isMutation c = false) (fun c H => H) sep
                (fun H => ltac:(congruence)) st) as (cs & F & _ & Hcs).
    now rewrite (frame_issued _ _ _ F).
  - destruct (settleAll_all config (fun c => isMutation c = false) (fun c H => H)
                (process config sep st).2) as (cs & F & _ & Hcs).
    now rewrite (frame_issued _ _ _ F).
Qed.

(** X22. The processor changes the item it was given and no other: every
    request [process] sends is a read or a change of the issue with the
    number of the item, every result it returns is about the item, repeats
    the dry-run flag of the configuration and is coherent; and the summary
    updates left pending only ever read. *)
Theorem process_touches_only_its_item (sep : SEPItem) (st : Run) :
  Forall (touches (sep_number sep)) (issued (world st) (world (process config sep st).2))
  /\ (forall out, (process config sep st).1 = Ok out ->
        Forall (sound sep (dryRun config)) (results out))
  /\ Forall (fun c => isMutation c = false)
            (issued (world st) (world (settleAll config st).2)).
Proof.
  destruct (process_all config (touches (sep_number sep)) (touches_read _) sep
              (fun _ c H => H) st) as (cs & F & Hres & Hcs).
  rewrite (frame_issued _ _ _ F). split; [exact Hcs|]. split; [exact Hres|].
  destruct (settleAll_all config (fun c => isMutation c = false) (fun c H => H) st)
    as (cs' & F' & _ & Hcs').
  now rewrite (frame_issued _ _ _ F').
Qed.

End MoreProcessor.

Lemma dry_run_process_changes_nothing_witness :
  let config := mockConfig true in
  let sep := mockSEPItem (Some proposal) [] in
  let st := start config (mockRemote (jan1 + days 200) [] []) in
  Forall (fun c => isMutation c = false)
         (issued (world st) (world (process config sep st).2)).
Proof.
  intros config sep st.
  apply (dry_run_process_changes_nothing config sep st). reflexivity.
Defined.

Lemma settled_same (w w' : World) : settled w -> sameResolver w w' -> settled w'.
Proof. intros [Hs|Hs] [Hm Ha]; [left | right]; congruence. Qed.

Section Accountability.

Variable config : Config.

Lemma canSponsor_settles (username : string) (w : World) :
  exists w1,
    canSponsor config username w = (Ok (bool_decide (username ∈ sponsors config w)), w1)
    /\ sponsors config w1 = sponsors config w
    /\ settled w1.
Proof.
  destruct (ensureSponsorsLoaded_stable config w) as (w1 & Hfirst & Hagain).
  exists w1. split; [|split].
  - unfold canSponsor, bind. now rewrite Hfirst.
  - unfold sponsors at 1. now rewrite Hagain.
  - pose proof (any_state_settles config w) as Hs. now rewrite Hfirst in Hs.
Qed.

Lemma accountability_targets (sep : SEPItem) (assignees : list string) (w w' : World)
    (rs : list ActionResult) :
  checkMaintainerAccountability_loop config sep assignees w = (Ok rs, w') ->
  exists targets,
    map (fun res => (act_type (res_action res), act_item (res_action res),
                     act_targetUser (res_action res))) rs
    = map (fun a => (PingMaintainer, sep, Some a)) targets
    /\ sublist targets assignees
    /\ Forall (fun a => a ∈ sponsors config w) targets.
Proof.
  revert w rs. induction assignees as [|a rest IH]; intros w rs; simpl.
  - intros [= <- <-]. exists []. repeat split; constructor.
  - unfold isCoreMaintainer. unfold bind at 1.
    destruct (canSponsor_settles a w) as (w1 & -> & Hsame1 & Hsettled1).
    destruct (bool_decide (a ∈ sponsors config w)) eqn:Ea; simpl.
    + apply bool_decide_eq_true in Ea.
      unfold bind at 1.
      pose proof (keeps_checkMaintainerActivity config sep a w1) as Hk2.
      destruct (checkMaintainerActivity config sep a w1) as [[activity|e] w2];
        [|discriminate].
      simpl in Hk2.
      assert (Hsame2 : sponsors config w2 = sponsors config w)
        by (rewrite <- Hsame1; now apply sponsors_settled).
      destruct (snd activity).
      * unfold bind at 1.
        pose proof (keeps_pingMaintainerDirectly config sep a (fst activity)
                      (dryRun config) w2) as Hk3.
        unfold pingMaintainerDirectly in *.
        destruct (postComment_one config
                    (createAction PingMaintainer sep (dryRun config)
                       ("Maintainer ping after " +:+ Js.num (fst activity)
                        +:+ " days of inactivity") (Some a))
                    sep (createMaintainerPingComment sep a (fst activity))
                    (dryRun config) w2)
          as (res & w3 & cs & Hpost & _ & Haction & _).
        rewrite Hpost in *. simpl in Hk3.
        assert (Hsame3 : sponsors config w3 = sponsors config w).
        { rewrite <- Hsame2. apply sponsors_settled; [|exact Hk3].
          now apply (settled_same w1). }
        unfold bind at 1.
        destruct (checkMaintainerAccountability_loop config sep rest w3)
          as [[others|e] w4] eqn:Eloop; [|discriminate].
        intros [= <- <-].
        destruct (IH w3 others Eloop) as (targets & Hmap & Hsub & Hall).
        exists (a :: targets). simpl. rewrite Haction, Hmap. simpl.
        split; [reflexivity|]. split; [now apply sublist_skip|].
        constructor; [exact Ea|]. now rewrite <- Hsame3.
      * intros Hloop. destruct (IH w2 rs Hloop) as (targets & Hmap & Hsub & Hall).
        exists targets. split; [exact Hmap|]. split; [now apply sublist_cons|].
        now rewrite <- Hsame2.
    + intros Hloop. destruct (IH w1 rs Hloop) as (targets & Hmap & Hsub & Hall).
      exists targets. split; [exact Hmap|]. split; [now apply sublist_cons|].
      now rewrite <- Hsame1.
Qed.

(** X23. The accountability pass pings assigned sponsors only: each of its
    results is a [PingMaintainer] action on the item, addressed to an
    assignee who is in the sponsor set; the assignees pinged come in the
    order of the assignee list, each at most as often as listed there. *)
Theorem accountability_pings_assigned_sponsors (sep : SEPItem) (w w' : World)
    (rs : list ActionResult) :
  checkMaintainerAccountability config sep w = (Ok rs, w') ->
  exists targets,
    map (fun res => (act_type (res_action res), act_item (res_action res),
                     act_targetUser (res_action res))) rs
    = map (fun a => (PingMaintainer, sep, Some a)) targets
    /\ sublist targets (sep_assignees sep)
    /\ Forall (fun a => a ∈ sponsors config w) targets.
Proof. apply accountability_targets. Qed.


End Accountability.

Lemma accountability_pings_assigned_sponsors_witness :
  let config := mockConfig true in
  let sep := mockSEPItem (Some draft) ["outsider"; "maintainer1"] in
  let w := world (start config (mockRemote (jan1 + days 20) [] ["maintainer1"])) in
  exists rs targets,
    (checkMaintainerAccountability config sep w).1 = Ok rs
    /\ map (fun res => (act_type (res_action res), act_item (res_action res),
                        act_targetUser (res_action res))) rs
       = map (fun a => (PingMaintainer, sep, Some a)) targets
    /\ sublist targets ["outsider"; "maintainer1"]
    /\ Forall (fun a => a ∈ sponsors config w) targets
    /\ length rs = 1%nat.
Proof.
  intros config sep w.
  set (run := checkMaintainerAccountability config sep w).
  assert (Hrun : exists rs, run = (Ok rs, run.2) /\ length rs = 1%nat).
  { eexists. split; vm_compute; reflexivity. }
  destruct Hrun as (rs & Hrun & Hlength).
  destruct (accountability_pings_assigned_sponsors config sep w run.2 rs Hrun)
    as (targets & Hmap & Hsub & Hall).
  exists rs, targets. split; [now rewrite Hrun|]. auto.
Defined.


(** ** The hooks *)

Section MoreHooks.
Context {S : Type}.

Lemma registerAll_filter (hooks acc : list (SEPHook S)) :
  fold_left (fun registered hook => register hook registered) hooks acc
  = acc ++ List.filter hook_enabled hooks.
Proof.
  revert acc. induction hooks as [|hook rest IH]; intros acc; simpl.
  - now rewrite app_nil_r.
  - rewrite IH. unfold register. destruct (hook_enabled hook); [|reflexivity].
    now rewrite <- app_assoc.
Qed.

Lemma dispatch_run (hooks : list (SEPHook S)) (event : SEPHookEvent)
    (result : ActionResult) (s : S) :
  dispatch hooks event result s
  = (Ok tt, fold_left (fun s0 hook => (onEvent hook event result s0).2) hooks s).
Proof.
  revert s. induction hooks as [|hook rest IH]; intros s; [reflexivity|].
  simpl. unfold bind, try_catch, ret.
  destruct (onEvent hook event result s) as [[[]|e] s1]; simpl; apply IH.
Qed.

(** X25. The registry holds the enabled hooks only, in the order they
    were registered in, and a dispatch never fails: every registered hook
    is given the event, also after one before it has thrown. *)
Theorem dispatch_reaches_every_enabled_hook (hooks : list (SEPHook S))
    (event : SEPHookEvent) (result : ActionResult) (s : S) :
  let registered := fold_left (fun registered hook => register hook registered) hooks [] in
  registered = List.filter hook_enabled hooks
  /\ getRegisteredHooks registered = map hook_name (List.filter hook_enabled hooks)
  /\ dispatch registered event result s
     = (Ok tt, fold_left (fun s0 hook => (onEvent hook event result s0).2) registered s).
Proof.
  intros registered. subst registered. rewrite registerAll_filter. simpl.
  split; [reflexivity|]. split; [reflexivity | apply dispatch_run].
Qed.

End MoreHooks.

(** ** The Discord hook *)

Lemma createSummaryEmbeds_length (summary : SummaryEvent) :
  let sections := [ length (ev_transitions summary); length (ev_pings summary);
                    length (ev_needsSponsor summary); length (ev_dormant summary) ] in
  length (createSummaryEmbeds summary)
  = if existsb (fun n => (0 <? n)%nat) sections
    then Datatypes.S (length (List.filter (fun n => (0 <? n)%nat) sections))
    else 0%nat.
Proof.
  unfold createSummaryEmbeds. cbn [existsb List.filter].
  destruct (0 <? length (ev_transitions summary))%nat,
           (0 <? length (ev_pings summary))%nat,
           (0 <? length (ev_needsSponsor summary))%nat,
           (0 <? length (ev_dormant summary))%nat; reflexivity.
Qed.

Lemma discordOnEvent_run (webhookUrl : option string) (event : SEPHookEvent)
    (result : ActionResult) (web : Web) :
  exists web',
    discordOnEvent webhookUrl event result web = (Ok tt, web')
    /\ on_fetch web' = on_fetch web
    /\ posted_embeds web'
       = posted_embeds web
         ++ match event with
            | Summary summary =>
                if Js.truthy webhookUrl && (0 <? length (createSummaryEmbeds summary))%nat
                then [(default "" webhookUrl, createSummaryEmbeds summary)]
                else []
            | _ => []
            end.
Proof.
  unfold discordOnEvent, discordEnabled.
  destruct (Js.truthy webhookUrl); simpl.
  - destruct event as [| | | |summary];
      try (exists web; rewrite app_nil_r; repeat split; reflexivity).
    destruct (length (createSummaryEmbeds summary)) as [|n] eqn:El; simpl.
    + exists web. rewrite app_nil_r. repeat split; reflexivity.
    + unfold try_catch, bind, fetch, ret.
      destruct (on_fetch web (posted_embeds web) (default "" webhookUrl)
                  (createSummaryEmbeds summary)); simpl;
        eexists; repeat split; reflexivity.
  - exists web. destruct event; rewrite app_nil_r; repeat split; reflexivity.
Qed.

(** X26. The Discord hook never fails and posts at most once per event:
    nothing without a webhook URL, nothing for an event that is no
    summary, and nothing for a summary without a single transition, ping,
    needs-sponsor or dormant row, however many actions failed; otherwise
    one request to the webhook URL, with the summary embed and one embed
    for each kind of row that occurs.  What the webhook answers, or
    whether it can be reached, makes no difference. *)
Theorem discord_posts_summaries_with_rows (webhookUrl : option string)
    (event : SEPHookEvent) (result : ActionResult) (web : Web) :
  exists web',
    onEvent (DiscordHook webhookUrl) event result web = (Ok tt, web')
    /\ on_fetch web' = on_fetch web
    /\ match event with
       | Summary summary =>
           let sections := [ length (ev_transitions summary); length (ev_pings summary);
                             length (ev_needsSponsor summary);
                             length (ev_dormant summary) ] in
           if Js.truthy webhookUrl && existsb (fun n => (0 <? n)%nat) sections
           then posted_embeds web'
                = posted_embeds web ++ [(default "" webhookUrl, createSummaryEmbeds summary)]
                /\ length (createSummaryEmbeds summary)
                   = Datatypes.S (length (List.filter (fun n => (0 <? n)%nat) sections))
           else posted_embeds web' = posted_embeds web
       | _ => posted_embeds web' = posted_embeds web
       end.
Proof.
  destruct (discordOnEvent_run webhookUrl event result web) as (web' & Hrun & Hfetch & Hposted).
  exists web'. split; [exact Hrun|]. split; [exact Hfetch|].
  destruct event as [| | | |summary]; try (now rewrite Hposted, app_nil_r).
  pose proof (createSummaryEmbeds_length summary) as Hlen. cbv zeta in Hlen |- *.
  rewrite Hposted.
  destruct (existsb _ _); rewrite Hlen in *; destruct (Js.truthy webhookUrl); simpl;
    rewrite ?app_nil_r; auto.
Qed.

(** ** The order of the sections *)

Lemma filter_none {A} (p : A -> bool) (l : list A) :
  (forall z, In z l -> p z = false) -> List.filter p l = [].
Proof.
  induction l as [|y l IH]; intros H; simpl; [reflexivity|].
  rewrite (H y (or_introl eq_refl)). apply IH. intros z Hz. apply H. now right.
Qed.

Section Sorting.
Context {A : Type} (daysOf : A -> Z).

Lemma insertByDays_perm (x : A) (sorted : list A) :
  x :: sorted ≡ₚ insertByDays daysOf x sorted.
Proof.
  induction sorted as [|y rest IH]; simpl; [reflexivity|].
  destruct (daysOf y >=? daysOf x); [|reflexivity].
  rewrite <- IH. apply Permutation_swap.
Qed.

Lemma insertByDays_sorted (x : A) (sorted : list A) :
  StronglySorted (inactiveFirst daysOf) sorted -> StronglySorted (inactiveFirst daysOf) (insertByDays daysOf x sorted).
Proof.
  induction 1 as [|y rest Hrest IH Hall]; simpl.
  - constructor; constructor.
  - destruct (Z.geb_spec (daysOf y) (daysOf x)) as [Hge|Hlt].
    + constructor; [exact IH|].
      rewrite <- (insertByDays_perm x rest). constructor; [exact Hge | exact Hall].
    + constructor; [now constructor|]. constructor; [unfold inactiveFirst; lia|].
      eapply Forall_impl; [exact Hall|]. unfold inactiveFirst. intros z Hz. simpl in Hz. lia.
Qed.

Lemma insertByDays_stable (x : A) (sorted : list A) (d : Z) :
  StronglySorted (inactiveFirst daysOf) sorted ->
  List.filter (fun r => daysOf r =? d) (insertByDays daysOf x sorted)
  = List.filter (fun r => daysOf r =? d) sorted
    ++ List.filter (fun r => daysOf r =? d) [x].
Proof.
  induction 1 as [|y rest Hrest IH Hall]; simpl; [reflexivity|].
  destruct (Z.geb_spec (daysOf y) (daysOf x)); simpl.
  - destruct (daysOf y =? d); [|exact IH]. simpl. now rewrite IH.
  - destruct (Z.eqb_spec (daysOf x) d) as [Hx|Hx]; simpl.
    + assert (Hnone : List.filter (fun r => daysOf r =? d) (y :: rest) = []).
      { apply filter_none. intros z Hz. apply Z.eqb_neq.
        destruct Hz as [<-|Hz]; [lia|].
        rewrite Forall_forall in Hall. apply list_elem_of_In, Hall in Hz.
        unfold inactiveFirst in Hz. lia. }
      simpl in Hnone. now rewrite Hnone.
    + now rewrite app_nil_r.
Qed.

Lemma sortByDays_from (rows acc : list A) :
  StronglySorted (inactiveFirst daysOf) acc ->
  longestFirst daysOf (acc ++ rows)
    (fold_left (fun sorted x => insertByDays daysOf x sorted) rows acc).
Proof.
  revert acc. induction rows as [|x rest IH]; intros acc Hacc; simpl.
  - rewrite app_nil_r. split; [reflexivity|]. split; [exact Hacc | reflexivity].
  - destruct (IH (insertByDays daysOf x acc) (insertByDays_sorted x acc Hacc))
      as (Hperm & Hsorted & Hstable).
    split; [|split; [exact Hsorted|]].
    + rewrite <- Hperm, <- (insertByDays_perm x acc).
      rewrite <- Permutation_middle. reflexivity.
    + intros d. rewrite Hstable, !List.filter_app, (insertByDays_stable x acc d Hacc).
      rewrite <- app_assoc. f_equal. simpl. now destruct (daysOf x =? d).
Qed.

Lemma sortByDays_longestFirst (rows : list A) :
  longestFirst daysOf rows (sortByDays daysOf rows).
Proof. apply (sortByDays_from rows []). constructor. Qed.

End Sorting.

(** X27. In the Discord summary the pings, the items that need a sponsor
    and the items marked dormant are listed longest inactive first: the
    lines of each of these sections are those of all its rows, none lost
    and none twice, in the order of decreasing days of inactivity, rows of
    equal inactivity in the order in which they were recorded. *)
Theorem sections_list_longest_inactive_first (event : SummaryEvent) :
  (exists sorted,
     longestFirst pg_daysSinceActivity (ev_pings event) sorted
     /\ (ev_pings event <> [] ->
         section "🔔 Stale Pings" (map pingLine sorted) 15965202
         ∈ createSummaryEmbeds event))
  /\ (exists sorted,
        longestFirst ns_daysSinceActivity (ev_needsSponsor event) sorted
        /\ (ev_needsSponsor event <> [] ->
            section "🆘 Needs Sponsor" (map needsSponsorLine sorted) 15158332
            ∈ createSummaryEmbeds event))
  /\ (exists sorted,
        longestFirst dm_daysSinceActivity (ev_dormant event) sorted
        /\ (ev_dormant event <> [] ->
            section "💤 Marked Dormant" (map dormantLine sorted) 9807270
            ∈ createSummaryEmbeds event)).
Proof.
  assert (Hpos : forall {B} (l : list B), l <> [] -> (0 <? length l)%nat = true).
  { intros B [|b l] H; [contradiction | reflexivity]. }
  split; [|split]; eexists; (split; [apply sortByDays_longestFirst|]); intros Hne;
    unfold createSummaryEmbeds; rewrite (Hpos _ _ Hne);
    destruct (0 <? length (ev_transitions event))%nat;
    try destruct (0 <? length (ev_pings event))%nat;
    try destruct (0 <? length (ev_needsSponsor event))%nat;
    try destruct (0 <? length (ev_dormant event))%nat;
    cbn [app negb orb];
    repeat (apply elem_of_cons; first [left; reflexivity | right]).
Qed.
(** ** The sweep *)

Section EventLoop.

Context {A B : Type}.






End EventLoop.


Section MoreSweep.

Variable config : Config.







(** One round of the loop. *)
Lemma sweep_cons (sep : SEPItem) (rest : list SEPItem)
    (allResults : list ActionResult) (summary : SummaryData) (st : Run) :
  sweep config (sep :: rest) allResults summary st
  = let (r, st1) := process config sep st in
    match r, unhandled st1 with
    | Throw e, Some _ => (Throw e, st1)
    | _, _ =>
        match yield config st1 with
        | (Ok _, st2) =>
            sweep config rest
              match r with Ok out => allResults ++ results out | Throw _ => allResults end
              match r with
              | Ok out => mergeSummary summary (deref st1 (summaryData out))
              | Throw _ => summary
              end
              st2
        | (Throw e, st2) => (Throw e, st2)
        end
    end.
Proof.
  cbn [sweep]. unfold bind, try_running, gets, ret.
  generalize (process config sep st). intros [[out|e] st1]; cbn [fst snd].
  - destruct (unhandled st1); destruct (yield config st1) as [[[]|e] st2]; reflexivity.
  - destruct (unhandled st1); [reflexivity|].
    destruct (yield config st1) as [[[]|e'] st2]; reflexivity.
Qed.




End MoreSweep.


(** ** What reaches the summary *)

Lemma lookup_alter_last {A} (f : A -> A) (h : list A) (x : A) :
  alter f (length h) (h ++ [x]) !! length h = Some (f x).
Proof.
  rewrite list_lookup_alter, decide_True by reflexivity.
  rewrite lookup_app_r by lia. now rewrite Nat.sub_diag.
Qed.

Section SummaryRows.

Variable config : Config.

Lemma process_rows (sep : SEPItem) (st st' : Run) (out : ProcessResult) :
  sep_state sep <> Some draft ->
  sep_state sep <> Some in_review ->
  process config sep st = (Ok out, st') ->
  noStalenessRows (deref st' (summaryData out)).
Proof.
  intros Hd Hr.
  assert (Hnot : bool_decide (sep_state sep = Some draft)
                 || bool_decide (sep_state sep = Some in_review) = false).
  { rewrite !bool_decide_false by assumption. reflexivity. }
  assert (Hempty : forall w fl ts u,
             noStalenessRows (deref {| world := w; heap := heap st ++ [emptySummary];
                             floating := fl; turns := ts; unhandled := u |}
                                    (length (heap st)))).
  { intros w fl ts u. unfold deref. simpl.
    rewrite lookup_app_r by lia. rewrite Nat.sub_diag. repeat split. }
  unfold process, newSummary. unfold bind at 1.
  destruct (sep_isClosed sep).
  { intros [= <- <-]. apply Hempty. }
  unfold bind at 1. unfold lift at 1. simpl.
  destruct (checkAutoTransition config sep (world st)) as [[[tr|]|e] w1];
    [| |discriminate].
  - unfold bind at 1.
    destruct (res_success tr), (act_toState (res_action tr)) as [toState|];
      simpl; intros [= <- <-]; try apply Hempty.
    unfold deref. simpl. rewrite lookup_alter_last. repeat split.
  - unfold bind at 1. unfold lift at 1. simpl.
    destruct (checkStaleness config sep w1) as [[stalenessResult|e] w2]; [|discriminate].
    unfold bind at 1.
    destruct stalenessResult as [sr|].
    + unfold updateSummaryFromStaleness_floating.
      destruct (negb (res_success sr)); simpl; rewrite Hnot;
        intros [= <- <-]; apply Hempty.
    + simpl. rewrite Hnot. intros [= <- <-]. apply Hempty.
Qed.

Lemma sweep_rows (seps : list SEPItem) :
  Forall (fun sep => sep_state sep <> Some draft /\ sep_state sep <> Some in_review) seps ->
  forall allResults summary st out,
    (sweep config seps allResults summary st).1 = Ok out ->
    pings out.2 = pings summary
    /\ needsSponsor out.2 = needsSponsor summary
    /\ dormantRows out.2 = dormantRows summary.
Proof.
  induction 1 as [|sep rest [Hd Hr] _ IH]; intros allResults summary st out.
  - intros [= <-]. auto.
  - rewrite sweep_cons.
    pose proof (process_rows sep st) as Hrows.
    revert Hrows. generalize (process config sep st). intros [r st1] Hrows.
    assert (Hnext : forall acc1 acc2,
               (match yield config st1 with
                | (Ok _, st2) => sweep config rest acc1 acc2 st2
                | (Throw e, st2) => (Throw e, st2)
                end).1 = Ok out ->
               pings out.2 = pings acc2
               /\ needsSponsor out.2 = needsSponsor acc2
               /\ dormantRows out.2 = dormantRows acc2).
    { intros acc1 acc2. destruct (yield config st1) as [[[]|e] st2]; [apply IH | discriminate]. }
    destruct r as [res|e].
    + intros Hrun.
      assert (Hrun' : (match yield config st1 with
                       | (Ok _, st2) =>
                           sweep config rest (allResults ++ results res)
                             (mergeSummary summary (deref st1 (summaryData res))) st2
                       | (Throw e, st2) => (Throw e, st2)
                       end).1 = Ok out)
        by (destruct (unhandled st1); exact Hrun).
      apply Hnext in Hrun'.
      destruct (Hrows st1 res Hd Hr eq_refl) as (Hp & Hn & Hdm).
      destruct Hrun' as (-> & -> & ->). simpl. rewrite Hp, Hn, Hdm, !app_nil_r. auto.
    + destruct (unhandled st1); [discriminate | apply Hnext].
Qed.

(** X29. The rows of the staleness actions never reach the summary of a
    sweep over items that are neither drafts nor in review: when such a
    sweep returns, its summary has not a single ping, needs-sponsor or
    dormant row, whatever pings and dormant markings it has carried out
    and whichever turns the event loop has taken; the only rows are those
    of transitions.  With no transition, the summary sent to Discord has
    no embed, so that nothing is posted. *)
Theorem staleness_rows_never_reach_the_summary (seps : list SEPItem) (st : Run)
    (allResults : list ActionResult) (summary : SummaryData) :
  Forall (fun sep => sep_state sep <> Some draft /\ sep_state sep <> Some in_review) seps ->
  (sweep config seps [] emptySummary st).1 = Ok (allResults, summary) ->
  pings summary = []
  /\ needsSponsor summary = []
  /\ dormantRows summary = []
  /\ (forall timestamp,
        transitions summary = [] ->
        createSummaryEmbeds (summaryEvent config timestamp seps allResults summary) = []).
Proof.
  intros Hseps Hrun.
  destruct (sweep_rows seps Hseps _ _ _ _ Hrun) as (Hp & Hn & Hdm). simpl in *.
  split; [exact Hp|]. split; [exact Hn|]. split; [exact Hdm|].
  intros timestamp Ht. unfold createSummaryEmbeds, summaryEvent. simpl.
  now rewrite Ht, Hp, Hn, Hdm.
Qed.

(** X30. The report at the end of a run: the summary goes to Discord in
    one request, and only if the run was a sweep (not a single-issue run)
    with at least one item and one result, a webhook URL is configured and
    the summary has a row; [process.exit(1)] is called exactly if some
    result has [success] false, whether or not the summary could be
    delivered. *)
Theorem report_sends_one_summary (issueNumber : option Z) (timestamp : Z)
    (seps : list SEPItem) (allResults : list ActionResult) (summary : SummaryData)
    (web : Web) :
  let hooks := register (DiscordHook (discordWebhookUrl config)) [] in
  let event := summaryEvent config timestamp seps allResults summary in
  let sends :=
    (0 <? length allResults)%nat && negb (singleIssue issueNumber)
    && (0 <? length seps)%nat && Js.truthy (discordWebhookUrl config)
    && (0 <? rows summary)%nat in
  exists web',
    report config hooks issueNumber timestamp seps allResults summary web
    = (Ok (negb (forallb res_success allResults)), web')
    /\ on_fetch web' = on_fetch web
    /\ posted_embeds web'
       = posted_embeds web
         ++ (if sends
             then [(default "" (discordWebhookUrl config), createSummaryEmbeds event)]
             else []).
Proof.
  intros hooks event sends.
  assert (Hfailed : (0 <? failedCount allResults)%nat = negb (forallb res_success allResults)).
  { unfold failedCount. induction allResults as [|r rs IH]; [reflexivity|]. simpl.
    destruct (res_success r); simpl; [exact IH | reflexivity]. }
  assert (Hrows : (0 <? length (createSummaryEmbeds event))%nat = (0 <? rows summary)%nat).
  { rewrite createSummaryEmbeds_length. unfold rows. simpl.
    destruct (transitions summary), (pings summary), (needsSponsor summary),
             (dormantRows summary); reflexivity. }
  assert (Hhooks : hooks = if Js.truthy (discordWebhookUrl config)
                           then [DiscordHook (discordWebhookUrl config)] else []).
  { subst hooks. unfold register, DiscordHook at 1. cbn [hook_enabled].
    unfold discordEnabled. now destruct (Js.truthy (discordWebhookUrl config)). }
  unfold report. rewrite Hfailed. unfold bind, ret. subst sends. rewrite Hhooks.
  clear Hhooks hooks.
  destruct ((0 <? length allResults)%nat && negb (singleIssue issueNumber));
    cbn [andb]; [|exists web; rewrite app_nil_r; auto].
  destruct seps as [|firstSep rest];
    [exists web; cbn [length Nat.ltb Nat.leb andb]; rewrite app_nil_r; auto|].
  fold event. rewrite dispatch_run.
  destruct (Js.truthy (discordWebhookUrl config)) eqn:Eurl; cbn [fold_left andb length].
  - change (onEvent (DiscordHook (discordWebhookUrl config)))
      with (discordOnEvent (discordWebhookUrl config)).
    destruct (discordOnEvent_run (discordWebhookUrl config) (Summary event)
                (summaryResult config firstSep) web) as (web' & Hrun & Hfetch & Hposted).
    rewrite Hrun. cbn [snd]. exists web'. split; [reflexivity|]. split; [exact Hfetch|].
    rewrite Hposted, Eurl, Hrows. reflexivity.
  - exists web. rewrite app_nil_r. auto.
Qed.

End SummaryRows.

Lemma staleness_rows_never_reach_the_summary_witness :
  let config := mockConfig false in
  let sep := mockSEPItem (Some proposal) [] in
  let st := startWith [true] config (mockRemote (jan1 + days 95) [] []) in
  exists allResults summary,
    (sweep config [sep] [] emptySummary st).1 = Ok (allResults, summary)
    /\ map (fun res => (act_type (res_action res), res_success res)) allResults
       = [(PingAuthor, true)]
    /\ rows summary = 0%nat
    /\ createSummaryEmbeds (summaryEvent config (jan1 + days 95) [sep] allResults summary)
       = [].
Proof.
  intros config sep st.
  assert (Hcomputed : exists out,
             (sweep config [sep] [] emptySummary st).1 = Ok out
             /\ map (fun res => (act_type (res_action res), res_success res)) out.1
                = [(PingAuthor, true)]
             /\ transitions out.2 = []).
  { eexists. split; [vm_compute; reflexivity|]. split; vm_compute; reflexivity. }
  destruct Hcomputed as ([allResults summary] & Hrun & Hresults & Htransitions).
  simpl in Hresults, Htransitions.
  destruct (staleness_rows_never_reach_the_summary config [sep] st allResults summary)
    as (Hp & Hn & Hd & Hembeds).
  - constructor; [split; discriminate | constructor].
  - exact Hrun.
  - exists allResults, summary. split; [exact Hrun|]. split; [exact Hresults|]. split.
    + unfold rows. now rewrite Htransitions, Hp, Hn, Hd.
    + apply Hembeds, Htransitions.
Defined.

(** ** Concrete runs of the detector and of the Discord hook *)

Example isSEP_examples :
  isSEP asciiUpper (mockIssue 1 "Add hint" ["sep"]) = true
  /\ isSEP asciiUpper (mockIssue 2 "sep-1234: tasks" []) = true
  /\ isSEP asciiUpper (mockIssue 3 "Separate the transports" ["bug"]) = true
  /\ isSEP asciiUpper (mockIssue 4 "Add hint" ["bug"]) = false.
Proof. repeat split; vm_compute; reflexivity. Qed.

Example getSEP_examples :
  let config := mockConfig false in
  let w := world (start config oneIssueRemote) in
  (getSEP config asciiUpper 7 w).1
  = Ok (Some (toSEPItem (mockIssue 7 "sep: elicitation" ["draft"])))
  /\ (getSEP config asciiUpper 8 w).1 = Ok None
  /\ sep_state (toSEPItem (mockIssue 7 "sep: elicitation" ["draft"])) = Some draft.
Proof. repeat split; vm_compute; reflexivity. Qed.

Example buildSummaryDescription_examples :
  let sep := mockSEPItem (Some proposal) [] in
  let ping := {| pg_item := sep; pg_pingTarget := target_author;
                 pg_targetUser := "test-author"; pg_daysSinceActivity := 95 |} in
  let needs := {| ns_item := sep; ns_daysSinceActivity := 120 |} in
  let event pings needs failed :=
    {| ev_timestamp := jan1; ev_dryRun := false; ev_transitions := [];
       ev_pings := pings; ev_needsSponsor := needs; ev_dormant := [];
       ev_totalProcessed := 3; ev_failed := failed |} in
  buildSummaryDescription (event [ping] [] 0) = "**1** ping

Processed 3 SEPs"
  /\ buildSummaryDescription (event [ping; ping] [needs] 1)
     = "**2** pings • **1** needs sponsor • **1** failed

Processed 3 SEPs"
  /\ pingLine ping
     = "• [#123](https://github.com/test/123) `proposal`: pinged author @test-author (**95d** inactive)".
Proof. repeat split; vm_compute; reflexivity. Qed.

Example discord_examples :
  let sep := mockSEPItem (Some proposal) [] in
  let ping days := {| pg_item := sep; pg_pingTarget := target_author;
                      pg_targetUser := "test-author"; pg_daysSinceActivity := days |} in
  let event pings failed :=
    Summary {| ev_timestamp := jan1; ev_dryRun := false; ev_transitions := [];
               ev_pings := pings; ev_needsSponsor := []; ev_dormant := [];
               ev_totalProcessed := 3; ev_failed := failed |} in
  let hook := DiscordHook (Some "https://discord.test/webhook") in
  let result := summaryResult (mockConfig false) sep in
  map (fun p => (p.1, length p.2))
      (posted_embeds (onEvent hook (event [ping 95; ping 120] 0) result mockWeb).2)
  = [("https://discord.test/webhook", 2%nat)]
  /\ (onEvent hook (event [ping 95] 0) result deadWeb).1 = Ok tt
  /\ length (posted_embeds (onEvent hook (event [ping 95] 0) result deadWeb).2) = 1%nat
  /\ posted_embeds (onEvent hook (event [] 2) result mockWeb).2 = []
  /\ map pg_daysSinceActivity
         (sortByDays pg_daysSinceActivity [ping 95; ping 120; ping 95])
     = [120; 95; 95].
Proof. repeat split; vm_compute; reflexivity. Qed.

(** ** Concrete runs of the event loop *)

(** A sweep over two proposals on a remote that stops listing comments
    once the first ping is posted.  If the event loop gets to the pending
    summary update of the first item, its rejection ends the run before
    the second item is taken up; if it does not, the failure of the
    second item is caught by the loop and the sweep returns. *)
Example unhandled_rejection_ends_the_sweep :
  let config := mockConfig false in
  let sep := mockSEPItem (Some proposal) [] in
  let remote := flakyRemote (jan1 + days 95) in
  let ended := sweep config [sep; sep] [] emptySummary (startWith [true] config remote) in
  let returned := sweep config [sep; sep] [] emptySummary (start config remote) in
  ended.1 = Throw (RequestError 502 "Bad Gateway")
  /\ unhandled ended.2 = Some (RequestError 502 "Bad Gateway")
  /\ length (calls (world ended.2)) = 3%nat
  /\ (exists allResults summary,
        returned.1 = Ok (allResults, summary)
        /\ map (fun res => (act_type (res_action res), res_success res)) allResults
           = [(PingAuthor, true)])
  /\ unhandled returned.2 = None
  /\ length (floating returned.2) = 1%nat.
Proof.
  repeat split; try (vm_compute; reflexivity).
  eexists _, _. split; vm_compute; reflexivity.
Qed.

(** A draft that is stale and whose maintainer is inactive, in a dry
    run.  The accountability pass waits for the remote: if the event loop
    gets to the pending summary update meanwhile, the row of the staleness
    ping is in the summary object when [process] returns; if not, the
    object has the row of the maintainer ping only, and the update is
    still pending. *)
Example draft_row_depends_on_the_event_loop :
  let config := mockConfig true in
  let sep := mockSEPItem (Some draft) ["maintainer1"] in
  let remote := mockRemote (jan1 + days 95) [] ["maintainer1"] in
  let prompt := process config sep (startWith [true] config remote) in
  let late := process config sep (start config remote) in
  map (fun p => (pg_pingTarget p, pg_targetUser p)) (pings (deref prompt.2 0%nat))
  = [(target_sponsor, "maintainer1"); (target_maintainer, "maintainer1")]
  /\ floating prompt.2 = []
  /\ map (fun p => (pg_pingTarget p, pg_targetUser p)) (pings (deref late.2 0%nat))
     = [(target_maintainer, "maintainer1")]
  /\ length (floating late.2) = 1%nat.
Proof. repeat split; vm_compute; reflexivity. Qed.
